(** * SBAS_geocode: radar <-> geographic index matrices and resamplers

    A shallow embedding of [pygmtsar/SBAS_geocode.py].  Python exceptions are
    values of a small error monad, numpy arrays are lists in row-major
    order, coordinates are exact rationals, and the nearest-neighbour index
    ([scipy.spatial.cKDTree]) is an interface with its contract. *)

From Stdlib Require Import String Ascii.
From Stdlib Require Import List ZArith QArith Qround Lia Lqa Bool Permutation.
Import ListNotations.
Close Scope Q_scope.

Set Implicit Arguments.

(** ** Python exceptions *)

Inductive exn : Type :=
| ValueError | IndexError | AssertionError | NameError | AttributeError
| FileNotFoundError.

Inductive result (A : Type) : Type :=
| Ok (a : A)
| Raise (e : exn).

Arguments Ok {A} a.
Arguments Raise {A} e.

Definition bind {A B : Type} (m : result A) (k : A -> result B) : result B :=
  match m with
  | Ok a => k a
  | Raise e => Raise e
  end.

Notation "x <- m ;; k" := (bind m (fun x => k))
  (at level 61, m at next level, right associativity).
Notation "m ;;; k" := (bind m (fun _ => k))
  (at level 61, right associativity).

(** [assert c] *)
Definition py_assert (c : bool) : result unit :=
  if c then Ok tt else Raise AssertionError.

Fixpoint mapM {A B : Type} (f : A -> result B) (l : list A) : result (list B) :=
  match l with
  | [] => Ok []
  | a :: l' => b <- f a ;; bs <- mapM f l' ;; Ok (b :: bs)
  end.

(** ** Integer indexing of a one-dimensional numpy array

    [a[i]] for an integer [i]: an index in [-n, n) is accepted, a negative one
    counting from the end; anything else raises [IndexError]. *)

Definition py_index (n : nat) (i : Z) : result nat :=
  if (0 <=? i)%Z && (i <? Z.of_nat n)%Z then Ok (Z.to_nat i)
  else if (- Z.of_nat n <=? i)%Z && (i <? 0)%Z then Ok (Z.to_nat (Z.of_nat n + i))
  else Raise IndexError.

Definition py_getitem {A : Type} (a : list A) (i : Z) : result A :=
  k <- py_index (length a) i ;;
  match nth_error a k with
  | Some v => Ok v
  | None => Raise IndexError
  end.

(** [a[idx]] for an integer array [idx] (fancy indexing): every index is
    looked up, one bad index fails the whole gather. *)
Definition py_take {A : Type} (a : list A) (idx : list Z) : result (list A) :=
  mapM (py_getitem a) idx.

(** [a.max()] of an integer array; numpy refuses an empty one. *)
Definition py_max (a : list Z) : result Z :=
  match a with
  | [] => Raise ValueError
  | v :: a' => Ok (fold_left Z.max a' v)
  end.

(** ** Rational comparisons as booleans *)

Definition Qlt_bool (a b : Q) : bool := negb (Qle_bool b a).

Definition Qminimum (a : Q) (l : list Q) : Q :=
  fold_left (fun m v => if Qlt_bool v m then v else m) l a.

Definition Qmaximum (a : Q) (l : list Q) : Q :=
  fold_left (fun m v => if Qlt_bool m v then v else m) l a.

(** [a.min()], [a.max()] of a float array. *)
Definition q_min (l : list Q) : result Q :=
  match l with [] => Raise ValueError | a :: l' => Ok (Qminimum a l') end.

Definition q_max (l : list Q) : result Q :=
  match l with [] => Raise ValueError | a :: l' => Ok (Qmaximum a l') end.

(** ** Points and distances

    A point is a row [[y, x]] of an [(n, 2)] array.  A Euclidean distance is
    kept by its square, [Finite sq] standing for the real number [sqrt sq];
    [Inf] is numpy's [inf]. *)

Definition point : Type := (Q * Q)%type.

Definition sqdist (p q : point) : Q :=
  ((fst p - fst q) ^ 2 + (snd p - snd q) ^ 2)%Q.

Inductive distance : Type :=
| Finite (sq : Q)
| Inf.

Definition isinf (d : distance) : bool :=
  match d with Inf => true | Finite _ => false end.

(** A finite upper bound of the shape [sqrt radicand + slack]. *)
Record limit : Type := mkLimit { radicand : Q; slack : Q }.

(** [sqrt sq < sqrt radicand + slack], decided without leaving the
    rationals: with [r = sq - radicand - slack^2] the inequality is
    [r < 2 * slack * sqrt radicand]. *)
Definition lt_limit (sq : Q) (l : limit) : bool :=
  let r := (sq - radicand l - slack l ^ 2)%Q in
  Qlt_bool r 0 || Qlt_bool (r ^ 2) (4 * slack l ^ 2 * radicand l).


(** [distance_upper_bound]: [None] is the default [inf]. *)
Definition within (sq : Q) (ub : option limit) : bool :=
  match ub with
  | None => true
  | Some l => lt_limit sq l
  end.

(** ** The nearest-neighbour index

    [cKDTree(data).query(x, k=1, distance_upper_bound=ub)] for one target
    [x]: the distance to and the position of a nearest point of [data]
    strictly inside the bound, or [(inf, len(data))] when there is none.
    Which of several equally near points is reported is the library's own
    affair, so the index is an interface: a query function with the
    two facts every use below relies on. *)

Class cKDTree : Type := {
  query : list point -> point -> option limit -> distance * nat;
  query_finite : forall data x ub sq i,
    query data x ub = (Finite sq, i) ->
    exists p, nth_error data i = Some p /\ (sq == sqdist p x)%Q /\
              within sq ub = true /\
              forall q, In q data -> (sq <= sqdist q x)%Q;
  query_inf : forall data x ub d i,
    query data x ub = (d, i) -> isinf d = true ->
    i = length data /\ forall q, In q data -> within (sqdist q x) ub = false
}.

(** [d, inds = tree.query(targets, k=1, ...)] *)
Definition tree_query `{cKDTree} (data targets : list point) (ub : option limit)
  : list distance * list nat :=
  List.split (map (fun x => query data x ub) targets).

(** A linear scan: the first point at the least distance. *)
Fixpoint nearest (x : point) (data : list point) (k : nat) (best : option (Q * nat))
  : option (Q * nat) :=
  match data with
  | [] => best
  | p :: data' =>
      let sq := sqdist p x in
      let best' := match best with
                   | None => Some (sq, k)
                   | Some (b, _) => if Qlt_bool sq b then Some (sq, k) else best
                   end in
      nearest x data' (S k) best'
  end.

Definition scan_query (data : list point) (x : point) (ub : option limit)
  : distance * nat :=
  match nearest x data 0 None with
  | Some (sq, i) => if within sq ub then (Finite sq, i) else (Inf, length data)
  | None => (Inf, length data)
  end.

(** ** Labelled arrays

    An [xarray.DataArray]: named dimensions with their sizes, numeric
    coordinates by name, other ("passenger") coordinates such as the
    interferogram pair, attributes, and the values in row-major order. *)

Record DataArray (A : Type) : Type := mkDA {
  name : string;
  dims : list string;
  shape : list nat;
  coords : list (string * list Q);
  labels : list (string * list string);
  attrs : list (string * Z);
  values : list A
}.

Arguments mkDA {A}.

Fixpoint assoc {B : Type} (k : string) (l : list (string * B)) : option B :=
  match l with
  | [] => None
  | (k', v) :: l' => if String.eqb k k' then Some v else assoc k l'
  end.

Definition has_dim {A} (da : DataArray A) (d : string) : bool :=
  existsb (String.eqb d) (dims da).

(** [da.y], [da.x]: the coordinate of that name. *)
Definition coord {A} (da : DataArray A) (d : string) : result (list Q) :=
  match assoc d (coords da) with
  | Some c => Ok c
  | None => Raise AttributeError
  end.

(** [da.size] *)
Definition size {A} (da : DataArray A) : nat := fold_right Nat.mul 1 (shape da).

Definition with_values {A B} (da : DataArray A) (v : list B) : DataArray B :=
  mkDA (name da) (dims da) (shape da) (coords da) (labels da) (attrs da) v.

Definition rename {A} (da : DataArray A) (n : string) : DataArray A :=
  mkDA n (dims da) (shape da) (coords da) (labels da) (attrs da) (values da).

Fixpoint set_assoc {B : Type} (k : string) (v : B) (l : list (string * B))
  : list (string * B) :=
  match l with
  | [] => [(k, v)]
  | (k', v') :: l' =>
      if String.eqb k k' then (k, v) :: l' else (k', v') :: set_assoc k v l'
  end.

(** [da.attrs[k] = v] *)
Definition set_attr {A} (da : DataArray A) (k : string) (v : Z) : DataArray A :=
  mkDA (name da) (dims da) (shape da) (coords da) (labels da)
       (set_assoc k v (attrs da)) (values da).

(** The sizes of the dimensions other than [d]; [da.min(d)] has this shape
    and fails when [d] is no dimension. *)
Fixpoint drop_dim (d : string) (ds : list string) (sh : list nat)
  : option (list string * list nat) :=
  match ds, sh with
  | d' :: ds', n :: sh' =>
      if String.eqb d d' then Some (ds', sh')
      else match drop_dim d ds' sh' with
           | Some (ds'', sh'') => Some (d' :: ds'', n :: sh'')
           | None => None
           end
  | _, _ => None
  end.

(** [da.coord.diff(dim)[0]]: the first step of a coordinate. *)
Definition first_diff (c : list Q) : result Q :=
  match c with
  | a :: b :: _ => Ok (b - a)%Q
  | _ => Raise IndexError
  end.

(** [xr.broadcast(da.y, da.x)] flattened and stacked: the cell centres
    [(y, x)] in row-major order. *)
Definition broadcast_yx (ys xs : list Q) : list point :=
  flat_map (fun y => map (fun x => (y, x)) xs) ys.

(** ** Files under [basedir] *)

Definition filesystem : Type := string -> option (DataArray Z).

Definition path_join (dir file : string) : string :=
  String.append dir (String.append "/" file).

Definition fs_exists (fs : filesystem) (p : string) : bool :=
  match fs p with Some _ => true | None => false end.

Definition fs_remove (fs : filesystem) (p : string) : filesystem :=
  fun q => if String.eqb q p then None else fs q.

Definition fs_write (fs : filesystem) (p : string) (v : DataArray Z) : filesystem :=
  fun q => if String.eqb q p then Some v else fs q.

(** The file at [p] after a call that returned. *)
Definition fs_lookup_ok (r : result filesystem) (p : string) : option (DataArray Z) :=
  match r with
  | Ok fs => fs p
  | Raise _ => None
  end.

(** [xr.open_dataarray(p, ...)] *)
Definition open_dataarray (fs : filesystem) (p : string) : result (DataArray Z) :=
  match fs p with
  | Some v => Ok v
  | None => Raise FileNotFoundError
  end.

(** ** The translation table, [trans.dat]

    [get_trans_dat] is the object's own accessor.  The forward builder reads
    its result as an array of rows (r a topo lon lat), [trans[:,k]]; the
    inverse builder reads it as a dataset of two-dimensional variables
    [azi], [rng], [ll] over (lat, lon), cut into dask blocks.  [TransDat]
    holds the table as each of them reads it. *)

Record trans_row : Type := mkRow {
  t_rng : Q; t_azi : Q; t_ele : Q; t_lon : Q; t_lat : Q
}.

Record TransDat : Type := mkTransDat {
  rows : list trans_row;
  azi : list (list Q);
  rng : list (list Q);
  ll : list (list Q);
  chunks : list nat * list nat
}.

(** A row of [get_trans_dat_blocks_extents]:
    (block row, block column, ymin, ymax, xmin, xmax). *)
Record extent : Type := mkExtent {
  e_iy : Q; e_ix : Q; e_ymin : Q; e_ymax : Q; e_xmin : Q; e_xmax : Q
}.

(** The object the methods belong to: only what they read of it. *)
Record SBAS : Type := mkSBAS {
  basedir : string;
  fs : filesystem;
  get_trans_dat : option string -> TransDat;
  get_trans_dat_blocks_extents : option string -> list extent;
  get_filenames : option string -> string -> string
}.

(** ** [intf_ra2ll_matrix]: the forward matrix (radar -> geographic) *)

(** [np.sqrt((dx/2.)**2 + (dy/2.)**2) + 1e-2], as the real number it
    stands for.  The code's float64 sum is that number rounded, so a
    distance that differs from the bound by no more than the rounding is
    decided by the rounding and not by this definition. *)
Definition distance_limit (dx dy : Q) : limit :=
  mkLimit ((dx / 2) ^ 2 + (dy / 2) ^ 2)%Q (1 # 100)%Q.

(** [np.where(~np.isinf(d), inds, -1)] *)
Definition intf2trans_of (d : list distance) (inds : list nat) : list Z :=
  map (fun di => if negb (isinf (fst di)) then Z.of_nat (snd di) else (-1)%Z)
      (combine d inds).

(** [np.where(mask >= 0, gathered, -1)] *)
Definition where_nonneg (mask gathered : list Z) : list Z :=
  map (fun mg => if (0 <=? fst mg)%Z then snd mg else (-1)%Z) (combine mask gathered).

(** The file names of a subswath's matrices. *)
Definition trans_ra2ll_file (self : SBAS) (subswath : string) : string :=
  path_join (basedir self) (String.append "F" (String.append subswath "_trans_ra2ll.grd")).

Definition intf_ra2ll_file (self : SBAS) (subswath : string) : string :=
  path_join (basedir self) (String.append "F" (String.append subswath "_intf_ra2ll.grd")).

Definition intf_ll2ra_file (self : SBAS) (subswath : string) : string :=
  path_join (basedir self) (String.append "F" (String.append subswath "_intf_ll2ra.grd")).

(** [da.min(d).size]: the sizes of the other dimensions multiplied;
    reducing over a name that is no dimension fails. *)
Definition min_size {A} (da : DataArray A) (d : string) : result nat :=
  match drop_dim d (dims da) (shape da) with
  | Some (_, sh) => Ok (fold_right Nat.mul 1 sh)
  | None => Raise ValueError
  end.

Section Forward.
Context `{kd : cKDTree}.
Variable A : Type.

(** Lines 101-109: for every translation-table point, the flat index of
    its radar cell or -1. *)
Definition intf2trans (intf_yxs trans_yxs : list point) (distance_limit : limit)
  : list Z :=
  let '(d, inds) := tree_query intf_yxs trans_yxs (Some distance_limit) in
  intf2trans_of d inds.

(** Lines 81-112: everything up to the assignment of the matrix values.
    The result is the size of [intf_grid = intf_grids.min('pair')] and the
    built array [intf_ra2ll]. *)
Definition build_intf_ra2ll (self : SBAS) (subswath : string)
           (intf_grids : DataArray A) : result (nat * DataArray Z) :=
  intf_grid_size <- min_size intf_grids "pair" ;;
  let trans := rows (get_trans_dat self (Some subswath)) in
  _lon_min <- q_min (map t_lon trans) ;;
  _lon_max <- q_max (map t_lon trans) ;;
  _lat_min <- q_min (map t_lat trans) ;;
  _lat_max <- q_max (map t_lat trans) ;;
  trans_ra2ll <- open_dataarray (fs self) (trans_ra2ll_file self subswath) ;;
  ys <- coord intf_grids "y" ;;
  xs <- coord intf_grids "x" ;;
  let intf_yxs := broadcast_yx ys xs in
  let trans_yxs := map (fun r => (t_azi r, t_rng r)) trans in
  dy <- first_diff ys ;;
  dx <- first_diff xs ;;
  let intf2trans := intf2trans intf_yxs trans_yxs (distance_limit dx dy) in
  gathered <- py_take intf2trans (values trans_ra2ll) ;;
  let intf_ra2ll := rename (with_values trans_ra2ll
                              (map (fun _ => 0%Z) (values trans_ra2ll)))
                           "intf_ra2ll" in
  Ok (intf_grid_size,
      with_values intf_ra2ll (where_nonneg (values trans_ra2ll) gathered)).

(** Lines 114-121: the post-check and the write. *)
Definition save_intf_ra2ll (self : SBAS) (subswath : string)
           (intf_grid_size : nat) (intf_ra2ll : DataArray Z) : result filesystem :=
  largest <- py_max (values intf_ra2ll) ;;
  py_assert (Z.of_nat intf_grid_size >? largest)%Z ;;;
  let intf_ra2ll := set_attr intf_ra2ll "node_offset" 1%Z in
  let file := intf_ra2ll_file self subswath in
  let fs1 := if fs_exists (fs self) file then fs_remove (fs self) file else fs self in
  Ok (fs_write fs1 file intf_ra2ll).

Definition intf_ra2ll_matrix (self : SBAS) (subswath : string)
           (intf_grids : DataArray A) : result filesystem :=
  built <- build_intf_ra2ll self subswath intf_grids ;;
  save_intf_ra2ll self subswath (fst built) (snd built).

End Forward.

(** ** [intf_ra2ll]: the forward resampler *)

(** The position of the first label equal to [l]. *)
Fixpoint find_label (l : Q) (old : list Q) (k : nat) : option nat :=
  match old with
  | [] => None
  | o :: old' => if Qeq_bool o l then Some k else find_label l old' (S k)
  end.

(** For one axis of [da.reindex_like(other)]: the old position of every new
    label ([None]: the label is new and its cells are filled with
    not-a-number).  An axis [other] does not index keeps its positions. *)
Definition axis_map {A B} (da : DataArray A) (other : DataArray B)
           (d : string) (n : nat) : list (option nat) :=
  match assoc d (coords other), assoc d (coords da) with
  | Some new, Some old =>
      if has_dim other d then map (fun l => find_label l old 0) new
      else map Some (seq 0 n)
  | _, _ => map Some (seq 0 n)
  end.

(** The old flat position of every cell of the re-indexed array, row-major. *)
Fixpoint nd_positions (maps : list (list (option nat))) (sh : list nat)
         (base : option nat) : list (option nat) :=
  match maps, sh with
  | m :: maps', _ :: sh' =>
      let stride := fold_right Nat.mul 1 sh' in
      flat_map (fun p =>
                  nd_positions maps' sh'
                    match base, p with
                    | Some b, Some i => Some (b + i * stride)
                    | _, _ => None
                    end) m
  | _, _ => [base]
  end.

Fixpoint zip_dims (ds : list string) (sh : list nat) : list (string * nat) :=
  match ds, sh with
  | d :: ds', n :: sh' => (d, n) :: zip_dims ds' sh'
  | _, _ => []
  end.

(** The position of [d] among the dimensions. *)
Fixpoint dim_index (d : string) (ds : list string) : option nat :=
  match ds with
  | [] => None
  | d' :: ds' => if String.eqb d d' then Some 0
                 else match dim_index d ds' with
                      | Some k => Some (S k)
                      | None => None
                      end
  end.

(** No label twice. *)
Fixpoint unique_labels (l : list Q) : bool :=
  match l with
  | [] => true
  | a :: l' => negb (existsb (Qeq_bool a) l') && unique_labels l'
  end.

(** Every axis of [da] that [da.reindex_like(other)] re-indexes (an axis
    with a coordinate in both arrays, a dimension of [other]) carries each
    of its labels once; an axis of [da] without a coordinate that [other]
    indexes has the size of that index. *)
Definition reindexable {A B} (da : DataArray A) (other : DataArray B) : bool :=
  forallb (fun dn => match assoc (fst dn) (coords other), assoc (fst dn) (coords da) with
                     | Some _, Some old =>
                         negb (has_dim other (fst dn)) || unique_labels old
                     | Some new, None =>
                         negb (has_dim other (fst dn)) || Nat.eqb (length new) (snd dn)
                     | None, _ => true
                     end)
          (zip_dims (dims da) (shape da)).

Section Resample.
(** The finite values of a raster; a cell is [None] for not-a-number. *)
Variable V : Type.
Definition float : Type := option V.

(** The array [grid.reindex_like(other)] gives, when it gives one. *)
Definition reindex_like {B} (grid : DataArray float) (other : DataArray B)
  : DataArray float :=
  let maps := map (fun dn => axis_map grid other (fst dn) (snd dn))
                  (zip_dims (dims grid) (shape grid)) in
  let new_coords :=
    map (fun kc => match assoc (fst kc) (coords other) with
                   | Some c => if has_dim other (fst kc) && has_dim grid (fst kc)
                               then (fst kc, c) else kc
                   | None => kc
                   end) (coords grid) in
  mkDA (name grid) (dims grid) (map (@length _) maps) new_coords (labels grid)
       (attrs grid)
       (map (fun p => match p with
                      | Some k => nth k (values grid) None
                      | None => None
                      end)
            (nd_positions maps (shape grid) (Some 0))).

(** [grid.reindex_like(other)]: an axis that is re-indexed has to carry
    every label once, a repeated one is refused with [ValueError]; so is
    an axis without labels whose size is not that of the new index. *)
Definition py_reindex_like {B} (grid : DataArray float) (other : DataArray B)
  : result (DataArray float) :=
  if reindexable grid other then Ok (reindex_like grid other) else Raise ValueError.

(** The inner [ra2ll(grid)] of [intf_ra2ll]. *)
Definition ra2ll (matrix_ra2ll matrix_ll2ra : DataArray Z) (grid : DataArray float)
  : result (DataArray float) :=
  grid <- py_reindex_like grid matrix_ll2ra ;;
  let matrix_ra2ll_valid :=
    map (fun m => if (m <? Z.of_nat (size grid))%Z then m else (-1)%Z)
        (values matrix_ra2ll) in
  gathered <- py_take (values grid) matrix_ra2ll_valid ;;
  Ok (mkDA EmptyString (dims matrix_ra2ll) (shape matrix_ra2ll) (coords matrix_ra2ll)
           (labels matrix_ra2ll) []
           (map (fun mg => if (0 <=? fst mg)%Z then snd mg else None)
                (combine (values matrix_ra2ll) gathered))).

(** The first argument may hold the grids ("that's possible to miss the
    first argument subswath"). *)
Inductive pyarg : Type :=
| PySubswath (s : string)
| PyGrids (g : DataArray float).

(** [grids[item]] along the first dimension. *)
Definition item_of (grids : DataArray float) (item : nat) : DataArray float :=
  let sz := fold_right Nat.mul 1 (tl (shape grids)) in
  mkDA (name grids) (tl (dims grids)) (tl (shape grids)) (coords grids) (labels grids)
       (attrs grids) (firstn sz (skipn (item * sz) (values grids))).

(** [xr.concat(parts, dim=d)] of arrays shaped like the first one.  When
    the arrays have no dimension [d] they are stacked along a new leading
    dimension [d]; when they have one they are joined along it, its labels
    one array after the other. *)
Definition concat_dim (d : string) (parts : list (DataArray float))
  : result (DataArray float) :=
  match parts with
  | [] => Raise ValueError
  | p :: _ =>
      match dim_index d (dims p) with
      | None =>
          Ok (mkDA (name p) (d :: dims p) (length parts :: shape p) (coords p) (labels p)
                   (attrs p) (flat_map (@values _) parts))
      | Some k =>
          let outer := fold_right Nat.mul 1 (firstn k (shape p)) in
          let block := fold_right Nat.mul 1 (skipn k (shape p)) in
          Ok (mkDA (name p) (dims p)
                   (firstn k (shape p)
                    ++ (length parts * nth k (shape p) 0) :: skipn (S k) (shape p))
                   (map (fun kc =>
                           if String.eqb (fst kc) d
                           then (fst kc,
                                 flat_map (fun q => match assoc d (coords q) with
                                                    | Some c => c
                                                    | None => []
                                                    end) parts)
                           else kc) (coords p))
                   (labels p) (attrs p)
                   (flat_map (fun o =>
                                flat_map (fun q => firstn block
                                                     (skipn (o * block) (values q)))
                                         parts)
                             (seq 0 outer)))
      end
  end.

(** Lines 63-66: the coordinates of the input other than [y] and [x]. *)
Definition copy_coords (grids grids_ll : DataArray float) : DataArray float :=
  let keep := filter (fun kc => negb (String.eqb (fst kc) "y" || String.eqb (fst kc) "x"))
                     (coords grids) in
  mkDA (name grids_ll) (dims grids_ll) (shape grids_ll)
       (fold_left (fun cs kc => set_assoc (fst kc) (snd kc) cs) keep (coords grids_ll))
       (fold_left (fun cs kc => set_assoc (fst kc) (snd kc) cs) (labels grids)
                  (labels grids_ll))
       (attrs grids_ll) (values grids_ll).

(** ['y' in grids.dims] and the like. *)
Definition py_in (d : string) (ds : list string) : bool := existsb (String.eqb d) ds.

(** Line 25, [if not 'y' in grids.dims and 'x' in grids.dims:].  Python
    reads [not a in b and c in d] as [(not (a in b)) and (c in d)]. *)
Definition helper_check_ra2ll (ds : list string) : bool :=
  negb (py_in "y" ds) && py_in "x" ds.

Definition note_ra2ll : string :=
  "NOTE: the grid is not in radar coordinates, miss geocoding".

(** [intf_ra2ll]: what is printed and what is returned.  [get_subswath]
    is the object's own method: it resolves the subswath argument. *)
Definition intf_ra2ll (self : SBAS) (get_subswath : option pyarg -> result string)
           (subswath : option pyarg) (grids : option (DataArray float))
  : list string * result (DataArray float) :=
  match (match subswath, grids with
         | None, None => Raise AssertionError
         | _, Some g => Ok (subswath, PyGrids g)
         | Some s, None => Ok (None, s)
         end) with
  | Raise e => ([], Raise e)
  | Ok (_, PySubswath _) => ([], Raise AttributeError)
  | Ok (subswath, PyGrids grids) =>
      if helper_check_ra2ll (dims grids) then ([note_ra2ll], Ok grids)
      else
        ([],
         subswath <- get_subswath subswath ;;
         matrix_ra2ll <- open_dataarray (fs self) (intf_ra2ll_file self subswath) ;;
         matrix_ll2ra <- open_dataarray (fs self) (intf_ll2ra_file self subswath) ;;
         if Nat.eqb (length (dims grids)) 2 then ra2ll matrix_ra2ll matrix_ll2ra grids
         else
           grids_ll <- mapM (fun item => ra2ll matrix_ra2ll matrix_ll2ra
                                              (item_of grids item))
                            (seq 0 (hd 0 (shape grids))) ;;
           grids_ll <- concat_dim (hd EmptyString (dims grids)) grids_ll ;;
           Ok (copy_coords grids grids_ll))
  end.

End Resample.

(** ** [intf_ll2ra_matrix]: the inverse matrix (geographic -> radar) *)

(** Two-dimensional numpy arrays are lists of rows. *)
Definition array2 (A : Type) : Type := list (list A).

Definition shape2 {A} (a : array2 A) : nat * nat :=
  (length a, length (hd [] a)).

(** [a.reshape(-1)] *)
Definition flatten {A} (a : array2 A) : list A := concat a.

(** [flat.reshape(like.shape)] *)
Fixpoint reshape_like {A B} (like : array2 B) (flat : list A) : array2 A :=
  match like with
  | [] => []
  | r :: like' => firstn (length r) flat :: reshape_like like' (skipn (length r) flat)
  end.

Definition uint32_modulus : Z := 2 ^ 32.

(** [np.uint32(-1)] *)
Definition uint32_sentinel : Z := (uint32_modulus - 1)%Z.

Definition to_uint32 (z : Z) : Z := (z mod uint32_modulus)%Z.

(** [arange(n, dtype=np.uint32).reshape(shape) * ones(shape, dtype=np.uint32)] *)
Definition trans_idx_of (like : array2 Q) : array2 Z :=
  let n := length (flatten like) in
  reshape_like like
    (map (fun k => to_uint32 (to_uint32 (Z.of_nat k) * 1)) (seq 0 n)).

(** Cutting an axis into consecutive chunks of the given sizes. *)
Fixpoint split_chunks {A} (sizes : list nat) (l : list A) : list (list A) :=
  match sizes with
  | [] => []
  | n :: sizes' => firstn n l :: split_chunks sizes' (skipn n l)
  end.

(** [a.blocks[iy, ix]] of an array cut by [chunks]: block indices follow
    Python's rule for negative numbers, a wrong one raises [IndexError]. *)
Definition block {A} (chunks : list nat * list nat) (a : array2 A) (iy ix : Z)
  : result (array2 A) :=
  ky <- py_index (length (fst chunks)) iy ;;
  kx <- py_index (length (snd chunks)) ix ;;
  let band := nth ky (split_chunks (fst chunks) a) [] in
  Ok (map (fun row => nth kx (split_chunks (snd chunks) row) []) band).

(** [astype(int)] of a float: towards zero. *)
Definition Qtrunc (q : Q) : Z :=
  if Qlt_bool q 0 then Qceiling q else Qfloor q.

(** Lines 243-245: the rows of the extents table kept for the output block
    with bounds [ymin, ymax, xmin, xmax]. *)
Definition block_selected (ymin ymax xmin xmax : Q) (e : extent) : bool :=
  let ymask := Qle_bool (ymin - 1) (e_ymax e) && Qle_bool (e_ymin e) (ymax + 1) in
  let xmask := Qle_bool (xmin - 1) (e_xmax e) && Qle_bool (e_xmin e) (xmax + 1) in
  ymask && xmask.

(** [np.stack([a, b], axis=1)] *)
Definition stack_yx (a b : list Q) : result (list point) :=
  if Nat.eqb (length a) (length b) then Ok (combine a b) else Raise ValueError.

Definition same_shape {A B} (a : array2 A) (b : array2 B) : bool :=
  Nat.eqb (length a) (length b) &&
  forallb (fun rs => Nat.eqb (length (fst rs)) (length (snd rs))) (combine a b).

(** The azimuth, range and label vectors of one selected block, lines
    253-260. *)
Definition read_block (td : TransDat) (e : extent)
  : result (list Q * list Q * list Z) :=
  let iy := Qtrunc (e_iy e) in
  let ix := Qtrunc (e_ix e) in
  block_azi <- block (chunks td) (azi td) iy ix ;;
  block_rng <- block (chunks td) (rng td) iy ix ;;
  block_idx <- block (chunks td) (trans_idx_of (ll td)) iy ix ;;
  Ok (flatten block_azi, flatten block_rng, flatten block_idx).

(** [np.concatenate(parts)]; numpy needs at least one array. *)
Definition np_concatenate {A} (parts : list (list A)) : result (list A) :=
  match parts with
  | [] => Raise ValueError
  | _ => Ok (concat parts)
  end.

Section Inverse.
Context `{kd : cKDTree}.

(** The inner [calc_intf_ll2ra_matrix(azi, rng)] for one block of the radar
    grid.  (Its [print] of the selected blocks is left out.) *)
Definition calc_intf_ll2ra_matrix (td : TransDat) (trans_blocks_extents : list extent)
           (azi rng : array2 Q) : result (array2 Z) :=
  py_assert (same_shape azi rng) ;;;
  ymin <- q_min (flatten azi) ;;
  ymax <- q_max (flatten azi) ;;
  xmin <- q_min (flatten rng) ;;
  xmax <- q_max (flatten rng) ;;
  let blocks := filter (block_selected ymin ymax xmin xmax) trans_blocks_extents in
  parts <- mapM (read_block td) blocks ;;
  blocks_azis <- np_concatenate (map (fun p => fst (fst p)) parts) ;;
  blocks_rngs <- np_concatenate (map (fun p => snd (fst p)) parts) ;;
  blocks_idxs <- np_concatenate (map (fun p => snd p) parts) ;;
  source_yxs <- stack_yx blocks_azis blocks_rngs ;;
  target_yxs <- stack_yx (flatten azi) (flatten rng) ;;
  let '(d, inds) := tree_query source_yxs target_yxs None in
  matrix <- py_take blocks_idxs (map Z.of_nat inds) ;;
  Ok (reshape_like azi matrix).

(** [xr.broadcast(azis, rngs)] restricted to one block of the grid. *)
Definition azis_block (ys xs : list Q) : array2 Q := map (fun y => map (fun _ => y) xs) ys.
Definition rngs_block (ys xs : list Q) : array2 Q := map (fun _ => xs) ys.

(** [xr.apply_ufunc(calc_intf_ll2ra_matrix, azis, rngs, dask='parallelized')]
    computed: one call per block of the radar grid, the blocks being those
    [grid_chunks] cuts the (y, x) axes into (the chunks of [azis] and [rngs]
    after [unify_chunks]). *)
Definition matrix_ra_blocks (self : SBAS) (subswath : option string)
           (grid_chunks : list nat * list nat) (ys xs : list Q)
  : result (list (list (array2 Z))) :=
  let trans_dat := get_trans_dat self subswath in
  let trans_blocks_extents := get_trans_dat_blocks_extents self subswath in
  mapM (fun yp =>
          mapM (fun xp =>
                  calc_intf_ll2ra_matrix trans_dat trans_blocks_extents
                    (azis_block yp xp) (rngs_block yp xp))
               (split_chunks (snd grid_chunks) xs))
       (split_chunks (fst grid_chunks) ys).

(** The blocks of a band side by side, and the bands one below the other:
    the array a grid of blocks stands for. *)
Definition hstack {B} (band : list (array2 B)) : array2 B :=
  map (fun i => concat (map (fun b => nth i b []) band))
      (seq 0 (length (hd [] band))).

Definition assemble {B} (m : list (list (array2 B))) : array2 B :=
  concat (map hstack m).

(** What [intf_ll2ra_matrix] returns: the lazy array itself ([interactive]),
    or the delayed write of it, with the disk as the call leaves it.  A lazy
    value is kept as what computing it gives; for the delayed write that is
    the disk after a computation that succeeded. *)
Inductive ll2ra_matrix_return : Type :=
| ReturnsArray (matrix_ra : result (list (list (array2 Z))))
| ReturnsHandler (fs_now : filesystem) (handler : result filesystem).

(** The file [to_netcdf(..., compute=False)] creates at once: the
    coordinates are written, the cells wait for the computation and hold
    the fill value of their type, the largest 32-bit number. *)
Definition pending_intf_ll2ra (ys xs : list Q) : DataArray Z :=
  mkDA "intf_ll2ra" ["y"; "x"]%string [length ys; length xs]
       [("y"%string, ys); ("x"%string, xs)] [] []
       (repeat uint32_sentinel (length ys * length xs)).

Definition intf_ll2ra_matrix (self : SBAS) (subswath : option string)
           {A} (intf_grid : DataArray A) (grid_chunks : list nat * list nat)
           (interactive : bool) : result ll2ra_matrix_return :=
  ys <- coord intf_grid "y" ;;
  xs <- coord intf_grid "x" ;;
  let matrix_ra := matrix_ra_blocks self subswath grid_chunks ys xs in
  if interactive then Ok (ReturnsArray matrix_ra)
  else
    let filename := get_filenames self subswath "intf_ll2ra" in
    let fs1 := if fs_exists (fs self) filename then fs_remove (fs self) filename
               else fs self in
    let fs_now := fs_write fs1 filename (pending_intf_ll2ra ys xs) in
    Ok (ReturnsHandler fs_now
          (m <- matrix_ra ;;
           Ok (fs_write fs_now filename
                 (mkDA "intf_ll2ra" ["y"; "x"]%string [length ys; length xs]
                       [("y"%string, ys); ("x"%string, xs)] [] []
                       (flatten (assemble m)))))).

End Inverse.

(** ** Looking a cell up

    The position of index [i] of an axis cut into chunks: the chunk and the
    offset inside it. *)
Fixpoint locate (sizes : list nat) (i : nat) : option (nat * nat) :=
  match sizes with
  | [] => None
  | n :: sizes' =>
      if i <? n then Some (0, i)
      else match locate sizes' (i - n) with
           | Some (b, o) => Some (S b, o)
           | None => None
           end
  end.

(** The cell [(row, col)] of a matrix kept as a grid of blocks. *)
Definition matrix_at {B} (grid_chunks : list nat * list nat)
           (m : list (list (array2 B))) (row col : nat) : option B :=
  match locate (fst grid_chunks) row, locate (snd grid_chunks) col with
  | Some (by_, i), Some (bx, j) =>
      match nth_error m by_ with
      | Some band =>
          match nth_error band bx with
          | Some b => match nth_error b i with
                      | Some r => nth_error r j
                      | None => None
                      end
          | None => None
          end
      | None => None
      end
  | _, _ => None
  end.

(** The cell with flat index [r] of a matrix [ncols] wide. *)
Definition matrix_at_flat {B} (grid_chunks : list nat * list nat) (ncols : nat)
           (m : list (list (array2 B))) (r : nat) : option B :=
  matrix_at grid_chunks m (r / ncols) (r mod ncols).


(** ** [intf_ll2ra]: the inverse resampler

    The class defines [intf_ll2ra] twice; the second definition (line 324)
    replaces the first, whose body is a docstring only. *)

(** Looking a name up among the variables in scope. *)
Definition resolve {B} (scope : list (string * B)) (n : string) : result B :=
  match assoc n scope with
  | Some v => Ok v
  | None => Raise NameError
  end.

(** [a and b]: [b] is evaluated only when [a] holds. *)
Definition py_and (a : bool) (b : result bool) : result bool :=
  if a then b else Ok false.

Section InverseResample.
Variable V : Type.

(** The inner [ll2ra(grid)]: [grid] is one block of the raster, flattened
    by [reshape(-1)]; the result has the cells of [matrix_ll2ra]. *)
Definition ll2ra (matrix_ll2ra : DataArray Z) (grid : list (float V))
  : result (list (float V)) :=
  gathered <- py_take grid (values matrix_ll2ra) ;;
  Ok (map (fun mg => if negb (fst mg =? uint32_sentinel)%Z then snd mg else None)
          (combine (values matrix_ll2ra) gathered)).

(** Line 332, [if not 'lat' in grids.dims and 'lon' in grid.dims:].  The
    only raster in scope is the parameter [grids]; the right operand names
    [grid]. *)
Definition helper_check_ll2ra (grids : DataArray (float V)) : result bool :=
  let scope := [("grids"%string, grids)] in
  py_and (negb (py_in "lat" (dims grids)))
         (grid <- resolve scope "grid" ;; Ok (py_in "lon" (dims grid))).

Definition note_ll2ra : string :=
  "NOTE: the grid is not in geograpphic coordinates, miss geocoding".

(** [grids.interp_like(trans_dat.ll, method='nearest')] and
    [self.get_intf_ll2ra()] are not of this file: they are parameters. *)
Variable interp_like_nearest : DataArray (float V) -> TransDat -> DataArray (float V).
Variable get_intf_ll2ra : SBAS -> result (DataArray Z).

(** The chunks of a raster's first dimension, as dask holds it
    ([.chunk({'lat': -1, 'lon': -1})] leaves them as they are): how many
    layers each block has.  The model of a raster does not carry them. *)
Variable first_dim_chunks : DataArray (float V) -> list nat.

(** Lines 336-363.  [xr.apply_ufunc] hands [ll2ra] the raster block by
    block and expects of every block as many layers as it has; [ll2ra]
    returns one layer whatever the block holds, so a block of several
    layers fails the computation with [ValueError].  The result keeps no
    attributes. *)
Definition ll2ra_layers (self : SBAS) (grids : DataArray (float V))
  : result (DataArray (float V)) :=
  let trans_dat := get_trans_dat self None in
  let grids := interp_like_nearest grids trans_dat in
  matrix_ll2ra <- get_intf_ll2ra self ;;
  let keep := filter (fun kc => negb (String.eqb (fst kc) "lat" || String.eqb (fst kc) "lon"))
                     (coords grids) in
  if Nat.eqb (length (dims grids)) 2 then
    out <- ll2ra matrix_ll2ra (values grids) ;;
    Ok (mkDA (name grids) ["y"; "x"]%string (shape matrix_ll2ra) keep (labels grids)
             [] out)
  else
    let n := hd 0 (shape grids) in
    let layer_size := fold_right Nat.mul 1 (tl (shape grids)) in
    let blocks := split_chunks (map (fun k => k * layer_size) (first_dim_chunks grids))
                               (values grids) in
    outs <- mapM (ll2ra matrix_ll2ra) blocks ;;
    if forallb (Nat.eqb 1) (first_dim_chunks grids) then
      Ok (mkDA (name grids) [hd EmptyString (dims grids); "y"; "x"]%string
               (n :: shape matrix_ll2ra) keep (labels grids) [] (concat outs))
    else Raise ValueError.

(** [intf_ll2ra(self, grids=None)]: what is printed and what is returned. *)
Definition intf_ll2ra (self : SBAS) (grids : option (DataArray (float V)))
  : list string * result (DataArray (float V)) :=
  match grids with
  | None => ([], Raise AttributeError)
  | Some grids =>
      match helper_check_ll2ra grids with
      | Raise e => ([], Raise e)
      | Ok true => ([note_ll2ra], Ok grids)
      | Ok false => ([], ll2ra_layers self grids)
      end
  end.

End InverseResample.

(** ** The object after a call *)

(** The object over the files a call has left on disk. *)
Definition with_fs (self : SBAS) (fs' : filesystem) : SBAS :=
  mkSBAS (basedir self) fs' (get_trans_dat self) (get_trans_dat_blocks_extents self)
         (get_filenames self).

(** ** [geocode_parallel] and [intf_ll2ra_matrix_parallel]

    The two drivers call the builders on the object and leave their effect
    on disk, so a run is kept as the object it leaves and how it ended. *)

(** How a call ends badly: an exception raised while it runs, or the
    [TypeError] of a call that cannot be bound to the callee's parameters
    (here: a keyword argument the callee does not have). *)
Inductive failure : Type :=
| Exception (e : exn)
| TypeError.

Inductive outcome (R : Type) : Type :=
| Returns (r : R)
| Fails (f : failure).

Arguments Returns {R} r.
Arguments Fails {R} f.

(** The parameters of the two builders, from their [def] lines. *)
Definition intf_ra2ll_matrix_params : list string :=
  ["self"; "subswath"; "intf_grids"; "debug"]%string.

Definition intf_ll2ra_matrix_params : list string :=
  ["self"; "subswath"; "intf_grid"; "n_jobs"; "interactive"]%string.

(** [f(..., kw=v)]: the keyword has to name a parameter of [f]. *)
Definition accepts_keyword (params : list string) (kw : string) : bool := py_in kw params.

(** [pairs[:1]]; the pairs may be the value given for [subswath], a text. *)
Definition slice1 (pairs : string + list string) : string + list string :=
  match pairs with
  | inl s => inl (substring 0 1 s)
  | inr p => inr (firstn 1 p)
  end.

Definition debug_note (subswath : string) : string :=
  String.append
    "DEBUG: build translation matrices for direct and inverse geocoding for subswath "
    subswath.

(** [da.min(d)] of a lazy array: the dimension [d] and its coordinate go,
    the other coordinates stay, attributes are not kept.  The reduced values
    are computed by nobody here; they are left as placeholders. *)
Definition min_lazy {A} (da : DataArray A) (d : string) : result (DataArray unit) :=
  match drop_dim d (dims da) (shape da) with
  | Some (ds, sh) =>
      Ok (mkDA (name da) ds sh
               (filter (fun kc => negb (String.eqb (fst kc) d)) (coords da))
               (filter (fun kl => negb (String.eqb (fst kl) d)) (labels da))
               [] (repeat tt (fold_right Nat.mul 1 sh)))
  | None => Raise ValueError
  end.

Section Drivers.
Context `{kd : cKDTree}.
Variable A : Type.

(** Methods of the object that other files define.  [topo_ra_parallel]
    may change the object; it is given by the object it leaves and the
    exception it raised, if any. *)
Variable get_subswath : option string -> result string.
Variable topo_ra_parallel : SBAS -> SBAS * option exn.
Variable open_grids : SBAS -> string + list string -> string -> result (DataArray A).

(** Lines 165-188.  [grid_chunks] are the chunks of the opened grids. *)
Definition geocode_parallel (self : SBAS) (subswath : option string)
           (pairs : option (list string)) (grid_chunks : list nat * list nat)
           (debug : bool) : list string * SBAS * outcome unit :=
  match (match pairs, subswath with
         | None, None => None
         | None, Some s => Some (inl s, None)
         | Some p, _ => Some (inr p, subswath)
         end) with
  | None => ([], self, Fails (Exception AssertionError))
  | Some (pairs, subswath) =>
      match get_subswath subswath with
      | Raise e => ([], self, Fails (Exception e))
      | Ok subswath =>
          let out := if debug then [debug_note subswath] else [] in
          let '(self, topo) := if 1 <? String.length subswath then topo_ra_parallel self
                               else (self, None) in
          match topo with
          | Some e => (out, self, Fails (Exception e))
          | None =>
              match open_grids self (slice1 pairs) "phasefilt" with
              | Raise e => (out, self, Fails (Exception e))
              | Ok grids =>
                  if negb (accepts_keyword intf_ra2ll_matrix_params "debug")
                  then (out, self, Fails TypeError)
                  else
                    match intf_ra2ll_matrix self subswath grids with
                    | Raise e => (out, self, Fails (Exception e))
                    | Ok fs' =>
                        let self := with_fs self fs' in
                        if negb (accepts_keyword intf_ll2ra_matrix_params "debug")
                        then (out, self, Fails TypeError)
                        else
                          match intf_ll2ra_matrix self (Some subswath) grids
                                                  grid_chunks false with
                          | Raise e => (out, self, Fails (Exception e))
                          | Ok (ReturnsArray _) => (out, self, Returns tt)
                          | Ok (ReturnsHandler fs_now _) =>
                              (out, with_fs self fs_now, Returns tt)
                          end
                    end
              end
          end
      end
  end.

(** [tqdm_dask(dask.persist(delayed), ...)]: the delayed value is computed.
    What a failed computation leaves of the pending file depends on the
    blocks the scheduler had stored; only a run that returns is kept with
    the object it leaves. *)
Definition persist (self : SBAS) (delayed : ll2ra_matrix_return) : outcome SBAS :=
  match delayed with
  | ReturnsArray (Ok _) => Returns self
  | ReturnsArray (Raise e) => Fails (Exception e)
  | ReturnsHandler _ (Ok fs') => Returns (with_fs self fs')
  | ReturnsHandler _ (Raise e) => Fails (Exception e)
  end.

(** Lines 303-315.  A run that returns gives the object it leaves and the
    result: [None] after the computation, or the lazy array when
    [interactive]. *)
Definition intf_ll2ra_matrix_parallel (self : SBAS) (pairs : list string)
           (grid_chunks : list nat * list nat) (interactive : bool)
  : outcome (SBAS * option ll2ra_matrix_return) :=
  match open_grids self (inr pairs) "phasefilt" with
  | Raise e => Fails (Exception e)
  | Ok intf_grids =>
      match min_lazy intf_grids "pair" with
      | Raise e => Fails (Exception e)
      | Ok intf_grid =>
          if negb (accepts_keyword intf_ll2ra_matrix_params "interactive")
          then Fails TypeError
          else
            match intf_ll2ra_matrix self None intf_grid grid_chunks interactive with
            | Raise e => Fails (Exception e)
            | Ok delayed =>
                let self := match delayed with
                            | ReturnsHandler fs_now _ => with_fs self fs_now
                            | ReturnsArray _ => self
                            end in
                if negb interactive then
                  match persist self delayed with
                  | Returns self => Returns (self, None)
                  | Fails f => Fails f
                  end
                else Returns (self, Some delayed)
            end
      end
  end.

End Drivers.

(** * Vocabulary of the statements, and small scenes *)

Unset Implicit Arguments.

(** The largest value of a non-empty integer array. *)
Definition is_max (mx : Z) (l : list Z) : Prop :=
  In mx l /\ Forall (fun v => (v <= mx)%Z) l.

(** What [intf2trans] holds for one translation-table point [x]. *)
Definition assigned `{cKDTree} (data : list point) (ub : option limit) (x : point) : Z :=
  let di := query data x ub in
  if negb (isinf (fst di)) then Z.of_nat (snd di) else (-1)%Z.

(** [(azimuth, range)] of a row, the point the forward builder queries. *)
Definition row_yx (r : trans_row) : point := (t_azi r, t_rng r).

(** A 2 x 2 radar grid with unit steps and a translation table of four
    points laid out on a 1 x 4 geographic grid, the last one far from every
    radar cell; the full-area matrix lists the four points and one cell
    outside the radar area. *)
Module Scene.

Definition intf_grids : DataArray (option Z) :=
  mkDA "phasefilt" ["pair"; "y"; "x"]%string [1; 2; 2]
       [("y"%string, [0; 1]%Q); ("x"%string, [0; 1]%Q)]
       [("pair"%string, ["2021-01-01 2021-01-13"%string])] []
       [Some 10; Some 20; Some 30; Some 40]%Z.

Definition table : list trans_row :=
  [ mkRow 0 0 0 10 50; mkRow 1 0 0 11 50; mkRow 0 1 0 12 50; mkRow 5 5 0 13 50 ]%Q.

Definition trans_dat : TransDat :=
  mkTransDat table
             [map t_azi table] [map t_rng table] [map t_lon table]
             ([1], [2; 2]).

Definition extents : list extent :=
  [ mkExtent 0 0 0 0 0 1; mkExtent 0 1 1 5 0 5 ]%Q.

Definition trans_ra2ll : DataArray Z :=
  mkDA "trans_ra2ll" ["lat"; "lon"]%string [1; 5]
       [("lat"%string, [50]%Q); ("lon"%string, [10; 11; 12; 13; 14]%Q)] [] []
       [0; 1; 2; 3; -1]%Z.

Definition self : SBAS :=
  mkSBAS "raw"
         (fun p => if String.eqb p "raw/F1_trans_ra2ll.grd" then Some trans_ra2ll else None)
         (fun _ => trans_dat)
         (fun _ => extents)
         (fun _ name => String.append "raw/F1_" (String.append name ".grd")).

Definition intf_ra2ll : DataArray Z :=
  mkDA "intf_ra2ll" ["lat"; "lon"]%string [1; 5]
       [("lat"%string, [50]%Q); ("lon"%string, [10; 11; 12; 13; 14]%Q)] [] []
       [0; 1; 2; -1; -1]%Z.

Definition intf_ll2ra : DataArray Z :=
  mkDA "intf_ll2ra" ["y"; "x"]%string [2; 2]
       [("y"%string, [0; 1]%Q); ("x"%string, [0; 1]%Q)] [] []
       [0; 1; 2; 1]%Z.

(** The object once both matrices are stored. *)
Definition geocoded : SBAS :=
  mkSBAS "raw"
         (fun p => if String.eqb p "raw/F1_trans_ra2ll.grd" then Some trans_ra2ll
                   else if String.eqb p "raw/F1_intf_ra2ll.grd" then Some intf_ra2ll
                   else if String.eqb p "raw/F1_intf_ll2ra.grd" then Some intf_ll2ra
                   else None)
         (fun _ => trans_dat)
         (fun _ => extents)
         (fun _ name => String.append "raw/F1_" (String.append name ".grd")).

Definition get_subswath {B} (_ : option B) : result string := Ok "1"%string.

(** A raster in radar coordinates and one in geographic coordinates. *)
Definition radar_layer : DataArray (float Z) :=
  mkDA "phasefilt" ["y"; "x"]%string [2; 2]
       [("y"%string, [0; 1]%Q); ("x"%string, [0; 1]%Q)] [] []
       [Some 10; Some 20; Some 30; Some 40]%Z.

Definition geo_layer : DataArray (float Z) :=
  mkDA "landmask" ["lat"; "lon"]%string [1; 5]
       [("lat"%string, [50]%Q); ("lon"%string, [10; 11; 12; 13; 14]%Q)] [] []
       [Some 1; Some 0; Some 1; Some 0; Some 1]%Z.

End Scene.

(** The cell centres of the scenario: integer (y, x) in [0,3] x [0,3]. *)
Definition axis4 : list Q := [0; 1; 2; 3]%Q.
Definition centres16 : list point := broadcast_yx axis4 axis4.

(** Two of the sixteen centres at distance zero are the same cell. *)
Definition centres16_apart : bool :=
  forallb (fun i =>
    forallb (fun j =>
      implb (Qle_bool (sqdist (nth j centres16 (0, 0)%Q) (nth i centres16 (0, 0)%Q)) 0)
            (Nat.eqb j i))
      (seq 0 16))
    (seq 0 16).

(** The scenario with the table listing the centres backwards. *)
Module Grid4.

Definition intf_grids : DataArray (option Z) :=
  mkDA "phasefilt" ["pair"; "y"; "x"]%string [1; 4; 4]
       [("y"%string, axis4); ("x"%string, axis4)]
       [("pair"%string, ["2021-01-01 2021-01-13"%string])] []
       (repeat None 16).

Definition table : list trans_row :=
  map (fun p => mkRow (snd p) (fst p) 0 (snd p) (fst p)) (rev centres16).

Definition trans_ra2ll : DataArray Z :=
  mkDA "trans_ra2ll" ["lat"; "lon"]%string [4; 4]
       [("lat"%string, axis4); ("lon"%string, axis4)] [] []
       (map Z.of_nat (seq 0 16)).

Definition self : SBAS :=
  mkSBAS "raw"
         (fun p => if String.eqb p "raw/F1_trans_ra2ll.grd" then Some trans_ra2ll else None)
         (fun _ => mkTransDat table [] [] [] ([], []))
         (fun _ => [])
         (fun _ name => String.append "raw/F1_" (String.append name ".grd")).

End Grid4.

(** The forward matrix of a larger grid against the 2 x 2 layer: the second
    entry, 5, is beyond the layer's four cells. *)
Definition oversized_ra2ll : DataArray Z :=
  mkDA "intf_ra2ll" ["lat"; "lon"]%string [1; 3]
       [("lat"%string, [50]%Q); ("lon"%string, [10; 11; 12]%Q)] [] []
       [0; 5; -1]%Z.

(** All cells of a matrix kept as a grid of blocks. *)
Definition cells {B} (m : list (list (array2 B))) : list B :=
  concat (map (fun band => concat (map (@flatten B) band)) m).

(** The variables of the dataset share one shape. *)
Definition wf_TransDat (td : TransDat) : Prop :=
  same_shape (azi td) (rng td) = true /\ same_shape (azi td) (ll td) = true.



(** The points and the labels gathered from the blocks read. *)
Definition gathered_azis (parts : list (list Q * list Q * list Z)) : list Q :=
  concat (map (fun p => fst (fst p)) parts).
Definition gathered_rngs (parts : list (list Q * list Q * list Z)) : list Q :=
  concat (map (fun p => snd (fst p)) parts).
Definition gathered_idxs (parts : list (list Q * list Q * list Z)) : list Z :=
  concat (map (fun p => snd p) parts).



(** Two lists of one length. *)
Definition same_length {B C} (l : list B) (l' : list C) : Prop :=
  Forall2 (fun _ _ => True) l l'.


(** A geographic grid finer than the radar grid: two neighbouring
    geographic cells, one unit apart, whose translation-table points fall in
    the same radar cell. *)
Module Fine.

Definition table : list trans_row :=
  [ mkRow 0 0 0 10 50; mkRow (1 # 4) 0 0 11 50 ]%Q.

Definition trans_dat : TransDat :=
  mkTransDat table [map t_azi table] [map t_rng table] [map t_lon table] ([1], [2]).

Definition trans_ra2ll : DataArray Z :=
  mkDA "trans_ra2ll" ["lat"; "lon"]%string [1; 2]
       [("lat"%string, [50]%Q); ("lon"%string, [10; 11]%Q)] [] []
       [0; 1]%Z.

Definition self : SBAS :=
  mkSBAS "raw"
         (fun p => if String.eqb p "raw/F1_trans_ra2ll.grd" then Some trans_ra2ll else None)
         (fun _ => trans_dat)
         (fun _ => [mkExtent 0 0 0 0 0 (1 # 4)]%Q)
         (fun _ name => String.append "raw/F1_" (String.append name ".grd")).



End Fine.

(** A translation table of one row of [S p] cells in one block: the last
    cell lies at (azimuth, range) = (0, 0), every other cell at (5, 0).
    The radar grid is the single cell at (0, 0). *)
Module Wide.

Definition trans_dat (p : nat) : TransDat :=
  mkTransDat [] [repeat 5%Q p ++ [0%Q]] [repeat 0%Q p ++ [0%Q]] [repeat 0%Q p ++ [0%Q]]
             ([1], [S p]).

Definition self (p : nat) : SBAS :=
  mkSBAS "raw" (fun _ => None) (fun _ => trans_dat p)
         (fun _ => [mkExtent 0 0 0 5 0 0]%Q)
         (fun _ name => String.append "raw/F1_" (String.append name ".grd")).

Definition intf_grid : DataArray (float Z) :=
  mkDA "phasefilt" ["y"; "x"]%string [1; 1]
       [("y"%string, [0]%Q); ("x"%string, [0]%Q)] [] [] [Some 10%Z].

(** The inverse matrix of that grid over a table of 2^32 cells. *)
Definition intf_ll2ra : DataArray Z :=
  mkDA "intf_ll2ra" ["y"; "x"]%string [1; 1]
       [("y"%string, [0]%Q); ("x"%string, [0]%Q)] [] [] [uint32_sentinel].

End Wide.

(** Two arrays of one shape, cell by cell. *)
Definition zip2 {B C} (a : array2 B) (b : array2 C) : array2 (B * C) :=
  map (fun rr => combine (fst rr) (snd rr)) (combine a b).

(** A grid of blocks cut by chunks [(cy, cx)]: the blocks of band [b] have
    [cy[b]] rows, the blocks of column [c] rows of [cx[c]] cells. *)
Definition blocks_shaped {B} (cy cx : list nat) (m : list (list (array2 B))) : Prop :=
  Forall2 (fun band h =>
             Forall2 (fun b w => length b = h /\ Forall (fun row => length row = w) b)
                     band cx) m cy.


(** Variants of the small scene at the edges of the builders. *)
Module Edge.

(** The object with an empty translation table. *)
Definition empty_table : SBAS :=
  mkSBAS "raw" (fs Scene.self)
         (fun _ => mkTransDat [] [] [] [] ([], []))
         (fun _ => [])
         (get_filenames Scene.self).

(** A stack over a radar grid of a single row. *)
Definition single_row : DataArray (option Z) :=
  mkDA "phasefilt" ["pair"; "y"; "x"]%string [1; 1; 2]
       [("y"%string, [0]%Q); ("x"%string, [0; 1]%Q)]
       [("pair"%string, ["2021-01-01 2021-01-13"%string])] []
       [Some 10; Some 20]%Z.

(** The object with a full-area matrix that names a seventh table point. *)
Definition beyond_table : SBAS :=
  mkSBAS "raw"
         (fun p => if String.eqb p "raw/F1_trans_ra2ll.grd"
                   then Some (with_values Scene.trans_ra2ll [0; 7; 2; 3; -1]%Z)
                   else None)
         (get_trans_dat Scene.self)
         (get_trans_dat_blocks_extents Scene.self)
         (get_filenames Scene.self).

(** A geographic raster of no row. *)
Definition no_row : DataArray (float Z) :=
  mkDA "landmask" ["lat"; "lon"]%string [0; 5]
       [("lat"%string, []); ("lon"%string, [10; 11; 12; 13; 14]%Q)] [] [] [].

(** An extents table whose only block lies far from the radar grid. *)
Definition far_extents : list extent := [ mkExtent 0 0 10 11 10 11 ]%Q.

(** [open_grids] of an object that holds the one stack of the scene. *)
Definition open_grids (_ : SBAS) (_ : string + list string) (_ : string)
  : result (DataArray (option Z)) := Ok Scene.intf_grids.

End Edge.

(** * Properties *)

(** ** Rationals *)

Lemma Qlt_bool_iff (a b : Q) : Qlt_bool a b = true <-> (a < b)%Q.
Proof.
  unfold Qlt_bool. rewrite negb_true_iff.
  destruct (Qle_bool b a) eqn:E.
  - apply Qle_bool_iff in E. split; [discriminate | intro H; exfalso; lra].
  - split; [intros _ | reflexivity].
    destruct (Qlt_le_dec a b) as [H | H]; [exact H | ].
    apply Qle_bool_iff in H. congruence.
Qed.

Lemma Qlt_bool_false_iff (a b : Q) : Qlt_bool a b = false <-> (b <= a)%Q.
Proof.
  unfold Qlt_bool. rewrite negb_false_iff. apply Qle_bool_iff.
Qed.

Lemma lt_limit_iff (sq : Q) (l : limit) :
  lt_limit sq l = true <->
  ((sq - radicand l - slack l ^ 2 < 0)%Q \/
   ((sq - radicand l - slack l ^ 2) ^ 2 < 4 * slack l ^ 2 * radicand l)%Q).
Proof.
  unfold lt_limit. rewrite orb_true_iff, !Qlt_bool_iff. reflexivity.
Qed.

(** A nearer point is inside the bound whenever a farther one is. *)
Lemma lt_limit_mono (sq sq' : Q) (l : limit) :
  (sq <= sq')%Q -> lt_limit sq' l = true -> lt_limit sq l = true.
Proof.
  rewrite !lt_limit_iff. intros Hle H.
  set (r := (sq - radicand l - slack l ^ 2)%Q).
  set (r' := (sq' - radicand l - slack l ^ 2)%Q) in *.
  assert (Hr : (r <= r')%Q) by (unfold r, r'; lra).
  destruct (Qlt_le_dec r 0) as [Hneg | Hpos]; [left; exact Hneg | right].
  destruct H as [H | H]; [exfalso; lra | ].
  clearbody r r'.
  assert (0 <= (r' - r) * (r' + r))%Q by (apply Qmult_le_0_compat; lra).
  lra.
Qed.

Lemma within_mono (sq sq' : Q) (ub : option limit) :
  (sq <= sq')%Q -> within sq' ub = true -> within sq ub = true.
Proof.
  destruct ub as [l | ]; simpl; [apply lt_limit_mono | reflexivity].
Qed.

Lemma within_proper (sq sq' : Q) (ub : option limit) :
  (sq == sq')%Q -> within sq ub = within sq' ub.
Proof.
  intro E.
  destruct (within sq ub) eqn:H1, (within sq' ub) eqn:H2; try reflexivity.
  - rewrite (within_mono sq' sq) in H2; [discriminate | lra | exact H1].
  - rewrite (within_mono sq sq') in H1; [discriminate | lra | exact H2].
Qed.


Lemma Qsquare_nonneg (a : Q) : (0 <= a ^ 2)%Q.
Proof.
  destruct (Qlt_le_dec a 0) as [H | H].
  - assert (0 <= (- a) * (- a))%Q by (apply Qmult_le_0_compat; lra). lra.
  - assert (0 <= a * a)%Q by (apply Qmult_le_0_compat; lra). lra.
Qed.

Lemma sqdist_nonneg (p q : point) : (0 <= sqdist p q)%Q.
Proof.
  unfold sqdist.
  pose proof (Qsquare_nonneg (fst p - fst q)). pose proof (Qsquare_nonneg (snd p - snd q)).
  lra.
Qed.

Lemma sqdist_refl (p : point) : (sqdist p p == 0)%Q.
Proof. unfold sqdist. ring. Qed.

(** ** The linear scan is a nearest-neighbour index *)

Lemma nearest_spec (x : point) (data : list point) :
  forall k best r,
    nearest x data k best = Some r ->
    (forall q, In q data -> (fst r <= sqdist q x)%Q) /\
    (forall b j, best = Some (b, j) -> (fst r <= b)%Q) /\
    (best = Some r \/
     exists p, nth_error data (snd r - k) = Some p /\ fst r = sqdist p x /\
               k <= snd r < k + length data).
Proof.
  induction data as [ | p data IH]; intros k best r H; simpl in H.
  - subst best. split; [intros q [] | ]. split.
    + intros b j E. inversion E. simpl. lra.
    + left. reflexivity.
  - apply IH in H. destruct H as (Hall & Hbest & Hwhere).
    destruct best as [[b j] | ].
    + destruct (Qlt_bool (sqdist p x) b) eqn:E.
      * apply Qlt_bool_iff in E.
        pose proof (Hbest _ _ eq_refl) as Hp.
        split; [ | split].
        -- intros q [<- | Hq]; [exact Hp | auto].
        -- intros b' j' E'. inversion E'; subst. lra.
        -- right. destruct Hwhere as [E' | (p' & Hn & Hd & Hk)].
           ++ injection E' as <-.
              exists p. simpl. rewrite Nat.sub_diag. simpl. repeat split; lia.
           ++ exists p'. replace (snd r - k) with (S (snd r - S k)) by lia.
              simpl. repeat split; try assumption; lia.
      * apply Qlt_bool_false_iff in E.
        pose proof (Hbest _ _ eq_refl) as Hp.
        split; [ | split].
        -- intros q [<- | Hq]; [lra | auto].
        -- intros b' j' E'. inversion E'; subst. exact Hp.
        -- destruct Hwhere as [-> | (p' & Hn & Hd & Hk)]; [left; reflexivity | right].
           exists p'. replace (snd r - k) with (S (snd r - S k)) by lia.
           simpl. repeat split; try assumption; lia.
    + pose proof (Hbest _ _ eq_refl) as Hp.
      split; [ | split].
      * intros q [<- | Hq]; [exact Hp | auto].
      * intros b' j' E'. discriminate.
      * right. destruct Hwhere as [E' | (p' & Hn & Hd & Hk)].
        -- injection E' as <-.
           exists p. simpl. rewrite Nat.sub_diag. simpl. repeat split; lia.
        -- exists p'. replace (snd r - k) with (S (snd r - S k)) by lia.
           simpl. repeat split; try assumption; lia.
Qed.

Lemma nearest_none (x : point) (data : list point) :
  forall k best, nearest x data k best = None -> data = [] /\ best = None.
Proof.
  induction data as [ | p data IH]; intros k best H; simpl in H.
  - split; [reflexivity | exact H].
  - apply IH in H. destruct H as [_ H].
    destruct best as [[b j] | ]; [destruct (Qlt_bool (sqdist p x) b) | ]; discriminate.
Qed.

Lemma scan_query_finite data x ub sq i :
  scan_query data x ub = (Finite sq, i) ->
  exists p, nth_error data i = Some p /\ (sq == sqdist p x)%Q /\
            within sq ub = true /\
            forall q, In q data -> (sq <= sqdist q x)%Q.
Proof.
  unfold scan_query. destruct (nearest x data 0 None) as [[s j] | ] eqn:E; [ | discriminate].
  destruct (within s ub) eqn:W; [ | discriminate].
  intro H. inversion H; subst s j.
  apply nearest_spec in E. simpl in E. destruct E as (Hall & _ & Hwhere).
  destruct Hwhere as [Habs | (p & Hn & Hd & _)]; [discriminate | ].
  rewrite Nat.sub_0_r in Hn. exists p. repeat split; try assumption.
  rewrite Hd. reflexivity.
Qed.

Lemma scan_query_inf data x ub d i :
  scan_query data x ub = (d, i) -> isinf d = true ->
  i = length data /\ forall q, In q data -> within (sqdist q x) ub = false.
Proof.
  unfold scan_query. destruct (nearest x data 0 None) as [[s j] | ] eqn:E.
  - destruct (within s ub) eqn:W; intros H Hd; inversion H; subst; [discriminate | ].
    split; [reflexivity | ]. intros q Hq.
    apply nearest_spec in E. destruct E as (Hall & _).
    destruct (within (sqdist q x) ub) eqn:Wq; [ | reflexivity].
    pose proof (within_mono _ _ ub (Hall q Hq) Wq) as W'. simpl in W'. congruence.
  - intros H _. inversion H. apply nearest_none in E. destruct E as [-> _].
    split; [reflexivity | intros q []].
Qed.

#[export] Instance scan_tree : cKDTree :=
  {| query := scan_query;
     query_finite := scan_query_finite;
     query_inf := scan_query_inf |}.

(** ** The error monad and Python indexing *)

Lemma bind_ok {A B} (m : result A) (k : A -> result B) (b : B) :
  bind m k = Ok b -> exists a, m = Ok a /\ k a = Ok b.
Proof. destruct m as [a | e]; simpl; [eauto | discriminate]. Qed.

Ltac bind_inv H :=
  let a := fresh "a" in
  let E := fresh "E" in
  apply bind_ok in H; destruct H as (a & E & H).

Lemma mapM_ok {A B} (f : A -> result B) (l : list A) (r : list B) :
  mapM f l = Ok r -> Forall2 (fun a b => f a = Ok b) l r.
Proof.
  revert r. induction l as [ | a l IH]; intros r H; simpl in H.
  - inversion H. constructor.
  - bind_inv H. bind_inv H. inversion H; subst. constructor; auto.
Qed.

Lemma Forall2_mapM {A B} (f : A -> result B) (l : list A) (r : list B) :
  Forall2 (fun a b => f a = Ok b) l r -> mapM f l = Ok r.
Proof.
  induction 1 as [ | a b l r Hab _ IH]; simpl; [reflexivity | ].
  rewrite Hab. simpl. rewrite IH. reflexivity.
Qed.

Lemma py_index_ok (n : nat) (i : Z) (k : nat) :
  py_index n i = Ok k ->
  k < n /\ ((0 <= i)%Z /\ k = Z.to_nat i \/ (i < 0)%Z /\ k = Z.to_nat (Z.of_nat n + i)).
Proof.
  unfold py_index.
  destruct ((0 <=? i)%Z && (i <? Z.of_nat n)%Z) eqn:E1.
  - apply andb_true_iff in E1. destruct E1 as [H1 H2].
    apply Z.leb_le in H1. apply Z.ltb_lt in H2. intro H. inversion H. lia.
  - destruct ((- Z.of_nat n <=? i)%Z && (i <? 0)%Z) eqn:E2; [ | discriminate].
    apply andb_true_iff in E2. destruct E2 as [H1 H2].
    apply Z.leb_le in H1. apply Z.ltb_lt in H2. intro H. inversion H. lia.
Qed.

Lemma py_index_nat (n k : nat) : k < n -> py_index n (Z.of_nat k) = Ok k.
Proof.
  intro H. unfold py_index.
  replace ((0 <=? Z.of_nat k)%Z) with true by (symmetry; apply Z.leb_le; lia).
  replace ((Z.of_nat k <? Z.of_nat n)%Z) with true by (symmetry; apply Z.ltb_lt; lia).
  simpl. rewrite Nat2Z.id. reflexivity.
Qed.

Lemma py_getitem_ok {A} (a : list A) (i : Z) (v : A) :
  py_getitem a i = Ok v ->
  exists k, py_index (length a) i = Ok k /\ nth_error a k = Some v.
Proof.
  unfold py_getitem. intro H. bind_inv H. exists a0. split; [exact E | ].
  destruct (nth_error a a0); inversion H; reflexivity.
Qed.

Lemma py_getitem_In {A} (a : list A) (i : Z) (v : A) :
  py_getitem a i = Ok v -> In v a.
Proof.
  intro H. apply py_getitem_ok in H. destruct H as (k & _ & H).
  eapply nth_error_In; eauto.
Qed.

Lemma py_getitem_nat {A} (a : list A) (k : nat) (v : A) :
  nth_error a k = Some v -> py_getitem a (Z.of_nat k) = Ok v.
Proof.
  intro H. unfold py_getitem.
  rewrite py_index_nat by (apply nth_error_Some; congruence).
  simpl. rewrite H. reflexivity.
Qed.

Lemma py_take_ok {A} (a : list A) (idx : list Z) (g : list A) :
  py_take a idx = Ok g -> Forall2 (fun i v => py_getitem a i = Ok v) idx g.
Proof. apply mapM_ok. Qed.

Lemma py_take_In {A} (a : list A) (idx : list Z) (g : list A) :
  py_take a idx = Ok g -> forall v, In v g -> In v a.
Proof.
  intros H. apply py_take_ok in H.
  induction H as [ | i v idx g Hi _ IH]; intros w; simpl; [tauto | ].
  intros [<- | Hw]; [eapply py_getitem_In; eauto | auto].
Qed.

Lemma fold_max_spec (l : list Z) :
  forall v, let m := fold_left Z.max l v in
            (m = v \/ In m l) /\ (v <= m)%Z /\ Forall (fun w => (w <= m)%Z) l.
Proof.
  induction l as [ | a l IH]; intros v; simpl.
  - split; [left; reflexivity | split; [lia | constructor]].
  - destruct (IH (Z.max v a)) as (H1 & H2 & H3). split; [ | split].
    + destruct H1 as [H1 | H1]; [ | right; right; exact H1].
      rewrite H1. destruct (Z.max_spec v a) as [[_ ->] | [_ ->]]; auto.
    + lia.
    + constructor; [lia | exact H3].
Qed.

Lemma py_max_is_max (l : list Z) (mx : Z) : py_max l = Ok mx <-> is_max mx l.
Proof.
  destruct l as [ | v l]; simpl.
  - split; [discriminate | intros [[] _]].
  - pose proof (fold_max_spec l v) as (H1 & H2 & H3). split.
    + intro H. inversion H; subst mx. split.
      * destruct H1 as [-> | H1]; [left; reflexivity | right; exact H1].
      * constructor; assumption.
    + intros [Hin Hall]. f_equal.
      set (m := fold_left Z.max l v) in *.
      assert (Hm : In m (v :: l)) by (destruct H1 as [-> | H1]; [left | right]; auto).
      assert (m <= mx)%Z by (rewrite Forall_forall in Hall; auto).
      assert (mx <= m)%Z.
      { destruct Hin as [<- | Hin]; [exact H2 | ].
        rewrite Forall_forall in H3; auto. }
      lia.
Qed.

Lemma split_map_fst_snd {A B C} (f : A -> B * C) (l : list A) :
  List.split (map f l) = (map (fun a => fst (f a)) l, map (fun a => snd (f a)) l).
Proof.
  induction l as [ | a l IH]; simpl; [reflexivity | ].
  rewrite IH. destruct (f a). reflexivity.
Qed.

Lemma combine_map_same {A B C} (f : A -> B) (g : A -> C) (l : list A) :
  combine (map f l) (map g l) = map (fun a => (f a, g a)) l.
Proof. induction l as [ | a l IH]; simpl; [ | rewrite IH]; reflexivity. Qed.

(** ** The forward matrix *)

Section ForwardFacts.
Context `{kd : cKDTree}.

Lemma intf2trans_assigned (data targets : list point) (l : limit) :
  intf2trans data targets l = map (assigned data (Some l)) targets.
Proof.
  unfold intf2trans, tree_query, intf2trans_of. rewrite split_map_fst_snd.
  rewrite combine_map_same, map_map. reflexivity.
Qed.

Lemma assigned_range (data : list point) (ub : option limit) (x : point) :
  assigned data ub x = (-1)%Z \/
  (0 <= assigned data ub x < Z.of_nat (length data))%Z.
Proof.
  unfold assigned. destruct (query data x ub) as [d i] eqn:E. simpl.
  destruct d as [sq | ]; simpl; [right | left; reflexivity].
  apply query_finite in E. destruct E as (p & Hn & _).
  assert (i < length data) by (apply nth_error_Some; congruence). lia.
Qed.


(** A matched point is assigned a nearest centre, inside the bound. *)
Lemma assigned_near (data : list point) (ub : option limit) (x : point) (v : Z) :
  assigned data ub x = v -> (0 <= v)%Z ->
  exists p, nth_error data (Z.to_nat v) = Some p /\
            within (sqdist p x) ub = true /\
            forall q, In q data -> (sqdist p x <= sqdist q x)%Q.
Proof.
  unfold assigned. destruct (query data x ub) as [d i] eqn:E. simpl.
  destruct d as [sq | ]; simpl; intros <- Hv; [ | lia].
  apply query_finite in E. destruct E as (p & Hn & Hsq & Hw & Hall).
  exists p. rewrite Nat2Z.id. split; [exact Hn | split].
  - rewrite <- (within_proper _ _ ub Hsq). exact Hw.
  - intros q Hq. rewrite <- Hsq. auto.
Qed.

Lemma where_nonneg_spec (mask gathered : list Z) :
  length mask = length gathered ->
  forall c v, nth_error (where_nonneg mask gathered) c = Some v <->
    exists t g, nth_error mask c = Some t /\ nth_error gathered c = Some g /\
                v = if (0 <=? t)%Z then g else (-1)%Z.
Proof.
  unfold where_nonneg. revert gathered.
  induction mask as [ | t mask IH]; intros [ | g gathered] Hlen c v; simpl in Hlen;
    try discriminate.
  - destruct c; simpl; split; [discriminate | intros (? & ? & ? & _); discriminate
                               | discriminate | intros (? & ? & ? & _); discriminate].
  - destruct c as [ | c]; simpl.
    + split.
      * intro H. inversion H. eauto.
      * intros (t' & g' & Ht & Hg & ->). inversion Ht; inversion Hg. reflexivity.
    + apply IH. lia.
Qed.

Variable A : Type.

(** What a successful run of lines 81-112 went through. *)
Lemma build_intf_ra2ll_ok (self : SBAS) (subswath : string)
      (intf_grids : DataArray A) (n : nat) (m : DataArray Z) :
  build_intf_ra2ll self subswath intf_grids = Ok (n, m) ->
  exists trans_ra2ll ys xs dy dx gathered,
    min_size intf_grids "pair" = Ok n /\
    open_dataarray (fs self) (trans_ra2ll_file self subswath) = Ok trans_ra2ll /\
    coord intf_grids "y" = Ok ys /\ coord intf_grids "x" = Ok xs /\
    first_diff ys = Ok dy /\ first_diff xs = Ok dx /\
    py_take (intf2trans (broadcast_yx ys xs)
                        (map row_yx (rows (get_trans_dat self (Some subswath))))
                        (distance_limit dx dy))
            (values trans_ra2ll) = Ok gathered /\
    m = mkDA "intf_ra2ll" (dims trans_ra2ll) (shape trans_ra2ll) (coords trans_ra2ll)
             (labels trans_ra2ll) (attrs trans_ra2ll)
             (where_nonneg (values trans_ra2ll) gathered).
Proof.
  unfold build_intf_ra2ll. intro H.
  apply bind_ok in H; destruct H as (n' & En & H).
  do 4 (let a := fresh "q" in let E := fresh "Eq" in
        apply bind_ok in H; destruct H as (a & E & H)).
  apply bind_ok in H; destruct H as (tr & Etr & H).
  apply bind_ok in H; destruct H as (ys & Eys & H).
  apply bind_ok in H; destruct H as (xs & Exs & H).
  apply bind_ok in H; destruct H as (dy & Edy & H).
  apply bind_ok in H; destruct H as (dx & Edx & H).
  apply bind_ok in H; destruct H as (gathered & Eg & H).
  inversion H; subst n' m.
  exists tr, ys, xs, dy, dx, gathered.
  repeat split; assumption.
Qed.

End ForwardFacts.

(** The forward build on the small scene. *)
Example scene_build :
  build_intf_ra2ll Scene.self "1" Scene.intf_grids = Ok (4, Scene.intf_ra2ll).
Proof. vm_compute. reflexivity. Qed.

(** ** C7: the post-check of the forward build *)

Section PostCheck.
Context `{kd : cKDTree}.
Variable A : Type.

Lemma save_intf_ra2ll_spec (self : SBAS) (subswath : string) (n : nat)
      (m : DataArray Z) (mx : Z) :
  is_max mx (values m) ->
  save_intf_ra2ll self subswath n m =
  if (Z.of_nat n >? mx)%Z
  then Ok (fs_write (if fs_exists (fs self) (intf_ra2ll_file self subswath)
                     then fs_remove (fs self) (intf_ra2ll_file self subswath)
                     else fs self)
                    (intf_ra2ll_file self subswath) (set_attr m "node_offset" 1%Z))
  else Raise AssertionError.
Proof.
  intro Hmax. apply py_max_is_max in Hmax. unfold save_intf_ra2ll.
  rewrite Hmax. simpl. destruct (Z.of_nat n >? mx)%Z; reflexivity.
Qed.

(** C7.  Once lines 81-112 have built the matrix [m] against the reference
    grid of [n] cells, [intf_ra2ll_matrix] raises the assertion's error
    exactly when the largest value of [m] is not strictly less than [n];
    when it is, the call returns, and the file of the subswath then holds
    [m] with [node_offset = 1], every other file being as before. *)
Theorem forward_post_check (self : SBAS) (subswath : string)
        (intf_grids : DataArray A) (n : nat) (m : DataArray Z) (mx : Z) :
  build_intf_ra2ll self subswath intf_grids = Ok (n, m) ->
  is_max mx (values m) ->
  min_size intf_grids "pair" = Ok n /\
  (intf_ra2ll_matrix self subswath intf_grids = Raise AssertionError
   <-> ~ (mx < Z.of_nat n)%Z) /\
  ((mx < Z.of_nat n)%Z ->
   exists fs', intf_ra2ll_matrix self subswath intf_grids = Ok fs' /\
               fs' (intf_ra2ll_file self subswath)
               = Some (set_attr m "node_offset" 1%Z) /\
               forall p, p <> intf_ra2ll_file self subswath -> fs' p = fs self p).
Proof.
  intros Hb Hmax. split.
  { apply build_intf_ra2ll_ok in Hb. destruct Hb as (? & ? & ? & ? & ? & ? & Hn & _).
    exact Hn. }
  unfold intf_ra2ll_matrix. rewrite Hb. simpl.
  rewrite (save_intf_ra2ll_spec self subswath n m mx Hmax).
  destruct (Z.of_nat n >? mx)%Z eqn:E.
  - assert (mx < Z.of_nat n)%Z by (apply Z.gtb_lt; exact E). split.
    + split; [discriminate | intro Hn; contradiction].
    + intros _. eexists. split; [reflexivity | split].
      * unfold fs_write. rewrite String.eqb_refl. reflexivity.
      * intros p Hp. unfold fs_write.
        destruct (String.eqb p (intf_ra2ll_file self subswath)) eqn:Ep.
        -- apply String.eqb_eq in Ep. contradiction.
        -- destruct (fs_exists (fs self) (intf_ra2ll_file self subswath));
             [unfold fs_remove; rewrite Ep | ]; reflexivity.
  - assert (~ (mx < Z.of_nat n)%Z).
    { intro Hlt. apply Z.gtb_lt in Hlt. congruence. }
    split; [split; [intros _; assumption | reflexivity] | intro; contradiction].
Qed.

End PostCheck.

Lemma forward_post_check_witness :
  build_intf_ra2ll Scene.self "1" Scene.intf_grids = Ok (4, Scene.intf_ra2ll) /\
  is_max 2 (values Scene.intf_ra2ll) /\
  exists fs', intf_ra2ll_matrix Scene.self "1" Scene.intf_grids = Ok fs' /\
              fs' "raw/F1_intf_ra2ll.grd"%string
              = Some (set_attr Scene.intf_ra2ll "node_offset" 1%Z).
Proof.
  assert (Hb : build_intf_ra2ll Scene.self "1" Scene.intf_grids
               = Ok (4, Scene.intf_ra2ll)) by (vm_compute; reflexivity).
  assert (Hm : is_max 2 (values Scene.intf_ra2ll)).
  { apply py_max_is_max. reflexivity. }
  split; [exact Hb | split; [exact Hm | ]].
  destruct (forward_post_check _ Scene.self "1" Scene.intf_grids _ _ _ Hb Hm) as (_ & _ & H).
  destruct (H ltac:(simpl; lia)) as (fs' & H1 & H2 & _).
  exists fs'. split; [exact H1 | exact H2].
Defined.

(** ** C5: a point out of tolerance is unmatched *)

Section OutOfTolerance.
Context `{kd : cKDTree}.
Variable A : Type.

Lemma py_take_nth {B} (a : list B) (idx : list Z) (g : list B) :
  py_take a idx = Ok g ->
  length g = length idx /\
  forall c i, nth_error idx c = Some i ->
              exists v, nth_error g c = Some v /\ py_getitem a i = Ok v.
Proof.
  intro H. apply py_take_ok in H.
  induction H as [ | i v idx g Hi _ [IHl IH]]; simpl.
  - split; [reflexivity | intros [ | c] i; discriminate].
  - split; [lia | ]. intros [ | c] j; simpl.
    + intro E. inversion E; subst. eauto.
    + apply IH.
Qed.


End OutOfTolerance.


(** ** C6: the coincident 4 x 4 grid *)

Lemma mapM_Permutation {A B} (f : A -> result B) (l l' : list A) :
  Permutation l l' ->
  forall r, mapM f l = Ok r -> exists r', mapM f l' = Ok r' /\ Permutation r r'.
Proof.
  induction 1 as [ | a l l' _ IH | a b l | l l' l'' _ IH1 _ IH2]; intros r H.
  - exists r. split; [exact H | apply Permutation_refl].
  - simpl in H. bind_inv H. bind_inv H. inversion H; subst r.
    destruct (IH _ E0) as (r' & Hr' & Hp).
    exists (a0 :: r'). simpl. rewrite E. simpl. rewrite Hr'. simpl.
    split; [reflexivity | constructor; exact Hp].
  - simpl in H.
    apply bind_ok in H. destruct H as (vb & Eb & H).
    apply bind_ok in H. destruct H as (rest & Erest & H).
    apply bind_ok in Erest. destruct Erest as (va & Ea & Erest).
    apply bind_ok in Erest. destruct Erest as (vl & El & Erest).
    inversion H; subst r. inversion Erest; subst rest.
    exists (va :: vb :: vl). simpl. rewrite Ea. simpl. rewrite Eb. simpl.
    rewrite El. simpl. split; [reflexivity | apply perm_swap].
  - destruct (IH1 _ H) as (r' & Hr' & Hp).
    destruct (IH2 _ Hr') as (r'' & Hr'' & Hp').
    exists r''. split; [exact Hr'' | eapply Permutation_trans; eauto].
Qed.

Lemma py_take_seq {A} (pre l : list A) :
  Forall2 (fun i v => py_getitem (pre ++ l) i = Ok v)
          (map Z.of_nat (seq (length pre) (length l))) l.
Proof.
  revert pre. induction l as [ | v l IH]; intro pre; simpl; constructor.
  - apply py_getitem_nat. rewrite nth_error_app2 by lia.
    rewrite Nat.sub_diag. reflexivity.
  - specialize (IH (pre ++ [v])). rewrite <- app_assoc in IH. simpl in IH.
    rewrite length_app in IH. simpl in IH.
    replace (length pre + 1) with (S (length pre)) in IH by lia. exact IH.
Qed.

(** Gathering by a permutation of all positions permutes the array. *)
Lemma py_take_Permutation {A} (a : list A) (idx : list Z) :
  Permutation idx (map Z.of_nat (seq 0 (length a))) ->
  exists g, py_take a idx = Ok g /\ Permutation g a.
Proof.
  intro Hp.
  assert (H0 : py_take a (map Z.of_nat (seq 0 (length a))) = Ok a).
  { apply Forall2_mapM. apply (py_take_seq [] a). }
  destruct (mapM_Permutation (py_getitem a) _ _ (Permutation_sym Hp) _ H0)
    as (g & Hg & Hpg).
  exists g. split; [exact Hg | apply Permutation_sym; exact Hpg].
Qed.

Lemma where_nonneg_all (mask gathered : list Z) :
  length mask = length gathered ->
  Forall (fun t => (0 <= t)%Z) mask ->
  where_nonneg mask gathered = gathered.
Proof.
  unfold where_nonneg. revert gathered.
  induction mask as [ | t mask IH]; intros [ | g gathered] Hlen Hall;
    simpl in *; try discriminate; [reflexivity | ].
  inversion Hall; subst.
  replace (0 <=? t)%Z with true by (symmetry; apply Z.leb_le; assumption).
  f_equal. apply IH; [lia | assumption].
Qed.

Lemma q_min_nonempty (l : list Q) : l <> [] -> exists v, q_min l = Ok v.
Proof. destruct l; [congruence | simpl; eauto]. Qed.

Lemma q_max_nonempty (l : list Q) : l <> [] -> exists v, q_max l = Ok v.
Proof. destruct l; [congruence | simpl; eauto]. Qed.

Lemma nth_error_lt {A} (l : list A) (i : nat) (v : A) :
  nth_error l i = Some v -> i < length l.
Proof. intro H. apply nth_error_Some. congruence. Qed.

Section Coincident.
Context `{kd : cKDTree}.

Lemma assigned_centre (i : nat) (p : point) :
  nth_error centres16 i = Some p ->
  assigned centres16 (Some (distance_limit 1 1)) p = Z.of_nat i.
Proof.
  intro Hi.
  assert (Hi16 : i < 16).
  { apply nth_error_lt in Hi. exact Hi. }
  unfold assigned.
  destruct (query centres16 p (Some (distance_limit 1 1))) as [d j] eqn:E. simpl.
  destruct d as [sq | ]; simpl.
  - apply query_finite in E. destruct E as (p' & Hj & Hsq & _ & Hall).
    assert (Hj16 : j < 16) by (apply nth_error_lt in Hj; exact Hj).
    pose proof (Hall p (nth_error_In _ _ Hi)) as Hle.
    rewrite sqdist_refl, Hsq in Hle.
    assert (Hap : centres16_apart = true) by (vm_compute; reflexivity).
    unfold centres16_apart in Hap. rewrite forallb_forall in Hap.
    specialize (Hap i ltac:(apply in_seq; lia)).
    rewrite forallb_forall in Hap.
    specialize (Hap j ltac:(apply in_seq; lia)).
    rewrite (nth_error_nth _ _ _ Hj), (nth_error_nth _ _ _ Hi) in Hap.
    apply Qle_bool_iff in Hle. rewrite Hle in Hap. simpl in Hap.
    apply Nat.eqb_eq in Hap. congruence.
  - exfalso. destruct (query_inf _ _ _ E eq_refl) as [_ Hnone].
    specialize (Hnone p (nth_error_In _ _ Hi)).
    rewrite (within_proper _ 0%Q _ (sqdist_refl p)) in Hnone.
    vm_compute in Hnone. discriminate.
Qed.

Lemma intf2trans_centres :
  map (assigned centres16 (Some (distance_limit 1 1))) centres16
  = map Z.of_nat (seq 0 16).
Proof.
  apply nth_error_ext. intro i.
  rewrite !nth_error_map, nth_error_seq.
  destruct (nth_error centres16 i) as [p | ] eqn:Hi; cbn [option_map].
  - rewrite (assigned_centre i p Hi).
    assert (Hi16 : i < 16) by (apply nth_error_lt in Hi; exact Hi).
    replace (i <? 16) with true by (symmetry; apply Nat.ltb_lt; lia).
    reflexivity.
  - apply nth_error_None in Hi. change (length centres16) with 16 in Hi.
    replace (i <? 16) with false by (symmetry; apply Nat.ltb_ge; lia).
    reflexivity.
Qed.

End Coincident.

Section CoincidentGrid.
Context `{kd : cKDTree}.
Variable A : Type.

(** C6.  On the 4 x 4 radar grid with cell centres at the integer (y, x) of
    [0,3] x [0,3], with a translation table whose sixteen points are the
    sixteen centres in some order and a full-area matrix that marks every
    one of its sixteen cells valid, one per table point, the forward matrix
    is built, holds each of 0..15 exactly once and holds no -1; against a
    reference grid of 16 cells the call stores it. *)
Theorem coincident_grid_bijection (self : SBAS) (subswath : string)
        (intf_grids : DataArray A) (n : nat) (trans_ra2ll : DataArray Z) :
  coord intf_grids "y" = Ok axis4 ->
  coord intf_grids "x" = Ok axis4 ->
  min_size intf_grids "pair" = Ok n ->
  Permutation (map row_yx (rows (get_trans_dat self (Some subswath)))) centres16 ->
  open_dataarray (fs self) (trans_ra2ll_file self subswath) = Ok trans_ra2ll ->
  Permutation (values trans_ra2ll) (map Z.of_nat (seq 0 16)) ->
  exists m,
    build_intf_ra2ll self subswath intf_grids = Ok (n, m) /\
    Permutation (values m) (map Z.of_nat (seq 0 16)) /\
    ~ In (-1)%Z (values m) /\
    (n = 16 ->
     exists fs', intf_ra2ll_matrix self subswath intf_grids = Ok fs' /\
                 fs' (intf_ra2ll_file self subswath)
                 = Some (set_attr m "node_offset" 1%Z)).
Proof.
  intros Hys Hxs Hn Hperm Htr Hmask.
  set (trans := rows (get_trans_dat self (Some subswath))) in *.
  assert (Hne : trans <> []).
  { intro E. rewrite E in Hperm. simpl in Hperm.
    apply Permutation_nil in Hperm. discriminate. }
  set (I := map (assigned centres16 (Some (distance_limit 1 1))) (map row_yx trans)).
  assert (HI : Permutation I (map Z.of_nat (seq 0 16))).
  { unfold I. rewrite <- intf2trans_centres. apply Permutation_map. exact Hperm. }
  assert (HlenI : length I = 16).
  { rewrite (Permutation_length HI), length_map, length_seq. reflexivity. }
  destruct (py_take_Permutation I (values trans_ra2ll)) as (g & Hg & Hpg).
  { rewrite HlenI. exact Hmask. }
  assert (Hvals : where_nonneg (values trans_ra2ll) g = g).
  { apply where_nonneg_all.
    - apply py_take_nth in Hg. symmetry. apply Hg.
    - apply Forall_forall. intros t Ht.
      apply (Permutation_in _ Hmask) in Ht. apply in_map_iff in Ht.
      destruct Ht as (k & <- & _). lia. }
  set (m := mkDA "intf_ra2ll" (dims trans_ra2ll) (shape trans_ra2ll)
                 (coords trans_ra2ll) (labels trans_ra2ll) (attrs trans_ra2ll) g).
  assert (Hb : build_intf_ra2ll self subswath intf_grids = Ok (n, m)).
  { unfold build_intf_ra2ll. rewrite Hn. cbn [bind]. fold trans.
    destruct (q_min_nonempty (map t_lon trans)) as [v1 ->];
      [destruct trans; [congruence | discriminate] | ].
    destruct (q_max_nonempty (map t_lon trans)) as [v2 ->];
      [destruct trans; [congruence | discriminate] | ].
    destruct (q_min_nonempty (map t_lat trans)) as [v3 ->];
      [destruct trans; [congruence | discriminate] | ].
    destruct (q_max_nonempty (map t_lat trans)) as [v4 ->];
      [destruct trans; [congruence | discriminate] | ].
    cbn [bind]. rewrite Htr, Hys, Hxs. cbn [bind].
    change (first_diff axis4) with (Ok 1%Q). cbn [bind].
    rewrite intf2trans_assigned.
    change (map (fun r => (t_azi r, t_rng r)) trans) with (map row_yx trans).
    change (broadcast_yx axis4 axis4) with centres16.
    fold I. rewrite Hg. cbn [bind]. unfold with_values, rename. cbn [name dims shape coords labels attrs values].
    rewrite Hvals. reflexivity. }
  assert (Hpm : Permutation g (map Z.of_nat (seq 0 16))).
  { eapply Permutation_trans; eauto. }
  exists m. split; [exact Hb | ].
  split; [exact Hpm | split].
  - intro Hin. apply (Permutation_in _ Hpm) in Hin. apply in_map_iff in Hin.
    destruct Hin as (k & Hk & _). lia.
  - intros ->. unfold intf_ra2ll_matrix. rewrite Hb. cbn [bind fst snd].
    assert (Hmax : is_max 15 g).
    { split.
      - apply (Permutation_in _ (Permutation_sym Hpm)). vm_compute. tauto.
      - apply Forall_forall. intros v Hv. apply (Permutation_in _ Hpm) in Hv.
        apply in_map_iff in Hv. destruct Hv as (k & <- & Hk).
        apply in_seq in Hk. lia. }
    rewrite (save_intf_ra2ll_spec self subswath 16 m 15 Hmax).
    change (Z.of_nat 16 >? 15)%Z with true. cbn iota.
    eexists. split; [reflexivity | ].
    unfold fs_write. rewrite String.eqb_refl. reflexivity.
Qed.

End CoincidentGrid.

Lemma coincident_grid_bijection_witness :
  exists m,
    build_intf_ra2ll Grid4.self "1" Grid4.intf_grids = Ok (16, m) /\
    Permutation (values m) (map Z.of_nat (seq 0 16)) /\
    ~ In (-1)%Z (values m) /\
    (16 = 16 ->
     exists fs', intf_ra2ll_matrix Grid4.self "1" Grid4.intf_grids = Ok fs' /\
                 fs' (intf_ra2ll_file Grid4.self "1")
                 = Some (set_attr m "node_offset" 1%Z)).
Proof.
  apply (coincident_grid_bijection _ Grid4.self "1" Grid4.intf_grids 16 Grid4.trans_ra2ll).
  - reflexivity.
  - reflexivity.
  - reflexivity.
  - replace (map row_yx (rows (get_trans_dat Grid4.self (Some "1"%string))))
      with (rev centres16) by (vm_compute; reflexivity).
    apply Permutation_sym, Permutation_rev.
  - reflexivity.
  - apply Permutation_refl.
Defined.

Example grid4_forward_matrix :
  option_map (@values Z) (fs_lookup_ok
    (intf_ra2ll_matrix Grid4.self "1" Grid4.intf_grids) "raw/F1_intf_ra2ll.grd")
  = Some [15; 14; 13; 12; 11; 10; 9; 8; 7; 6; 5; 4; 3; 2; 1; 0]%Z.
Proof. vm_compute. reflexivity. Qed.

(** ** The forward resampler: the guard (C4) and the masking (C3) *)

Lemma py_in_iff (d : string) (ds : list string) : py_in d ds = true <-> In d ds.
Proof.
  unfold py_in. rewrite existsb_exists. split.
  - intros (x & Hx & E). apply String.eqb_eq in E. subst. exact Hx.
  - intro H. exists d. split; [exact H | apply String.eqb_refl].
Qed.

(** The guard of [intf_ra2ll] as Python reads it: the raster has no [y]
    dimension and has an [x] dimension. *)
Lemma helper_check_ra2ll_iff (ds : list string) :
  helper_check_ra2ll ds = true <-> ~ In "y"%string ds /\ In "x"%string ds.
Proof.
  unfold helper_check_ra2ll. rewrite andb_true_iff, negb_true_iff, <- not_true_iff_false.
  rewrite !py_in_iff. reflexivity.
Qed.

(** A raster with neither radar axis does not take the early return: nothing
    is printed and the call goes on to the matrices. *)
Lemma intf_ra2ll_no_axes_goes_on {V} (self : SBAS)
      (get_subswath : option (pyarg V) -> result string)
      (subswath : option (pyarg V)) (grids : DataArray (float V)) :
  ~ In "y"%string (dims grids) -> ~ In "x"%string (dims grids) ->
  fst (intf_ra2ll self get_subswath subswath (Some grids)) = [] /\
  (open_dataarray (fs self) (intf_ra2ll_file self "1") = Raise FileNotFoundError ->
   get_subswath subswath = Ok "1"%string ->
   snd (intf_ra2ll self get_subswath subswath (Some grids)) = Raise FileNotFoundError).
Proof.
  intros Hy Hx. unfold intf_ra2ll.
  assert (E : helper_check_ra2ll (dims grids) = false).
  { apply not_true_iff_false. rewrite helper_check_ra2ll_iff. tauto. }
  destruct subswath as [s | ]; cbn iota; rewrite E; (split; [reflexivity | ]);
    intros Hf Hs; cbn [snd]; rewrite Hs; cbn [bind]; rewrite Hf; reflexivity.
Qed.

(** C4 at a concrete raster.  The land mask over (lat, lon) has neither
    radar axis, yet [intf_ra2ll] prints nothing and returns a raster that
    is not the input: the cells of the forward matrix filled from the
    input's flattened values. *)
Theorem forward_passthrough_missed :
  py_in "y" (dims Scene.geo_layer) = false /\
  py_in "x" (dims Scene.geo_layer) = false /\
  intf_ra2ll Scene.geocoded Scene.get_subswath None (Some Scene.geo_layer)
  = ([], Ok (mkDA EmptyString ["lat"; "lon"]%string [1; 5]
                  [("lat"%string, [50]%Q); ("lon"%string, [10; 11; 12; 13; 14]%Q)] [] []
                  [Some 1; Some 0; Some 1; None; None]%Z)).
Proof. vm_compute. repeat split. Qed.

(** Where the guard does fire: an [x] axis without a [y] axis. *)
Example forward_passthrough_taken :
  intf_ra2ll Scene.geocoded Scene.get_subswath None
             (Some (mkDA "profile" ["x"]%string [2] [("x"%string, [0; 1]%Q)] [] []
                         [Some 1; Some 2]%Z))
  = ([note_ra2ll],
     Ok (mkDA "profile" ["x"]%string [2] [("x"%string, [0; 1]%Q)] [] []
              [Some 1; Some 2]%Z)).
Proof. vm_compute. reflexivity. Qed.

Example forward_resample_layer :
  option_map (@values _)
    (match snd (intf_ra2ll Scene.geocoded Scene.get_subswath None
                           (Some Scene.radar_layer)) with
     | Ok r => Some r | Raise _ => None end)
  = Some [Some 10; Some 20; Some 30; None; None]%Z.
Proof. vm_compute. reflexivity. Qed.

Section Masking.
Variable V : Type.

Lemma combine_nth_error {B C} (l : list B) (l' : list C) (c : nat) (b : B) (v : C) :
  nth_error l c = Some b -> nth_error l' c = Some v ->
  nth_error (combine l l') c = Some (b, v).
Proof.
  revert l' c. induction l as [ | b0 l IH]; intros [ | v0 l'] [ | c]; simpl;
    try discriminate.
  - intros E1 E2. inversion E1; inversion E2. reflexivity.
  - apply IH.
Qed.

(** What [ra2ll] puts in the cell of a forward-matrix entry [m], the layer
    being re-indexed to [grid']: not-a-number for a negative entry, the
    layer's value at [m] for an entry inside the layer, and for an entry at
    or beyond the layer's size the value [grid'.values.reshape(-1)[-1]],
    the layer's last one. *)
Lemma ra2ll_cell (matrix_ra2ll matrix_ll2ra : DataArray Z)
      (grid out : DataArray (float V)) (c : nat) (m : Z) :
  ra2ll matrix_ra2ll matrix_ll2ra grid = Ok out ->
  nth_error (values matrix_ra2ll) c = Some m ->
  let grid' := reindex_like grid matrix_ll2ra in
  ((m < 0)%Z -> nth_error (values out) c = Some None) /\
  ((0 <= m < Z.of_nat (size grid'))%Z ->
   exists v, py_getitem (values grid') m = Ok v /\ nth_error (values out) c = Some v) /\
  ((Z.of_nat (size grid') <= m)%Z ->
   exists v, py_getitem (values grid') (-1) = Ok v /\ nth_error (values out) c = Some v).
Proof.
  intros H Hc grid'. unfold ra2ll, py_reindex_like in H.
  destruct (reindexable grid matrix_ll2ra); [ | discriminate].
  cbn [bind] in H. fold grid' in H.
  apply bind_ok in H. destruct H as (gathered & Hg & H). inversion H; subst out.
  cbn [values].
  apply py_take_nth in Hg. destruct Hg as [Hlen Hg].
  destruct (Hg c _ (map_nth_error _ _ _ Hc)) as (v & Hv & Hget).
  unfold float in *.
  rewrite nth_error_map, (combine_nth_error _ _ _ _ _ Hc Hv). cbn [option_map fst snd].
  split; [ | split].
  - intro Hneg. replace (0 <=? m)%Z with false by (symmetry; apply Z.leb_gt; lia).
    reflexivity.
  - intros [H0 Hlt].
    replace (0 <=? m)%Z with true by (symmetry; apply Z.leb_le; lia).
    replace (m <? Z.of_nat (size grid'))%Z with true in Hget
      by (symmetry; apply Z.ltb_lt; lia).
    eauto.
  - intro Hge.
    replace (0 <=? m)%Z with true by (symmetry; apply Z.leb_le; lia).
    replace (m <? Z.of_nat (size grid'))%Z with false in Hget
      by (symmetry; apply Z.ltb_ge; lia).
    eauto.
Qed.

End Masking.

(** C3 at a concrete layer.  The entry 5 is replaced by -1 for the gather,
    but the cell is not masked: it receives 40, the last value of the
    layer. *)
Theorem forward_masking_reads_last_value :
  size (reindex_like Scene.radar_layer Scene.intf_ll2ra) = 4 /\
  option_map (@values _)
    (match ra2ll oversized_ra2ll Scene.intf_ll2ra Scene.radar_layer with
     | Ok r => Some r | Raise _ => None end)
  = Some [Some 10; Some 40; None]%Z.
Proof. vm_compute. split; reflexivity. Qed.

(** ** The inverse resampler: the guard (C9) *)

Section InverseGuard.
Variable V : Type.
Variable interp_like_nearest : DataArray (float V) -> TransDat -> DataArray (float V).
Variable get_intf_ll2ra : SBAS -> result (DataArray Z).
Variable first_dim_chunks : DataArray (float V) -> list nat.

(** The guard of [intf_ll2ra] never holds: with a [lat] dimension the left
    operand is false, without one the right operand cannot be evaluated. *)
Lemma helper_check_ll2ra_spec (grids : DataArray (float V)) :
  helper_check_ll2ra grids
  = if py_in "lat" (dims grids) then Ok false else Raise NameError.
Proof.
  unfold helper_check_ll2ra. destruct (py_in "lat" (dims grids)); reflexivity.
Qed.

Lemma intf_ll2ra_without_lat (self : SBAS) (grids : DataArray (float V)) :
  ~ In "lat"%string (dims grids) ->
  intf_ll2ra interp_like_nearest get_intf_ll2ra first_dim_chunks self (Some grids)
  = ([], Raise NameError).
Proof.
  intro H. unfold intf_ll2ra. rewrite helper_check_ll2ra_spec.
  replace (py_in "lat" (dims grids)) with false; [reflexivity | ].
  symmetry. apply not_true_iff_false. rewrite py_in_iff. exact H.
Qed.

(** No call prints the notice. *)
Lemma intf_ll2ra_prints_nothing (self : SBAS) (grids : option (DataArray (float V))) :
  fst (intf_ll2ra interp_like_nearest get_intf_ll2ra first_dim_chunks self grids) = [].
Proof.
  unfold intf_ll2ra. destruct grids as [grids | ]; [ | reflexivity].
  rewrite helper_check_ll2ra_spec. destruct (py_in "lat" (dims grids)); reflexivity.
Qed.

End InverseGuard.

(** C9 at a concrete raster.  The radar-coordinate layer has neither [lat]
    nor [lon]; whatever the interpolation, the stored matrix and the
    chunks of the raster are, [intf_ll2ra] prints nothing and raises
    [NameError]. *)
Theorem inverse_passthrough_raises :
  forall (interp_like_nearest : DataArray (float Z) -> TransDat -> DataArray (float Z))
         (get_intf_ll2ra : SBAS -> result (DataArray Z))
         (first_dim_chunks : DataArray (float Z) -> list nat),
    py_in "lat" (dims Scene.radar_layer) = false /\
    py_in "lon" (dims Scene.radar_layer) = false /\
    intf_ll2ra interp_like_nearest get_intf_ll2ra first_dim_chunks
               Scene.geocoded (Some Scene.radar_layer)
    = ([], Raise NameError).
Proof. intros. repeat split. Qed.

(** A layer over the translation table's own grid goes through the stored
    inverse matrix. *)
Example inverse_resample_layer :
  let layer := mkDA "landmask" ["lat"; "lon"]%string [1; 4]
                    [("lat"%string, [50]%Q); ("lon"%string, [10; 11; 12; 13]%Q)] [] []
                    [Some 1; Some 0; Some 1; Some 0]%Z in
  intf_ll2ra (fun g _ => g)
             (fun self => open_dataarray (fs self) (intf_ll2ra_file self "1"))
             (fun _ => [1])
             Scene.geocoded (Some layer)
  = ([], Ok (mkDA "landmask" ["y"; "x"]%string [2; 2] [] [] []
                  [Some 1; Some 0; Some 1; Some 0]%Z)).
Proof. vm_compute. reflexivity. Qed.

(** ** The inverse matrix *)

Lemma In_firstn {B} (n : nat) (l : list B) (v : B) : In v (firstn n l) -> In v l.
Proof.
  revert l. induction n as [ | n IH]; intros [ | a l]; simpl; try tauto.
  intros [-> | H]; auto.
Qed.

Lemma In_skipn {B} (n : nat) (l : list B) (v : B) : In v (skipn n l) -> In v l.
Proof.
  revert l. induction n as [ | n IH]; intros [ | a l]; simpl; try tauto.
  intro H. right. auto.
Qed.

Lemma In_split_chunks {B} (sizes : list nat) (l piece : list B) (v : B) :
  In piece (split_chunks sizes l) -> In v piece -> In v l.
Proof.
  revert l. induction sizes as [ | n sizes IH]; intros l; simpl; [tauto | ].
  intros [<- | H] Hv.
  - eapply In_firstn; eauto.
  - eapply In_skipn. eapply IH; eauto.
Qed.

Lemma In_nth_split_chunks {B} (sizes : list nat) (l : list B) (k : nat) (v : B) :
  In v (nth k (split_chunks sizes l) []) -> In v l.
Proof.
  intro H. destruct (nth_in_or_default k (split_chunks sizes l) []) as [Hin | E].
  - eapply In_split_chunks; eauto.
  - rewrite E in H. destruct H.
Qed.

Lemma In_flatten {B} (a : array2 B) (v : B) :
  In v (flatten a) <-> exists row, In row a /\ In v row.
Proof.
  unfold flatten. rewrite in_concat. split; intros (row & H1 & H2); eauto.
Qed.

(** A block holds values of the array it is cut from. *)
Lemma block_incl {B} (chunks : list nat * list nat) (a b : array2 B) (iy ix : Z) :
  block chunks a iy ix = Ok b -> forall v, In v (flatten b) -> In v (flatten a).
Proof.
  unfold block. intro H.
  apply bind_ok in H. destruct H as (ky & _ & H).
  apply bind_ok in H. destruct H as (kx & _ & H).
  inversion H; subst b. intros v Hv.
  apply In_flatten in Hv. destruct Hv as (piece & Hp & Hv).
  apply in_map_iff in Hp. destruct Hp as (row & <- & Hrow).
  apply In_nth_split_chunks in Hv. apply In_nth_split_chunks in Hrow.
  apply In_flatten. eauto.
Qed.

Lemma reshape_like_incl {B C} (like : array2 C) (flat : list B) (v : B) :
  In v (flatten (reshape_like like flat)) -> In v flat.
Proof.
  revert flat. induction like as [ | r like IH]; intros flat; simpl; [tauto | ].
  unfold flatten. simpl. rewrite in_app_iff. intros [H | H].
  - eapply In_firstn; eauto.
  - eapply In_skipn. apply IH. exact H.
Qed.

Lemma to_uint32_range (z : Z) : (0 <= to_uint32 z < uint32_modulus)%Z.
Proof. unfold to_uint32. apply Z.mod_pos_bound. reflexivity. Qed.

Lemma to_uint32_le (z : Z) : (0 <= z)%Z -> (to_uint32 z <= z)%Z.
Proof. intro H. unfold to_uint32. apply Z.mod_le; [exact H | reflexivity]. Qed.

Lemma to_uint32_small (z : Z) : (0 <= z < uint32_modulus)%Z -> to_uint32 z = z.
Proof. intro H. unfold to_uint32. apply Z.mod_small. exact H. Qed.

(** A label is the position of a cell of the table, reduced to 32 bits. *)
Lemma trans_idx_label (like : array2 Q) (v : Z) :
  In v (flatten (trans_idx_of like)) ->
  exists k, k < length (flatten like) /\
            v = to_uint32 (to_uint32 (Z.of_nat k) * 1).
Proof.
  unfold trans_idx_of. intro H. apply reshape_like_incl in H.
  apply in_map_iff in H. destruct H as (k & <- & Hk).
  apply in_seq in Hk. exists k. split; [lia | reflexivity].
Qed.

Lemma trans_idx_valid (like : array2 Q) (v : Z) :
  In v (flatten (trans_idx_of like)) ->
  (0 <= v < Z.of_nat (length (flatten like)))%Z.
Proof.
  intro H. apply trans_idx_label in H. destruct H as (k & Hk & ->).
  rewrite Z.mul_1_r.
  pose proof (to_uint32_range (to_uint32 (Z.of_nat k))).
  pose proof (to_uint32_le (to_uint32 (Z.of_nat k)) ltac:(apply to_uint32_range)).
  pose proof (to_uint32_le (Z.of_nat k) ltac:(lia)).
  lia.
Qed.

Lemma trans_idx_not_sentinel (like : array2 Q) (v : Z) :
  (Z.of_nat (length (flatten like)) < uint32_modulus)%Z ->
  In v (flatten (trans_idx_of like)) -> v <> uint32_sentinel.
Proof.
  intros Hfit H. apply trans_idx_valid in H. unfold uint32_sentinel. lia.
Qed.

Lemma read_block_labels (td : TransDat) (e : extent) (p : list Q * list Q * list Z) :
  read_block td e = Ok p ->
  forall v, In v (snd p) -> In v (flatten (trans_idx_of (ll td))).
Proof.
  unfold read_block. intro H.
  apply bind_ok in H. destruct H as (ba & _ & H).
  apply bind_ok in H. destruct H as (br & _ & H).
  apply bind_ok in H. destruct H as (bi & Ei & H).
  inversion H; subst p. simpl. apply (block_incl _ _ _ _ _ Ei).
Qed.

Lemma gathered_idxs_labels (td : TransDat) (es : list extent)
      (parts : list (list Q * list Q * list Z)) :
  mapM (read_block td) es = Ok parts ->
  forall v, In v (gathered_idxs parts) -> In v (flatten (trans_idx_of (ll td))).
Proof.
  intro H. apply mapM_ok in H. unfold gathered_idxs.
  induction H as [ | e p es parts Hp _ IH]; simpl; [tauto | ].
  intros v Hv. apply in_app_iff in Hv. destruct Hv as [Hv | Hv].
  - eapply read_block_labels; eauto.
  - auto.
Qed.

Lemma np_concatenate_ok {B} (parts : list (list B)) (r : list B) :
  np_concatenate parts = Ok r -> parts <> [] /\ r = concat parts.
Proof.
  destruct parts; simpl; [discriminate | ].
  intro H. inversion H. split; [discriminate | reflexivity].
Qed.

Lemma stack_yx_ok (a b : list Q) (r : list point) :
  stack_yx a b = Ok r -> length a = length b /\ r = combine a b.
Proof.
  unfold stack_yx. destruct (Nat.eqb (length a) (length b)) eqn:E; [ | discriminate].
  apply Nat.eqb_eq in E. intro H. inversion H. auto.
Qed.

Section InverseFacts.
Context `{kd : cKDTree}.

(** What a successful call of [calc_intf_ll2ra_matrix] went through. *)
Lemma calc_intf_ll2ra_matrix_ok (td : TransDat) (extents : list extent)
      (azi rng : array2 Q) (M : array2 Z) :
  calc_intf_ll2ra_matrix td extents azi rng = Ok M ->
  exists ymin ymax xmin xmax parts matrix,
    same_shape azi rng = true /\
    q_min (flatten azi) = Ok ymin /\ q_max (flatten azi) = Ok ymax /\
    q_min (flatten rng) = Ok xmin /\ q_max (flatten rng) = Ok xmax /\
    mapM (read_block td) (filter (block_selected ymin ymax xmin xmax) extents)
    = Ok parts /\
    parts <> [] /\
    length (gathered_azis parts) = length (gathered_rngs parts) /\
    length (flatten azi) = length (flatten rng) /\
    py_take (gathered_idxs parts)
            (map (fun x => Z.of_nat
                             (snd (query (combine (gathered_azis parts)
                                                  (gathered_rngs parts)) x None)))
                 (combine (flatten azi) (flatten rng))) = Ok matrix /\
    M = reshape_like azi matrix.
Proof.
  unfold calc_intf_ll2ra_matrix. intro H.
  apply bind_ok in H. destruct H as ([] & Es & H).
  apply bind_ok in H. destruct H as (ymin & Eymin & H).
  apply bind_ok in H. destruct H as (ymax & Eymax & H).
  apply bind_ok in H. destruct H as (xmin & Exmin & H).
  apply bind_ok in H. destruct H as (xmax & Exmax & H).
  apply bind_ok in H. destruct H as (parts & Eparts & H).
  apply bind_ok in H. destruct H as (bas & Ebas & H).
  apply bind_ok in H. destruct H as (brs & Ebrs & H).
  apply bind_ok in H. destruct H as (bis & Ebis & H).
  apply bind_ok in H. destruct H as (src & Esrc & H).
  apply bind_ok in H. destruct H as (tgt & Etgt & H).
  unfold tree_query in H. rewrite split_map_fst_snd in H.
  apply bind_ok in H. destruct H as (matrix & Em & H).
  inversion H; subst M.
  apply np_concatenate_ok in Ebas, Ebrs, Ebis.
  destruct Ebas as [Hne ->], Ebrs as [_ ->], Ebis as [_ ->].
  apply stack_yx_ok in Esrc, Etgt. destruct Esrc as [Hl1 ->], Etgt as [Hl2 ->].
  rewrite map_map in Em.
  exists ymin, ymax, xmin, xmax, parts, matrix.
  unfold py_assert in Es. destruct (same_shape azi rng); [ | discriminate].
  repeat split; try assumption.
  intro E. apply Hne. rewrite E. reflexivity.
Qed.

End InverseFacts.

(** ** Blocks of arrays of one shape *)

Lemma Forall2_firstn {B C} (R : B -> C -> Prop) (n : nat) (l : list B) (l' : list C) :
  Forall2 R l l' -> Forall2 R (firstn n l) (firstn n l').
Proof.
  intro H. revert n. induction H; intros [ | n]; simpl; constructor; auto.
Qed.

Lemma Forall2_skipn {B C} (R : B -> C -> Prop) (n : nat) (l : list B) (l' : list C) :
  Forall2 R l l' -> Forall2 R (skipn n l) (skipn n l').
Proof.
  intro H. revert n. induction H; intros [ | n]; simpl; try constructor; auto.
Qed.

Lemma Forall2_split_chunks {B C} (R : B -> C -> Prop) (sizes : list nat)
      (l : list B) (l' : list C) :
  Forall2 R l l' -> Forall2 (Forall2 R) (split_chunks sizes l) (split_chunks sizes l').
Proof.
  revert l l'. induction sizes as [ | n sizes IH]; intros l l' H; simpl; constructor.
  - apply Forall2_firstn. exact H.
  - apply IH. apply Forall2_skipn. exact H.
Qed.

Lemma Forall2_nth {B C} (R : B -> C -> Prop) (l : list B) (l' : list C)
      (k : nat) (d : B) (d' : C) :
  Forall2 R l l' -> R d d' -> R (nth k l d) (nth k l' d').
Proof.
  intros H Hd. revert k. induction H; intros [ | k]; simpl; auto.
Qed.

Lemma same_length_iff {B C} (l : list B) (l' : list C) :
  same_length l l' <-> length l = length l'.
Proof.
  unfold same_length. split.
  - induction 1; simpl; congruence.
  - revert l'. induction l as [ | a l IH]; intros [ | a' l'] H; simpl in H;
      try discriminate; constructor; auto.
Qed.

Lemma same_shape_iff {B C} (a : array2 B) (b : array2 C) :
  same_shape a b = true <-> Forall2 same_length a b.
Proof.
  unfold same_shape. rewrite andb_true_iff, Nat.eqb_eq. split.
  - intros [Hlen Hrows]. revert b Hlen Hrows.
    induction a as [ | r a IH]; intros [ | r' b] Hlen Hrows; simpl in *;
      try discriminate; constructor.
    + apply andb_true_iff in Hrows. destruct Hrows as [Hr _].
      apply Nat.eqb_eq in Hr. apply same_length_iff. exact Hr.
    + apply andb_true_iff in Hrows. destruct Hrows as [_ Hrows].
      apply IH; [lia | exact Hrows].
  - induction 1 as [ | r r' a b Hr _ [IHl IHr]]; simpl; [auto | ].
    split; [lia | ]. apply andb_true_iff. split; [ | exact IHr].
    apply Nat.eqb_eq. apply same_length_iff. exact Hr.
Qed.

Lemma concat_same_length {B C} (a : array2 B) (b : array2 C) :
  Forall2 same_length a b -> length (flatten a) = length (flatten b).
Proof.
  unfold flatten. induction 1 as [ | r r' a b Hr _ IH]; simpl; [reflexivity | ].
  rewrite !length_app. apply same_length_iff in Hr. lia.
Qed.

Lemma block_same_shape {B C} (chunks : list nat * list nat)
      (a : array2 B) (b : array2 C) (iy ix : Z) (ba : array2 B) (bb : array2 C) :
  same_shape a b = true ->
  block chunks a iy ix = Ok ba -> block chunks b iy ix = Ok bb ->
  length (flatten ba) = length (flatten bb).
Proof.
  intros Hs Ha Hb. apply same_shape_iff in Hs. unfold block in Ha, Hb.
  apply bind_ok in Ha. destruct Ha as (ky & Eky & Ha).
  apply bind_ok in Ha. destruct Ha as (kx & Ekx & Ha).
  rewrite Eky, Ekx in Hb. cbn [bind] in Hb.
  inversion Ha; inversion Hb; subst ba bb.
  apply concat_same_length.
  assert (Hband : Forall2 same_length (nth ky (split_chunks (fst chunks) a) [])
                          (nth ky (split_chunks (fst chunks) b) [])).
  { apply Forall2_nth; [ | constructor].
    apply Forall2_split_chunks. exact Hs. }
  clear Ha Hb.
  induction Hband as [ | r r' band band' Hr _ IH]; simpl;
    [constructor | constructor; [ | exact IH]].
  apply (Forall2_nth (Forall2 (fun _ _ => True))); [ | constructor].
  apply Forall2_split_chunks. exact Hr.
Qed.

Lemma reshape_like_shape {B C} (like : array2 C) (flat : list B) :
  length (flatten like) <= length flat ->
  Forall2 same_length like (reshape_like like flat).
Proof.
  unfold flatten. revert flat. induction like as [ | r like IH]; intros flat H; simpl in *;
    constructor.
  - apply same_length_iff. rewrite length_firstn. rewrite length_app in H. lia.
  - apply IH. rewrite length_skipn. rewrite length_app in H. lia.
Qed.

Lemma Forall2_same_length_trans {B C D} (a : array2 B) (b : array2 C) (c : array2 D) :
  Forall2 same_length a b -> Forall2 same_length b c -> Forall2 same_length a c.
Proof.
  intro H. revert c. induction H as [ | r r' a b Hr _ IH]; intros c Hc;
    inversion Hc; subst; constructor.
  - apply same_length_iff. apply same_length_iff in Hr.
    match goal with H : same_length r' _ |- _ => apply same_length_iff in H; lia end.
  - apply IH. assumption.
Qed.

Lemma read_block_lengths (td : TransDat) (e : extent) (p : list Q * list Q * list Z) :
  wf_TransDat td -> read_block td e = Ok p ->
  length (fst (fst p)) = length (snd p) /\
  length (fst (fst p)) = length (snd (fst p)).
Proof.
  intros [Hrng Hll] H. unfold read_block in H.
  apply bind_ok in H. destruct H as (ba & Ea & H).
  apply bind_ok in H. destruct H as (br & Er & H).
  apply bind_ok in H. destruct H as (bi & Ei & H).
  inversion H; subst p. simpl. split.
  - apply (block_same_shape (chunks td) (azi td) (trans_idx_of (ll td))
             (Qtrunc (e_iy e)) (Qtrunc (e_ix e))); [ | exact Ea | exact Ei].
    apply same_shape_iff. apply same_shape_iff in Hll.
    apply (Forall2_same_length_trans _ _ _ Hll).
    unfold trans_idx_of. apply reshape_like_shape.
    rewrite length_map, length_seq. apply Nat.le_refl.
  - exact (block_same_shape (chunks td) (azi td) (rng td) _ _ _ _ Hrng Ea Er).
Qed.

Lemma gathered_lengths (td : TransDat) (es : list extent)
      (parts : list (list Q * list Q * list Z)) :
  wf_TransDat td -> mapM (read_block td) es = Ok parts ->
  length (gathered_azis parts) = length (gathered_idxs parts) /\
  length (gathered_azis parts) = length (gathered_rngs parts).
Proof.
  intros Hwf H. apply mapM_ok in H. unfold gathered_azis, gathered_idxs, gathered_rngs.
  induction H as [ | e p es parts Hp _ [IH1 IH2]]; simpl; [split; reflexivity | ].
  destruct (read_block_lengths td e p Hwf Hp) as [H1 H2].
  rewrite !length_app, IH1, H1. split; [reflexivity | ].
  rewrite <- IH1, IH2, <- H1, H2. reflexivity.
Qed.





Lemma mapM_total {B C} (f : B -> result C) (l : list B) :
  (forall x, In x l -> exists b, f x = Ok b) -> exists r, mapM f l = Ok r.
Proof.
  induction l as [ | a l IH]; intro H; simpl; [eauto | ].
  destruct (H a (or_introl eq_refl)) as [b ->].
  destruct IH as [r ->]; [intros x Hx; apply H; right; exact Hx | ].
  simpl. eauto.
Qed.

Lemma flatten_reshape_like {B C} (like : array2 C) (flat : list B) :
  length flat = length (flatten like) -> flatten (reshape_like like flat) = flat.
Proof.
  unfold flatten. revert flat. induction like as [ | r like IH]; intros flat H; simpl in *.
  - destruct flat; [reflexivity | discriminate].
  - rewrite IH.
    + apply firstn_skipn.
    + rewrite length_skipn, H, length_app. lia.
Qed.

Lemma np_concatenate_map {B C} (f : B -> list C) (parts : list B) :
  parts <> [] -> np_concatenate (map f parts) = Ok (concat (map f parts)).
Proof. destruct parts; [congruence | reflexivity]. Qed.

Section InverseNearest.
Context `{kd : cKDTree}.

(** Without a bound the query always reports a nearest point, provided
    there is a point at all. *)
Lemma query_unbounded (src : list point) (x : point) :
  src <> [] ->
  exists sq i p, query src x None = (Finite sq, i) /\ nth_error src i = Some p /\
                 forall q, In q src -> (sqdist p x <= sqdist q x)%Q.
Proof.
  intro Hne. destruct (query src x None) as [d i] eqn:E.
  destruct d as [sq | ].
  - destruct (query_finite _ _ _ E) as (p & Hp & Hsq & _ & Hall).
    exists sq, i, p. repeat split; try assumption.
    intros q Hq. rewrite <- Hsq. auto.
  - exfalso. destruct (query_inf _ _ _ E eq_refl) as [_ Hnone].
    destruct src as [ | q src]; [congruence | ].
    specialize (Hnone q (or_introl eq_refl)). discriminate.
Qed.

(** A call of [calc_intf_ll2ra_matrix] whose blocks are read and hold a
    point returns, and every cell of its matrix holds the label gathered
    with a point nearest to the cell. *)
Lemma calc_nearest_cells (td : TransDat) (extents : list extent)
      (azi rng : array2 Q) (ymin ymax xmin xmax : Q)
      (parts : list (list Q * list Q * list Z)) :
  wf_TransDat td ->
  same_shape azi rng = true ->
  q_min (flatten azi) = Ok ymin -> q_max (flatten azi) = Ok ymax ->
  q_min (flatten rng) = Ok xmin -> q_max (flatten rng) = Ok xmax ->
  mapM (read_block td) (filter (block_selected ymin ymax xmin xmax) extents) = Ok parts ->
  gathered_azis parts <> [] ->
  let source_yxs := combine (gathered_azis parts) (gathered_rngs parts) in
  exists M,
    calc_intf_ll2ra_matrix td extents azi rng = Ok M /\
    length (flatten M) = length (flatten azi) /\
    forall k y x,
      nth_error (flatten azi) k = Some y -> nth_error (flatten rng) k = Some x ->
      exists i p label,
        nth_error source_yxs i = Some p /\
        nth_error (gathered_idxs parts) i = Some label /\
        nth_error (flatten M) k = Some label /\
        forall q, In q source_yxs -> (sqdist p (y, x) <= sqdist q (y, x))%Q.
Proof.
  intros Hwf Hshape Hymin Hymax Hxmin Hxmax Hparts Hne source_yxs.
  set (selected := filter (block_selected ymin ymax xmin xmax) extents) in *.
  assert (Hlt : length (flatten azi) = length (flatten rng)).
  { apply concat_same_length. apply same_shape_iff. exact Hshape. }
  destruct (gathered_lengths td _ parts Hwf Hparts) as [Hla Hlr].
  assert (Hsrc : source_yxs <> []).
  { unfold source_yxs. destruct (gathered_azis parts); [congruence | ].
    destruct (gathered_rngs parts); discriminate. }
  assert (Hlsrc : length source_yxs = length (gathered_idxs parts)).
  { unfold source_yxs. etransitivity; [apply length_combine | lia]. }
  set (target_yxs := combine (flatten azi) (flatten rng)).
  set (ind := fun x => Z.of_nat (snd (query source_yxs x None))).
  destruct (mapM_total (py_getitem (gathered_idxs parts)) (map ind target_yxs))
    as [matrix Hmatrix].
  { intros z Hz. apply in_map_iff in Hz. destruct Hz as (x & <- & _).
    destruct (query_unbounded source_yxs x Hsrc) as (sq & i & p & Hq & Hp & _).
    unfold ind. rewrite Hq. cbn [snd].
    assert (Hi : i < length (gathered_idxs parts)).
    { rewrite <- Hlsrc. exact (nth_error_lt _ _ _ Hp). }
    destruct (nth_error (gathered_idxs parts) i) as [v | ] eqn:Ev.
    - exists v. apply py_getitem_nat. exact Ev.
    - apply nth_error_None in Ev. lia. }
  assert (Hlm : length matrix = length (flatten azi)).
  { apply py_take_nth in Hmatrix. destruct Hmatrix as [-> _].
    unfold target_yxs. rewrite length_map.
    etransitivity; [apply length_combine | lia]. }
  exists (reshape_like azi matrix). split; [ | split].
  + unfold calc_intf_ll2ra_matrix. rewrite Hshape. cbn [py_assert bind].
    rewrite Hymin, Hymax, Hxmin, Hxmax. cbn [bind]. fold selected. rewrite Hparts.
    cbn [bind].
    assert (Hpne : parts <> []) by (intro E; apply Hne; rewrite E; reflexivity).
    rewrite !np_concatenate_map by exact Hpne. cbn [bind].
    change (concat (map (fun p => fst (fst p)) parts)) with (gathered_azis parts).
    change (concat (map (fun p => snd (fst p)) parts)) with (gathered_rngs parts).
    change (concat (map (fun p => snd p) parts)) with (gathered_idxs parts).
    unfold stack_yx. rewrite Hlr, Hlt, !Nat.eqb_refl. cbn [bind].
    fold source_yxs. fold target_yxs.
    unfold tree_query. rewrite split_map_fst_snd. rewrite map_map.
    unfold py_take. fold ind. rewrite Hmatrix. reflexivity.
  + rewrite flatten_reshape_like; assumption.
  + intros k y x Hy Hx.
    rewrite flatten_reshape_like by assumption.
    assert (Hk : nth_error target_yxs k = Some (y, x))
      by (apply combine_nth_error; assumption).
    destruct (query_unbounded source_yxs (y, x) Hsrc) as (sq & i & p & Hq & Hp & Hnear).
    apply py_take_nth in Hmatrix. destruct Hmatrix as [_ Hmatrix].
    destruct (Hmatrix k (ind (y, x)) (map_nth_error _ _ _ Hk)) as (label & Hlabel & Hget).
    unfold ind in Hget. rewrite Hq in Hget. cbn [snd] in Hget.
    apply py_getitem_ok in Hget. destruct Hget as (i' & Hi' & Hnth).
    rewrite py_index_nat in Hi'.
    * inversion Hi'; subst i'. exists i, p, label. repeat split; assumption.
    * rewrite <- Hlsrc. exact (nth_error_lt _ _ _ Hp).
Qed.


End InverseNearest.


(** ** C10 and C2: what the matrices hold *)

Lemma length_broadcast_yx (ys xs : list Q) :
  length (broadcast_yx ys xs) = length ys * length xs.
Proof.
  unfold broadcast_yx. induction ys as [ | y ys IH]; simpl; [reflexivity | ].
  rewrite length_app, length_map. f_equal. exact IH.
Qed.

Lemma where_nonneg_In (mask gathered : list Z) (v : Z) :
  In v (where_nonneg mask gathered) -> v = (-1)%Z \/ In v gathered.
Proof.
  unfold where_nonneg. intro H. apply in_map_iff in H.
  destruct H as ([t g] & <- & Hin). simpl.
  destruct (0 <=? t)%Z; [right | left; reflexivity].
  eapply in_combine_r; eauto.
Qed.

Section MatrixValues.
Context `{kd : cKDTree}.

Lemma calc_cells_labels (td : TransDat) (extents : list extent)
      (azi rng : array2 Q) (M : array2 Z) :
  calc_intf_ll2ra_matrix td extents azi rng = Ok M ->
  forall v, In v (flatten M) -> In v (flatten (trans_idx_of (ll td))).
Proof.
  intros H v Hv. apply calc_intf_ll2ra_matrix_ok in H.
  destruct H as (ymin & ymax & xmin & xmax & parts & matrix
                 & _ & _ & _ & _ & _ & Hparts & _ & _ & _ & Htake & ->).
  apply reshape_like_incl in Hv.
  apply (py_take_In _ _ _ Htake) in Hv.
  eapply gathered_idxs_labels; eauto.
Qed.

Lemma matrix_ra_blocks_labels (self : SBAS) (subswath : option string)
      (grid_chunks : list nat * list nat) (ys xs : list Q)
      (M : list (list (array2 Z))) :
  matrix_ra_blocks self subswath grid_chunks ys xs = Ok M ->
  forall v, In v (cells M) ->
            In v (flatten (trans_idx_of (ll (get_trans_dat self subswath)))).
Proof.
  unfold matrix_ra_blocks, cells. intro H. apply mapM_ok in H.
  induction H as [ | yp band yps M Hband _ IH]; simpl; [tauto | ].
  intros v Hv. apply in_app_iff in Hv. destruct Hv as [Hv | Hv]; [ | auto].
  clear IH. apply mapM_ok in Hband.
  induction Hband as [ | xp B xps band HB _ IH]; simpl in Hv; [tauto | ].
  apply in_app_iff in Hv. destruct Hv as [Hv | Hv]; [ | auto].
  eapply calc_cells_labels; eauto.
Qed.

Lemma intf_ra2ll_matrix_ok {A} (self : SBAS) (subswath : string)
      (intf_grids : DataArray A) (fs' : filesystem) :
  intf_ra2ll_matrix self subswath intf_grids = Ok fs' ->
  exists n m, build_intf_ra2ll self subswath intf_grids = Ok (n, m) /\
              fs' (intf_ra2ll_file self subswath)
              = Some (set_attr m "node_offset" 1%Z).
Proof.
  unfold intf_ra2ll_matrix. intro H.
  apply bind_ok in H. destruct H as ([n m] & Hb & H). simpl in H.
  unfold save_intf_ra2ll in H.
  apply bind_ok in H. destruct H as (mx & _ & H).
  apply bind_ok in H. destruct H as ([] & _ & H).
  inversion H. exists n, m. split; [exact Hb | ].
  unfold fs_write. rewrite String.eqb_refl. reflexivity.
Qed.

(** The values of a built forward matrix. *)
Lemma build_intf_ra2ll_values {A} (self : SBAS) (subswath : string)
      (intf_grids : DataArray A) (n : nat) (m : DataArray Z) :
  build_intf_ra2ll self subswath intf_grids = Ok (n, m) ->
  exists ys xs, coord intf_grids "y" = Ok ys /\ coord intf_grids "x" = Ok xs /\
    Forall (fun v => v = (-1)%Z \/ (0 <= v < Z.of_nat (length ys * length xs))%Z)
           (values m).
Proof.
  intro H. apply build_intf_ra2ll_ok in H.
  destruct H as (tr & ys & xs & dy & dx & gathered
                 & _ & _ & Hys & Hxs & _ & _ & Hg & ->).
  exists ys, xs. split; [exact Hys | split; [exact Hxs | ]].
  apply Forall_forall. intros v Hv. cbn [values] in Hv.
  apply where_nonneg_In in Hv. destruct Hv as [-> | Hv]; [left; reflexivity | ].
  apply (py_take_In _ _ _ Hg) in Hv.
  rewrite intf2trans_assigned in Hv. apply in_map_iff in Hv.
  destruct Hv as (x & <- & _).
  rewrite <- length_broadcast_yx. apply assigned_range.
Qed.

(** C2.  A forward matrix stored by [intf_ra2ll_matrix] holds in every cell
    -1 or an index of the radar grid, below its count of cells; an inverse
    matrix computed by [intf_ll2ra_matrix] holds in every cell the largest
    32-bit value or an index of the translation table, below its count of
    cells. *)
Theorem sentinel_consistency :
  (forall (A : Type) (self : SBAS) (subswath : string) (intf_grids : DataArray A)
          (fs' : filesystem),
      intf_ra2ll_matrix self subswath intf_grids = Ok fs' ->
      exists m ys xs,
        fs' (intf_ra2ll_file self subswath) = Some m /\
        coord intf_grids "y" = Ok ys /\ coord intf_grids "x" = Ok xs /\
        Forall (fun v => v = (-1)%Z \/
                         (0 <= v < Z.of_nat (length ys * length xs))%Z)
               (values m)) /\
  (forall (self : SBAS) (subswath : option string)
          (grid_chunks : list nat * list nat) (ys xs : list Q)
          (M : list (list (array2 Z))),
      matrix_ra_blocks self subswath grid_chunks ys xs = Ok M ->
      Forall (fun v => v = uint32_sentinel \/
                       (0 <= v < Z.of_nat (length (flatten
                                                 (ll (get_trans_dat self subswath)))))%Z)
             (cells M)).
Proof.
  split.
  - intros A self subswath intf_grids fs' H.
    apply intf_ra2ll_matrix_ok in H. destruct H as (n & m & Hb & Hfile).
    apply build_intf_ra2ll_values in Hb. destruct Hb as (ys & xs & Hys & Hxs & Hall).
    exists (set_attr m "node_offset" 1%Z), ys, xs. repeat split; assumption.
  - intros self subswath grid_chunks ys xs M H.
    apply Forall_forall. intros v Hv. right.
    apply trans_idx_valid. eapply matrix_ra_blocks_labels; eauto.
Qed.

End MatrixValues.

Lemma sentinel_consistency_witness :
  (exists fs' m ys xs,
      intf_ra2ll_matrix Scene.self "1" Scene.intf_grids = Ok fs' /\
      fs' (intf_ra2ll_file Scene.self "1") = Some m /\
      coord Scene.intf_grids "y" = Ok ys /\ coord Scene.intf_grids "x" = Ok xs /\
      Forall (fun v => v = (-1)%Z \/ (0 <= v < Z.of_nat (length ys * length xs))%Z)
             (values m)) /\
  (exists M,
      matrix_ra_blocks Scene.self (Some "1"%string) ([2], [1; 1]) [0; 1]%Q [0; 1]%Q = Ok M /\
      Forall (fun v => v = uint32_sentinel \/ (0 <= v < 4)%Z) (cells M)).
Proof.
  destruct (sentinel_consistency (kd := scan_tree)) as [Hforward Hinverse].
  split.
  - assert (Hrun : exists fs', intf_ra2ll_matrix Scene.self "1" Scene.intf_grids = Ok fs')
      by (vm_compute; eexists; reflexivity).
    destruct Hrun as [fs' Hrun].
    destruct (Hforward _ _ _ _ _ Hrun) as (m & ys & xs & H1 & H2 & H3 & H4).
    exists fs', m, ys, xs. repeat split; assumption.
  - assert (Hrun : exists M, matrix_ra_blocks Scene.self (Some "1"%string) ([2], [1; 1])
                                              [0; 1]%Q [0; 1]%Q = Ok M)
      by (vm_compute; eexists; reflexivity).
    destruct Hrun as [M Hrun]. exists M. split; [exact Hrun | ].
    exact (Hinverse _ _ _ _ _ _ Hrun).
Defined.

(** ** C10: the inverse matrix holds no sentinel *)

Section NoSentinel.
Context `{kd : cKDTree}.

Lemma ll2ra_all_valid {V} (matrix_ll2ra : DataArray Z) (grid : list (float V)) :
  Forall (fun v => (0 <= v < Z.of_nat (length grid))%Z /\ v <> uint32_sentinel)
         (values matrix_ll2ra) ->
  ll2ra matrix_ll2ra grid
  = Ok (map (fun v => nth (Z.to_nat v) grid None) (values matrix_ll2ra)).
Proof.
  intro Hall. unfold ll2ra.
  assert (Hg : py_take grid (values matrix_ll2ra)
               = Ok (map (fun v => nth (Z.to_nat v) grid None) (values matrix_ll2ra))).
  { apply Forall2_mapM. induction Hall as [ | v l [Hv _] _ IH]; simpl; constructor.
    - pose proof (py_getitem_nat grid (Z.to_nat v) (nth (Z.to_nat v) grid None)) as P.
      rewrite Z2Nat.id in P by lia. apply P. apply nth_error_nth'. lia.
    - exact IH. }
  rewrite Hg. cbn [bind]. f_equal. clear Hg.
  induction Hall as [ | v l [_ Hv] _ IH]; simpl; [reflexivity | ].
  rewrite IH. replace (v =? uint32_sentinel)%Z with false; [reflexivity | ].
  symmetry. apply Z.eqb_neq. exact Hv.
Qed.

(** C10, amended.  Over a translation table of fewer than 2^32 cells (the
    labels are 32-bit), every cell of a computed inverse matrix is an index of the
    table and none is the largest 32-bit value; hence [ll2ra], given a layer
    of the table's size, fills every cell of such a matrix from the layer
    and never with the not-a-number of its other branch. *)
Theorem inverse_matrix_never_sentinel (self : SBAS) (subswath : option string)
        (grid_chunks : list nat * list nat) (ys xs : list Q)
        (M : list (list (array2 Z))) :
  matrix_ra_blocks self subswath grid_chunks ys xs = Ok M ->
  let table_size := length (flatten (ll (get_trans_dat self subswath))) in
  (Z.of_nat table_size < uint32_modulus)%Z ->
  Forall (fun v => (0 <= v < Z.of_nat table_size)%Z /\ v <> uint32_sentinel) (cells M) /\
  forall (V : Type) (matrix_ll2ra : DataArray Z) (grid : list (float V)),
    incl (values matrix_ll2ra) (cells M) ->
    length grid = table_size ->
    ll2ra matrix_ll2ra grid
    = Ok (map (fun v => nth (Z.to_nat v) grid None) (values matrix_ll2ra)).
Proof.
  intros H table_size Hfit.
  assert (Hall : Forall (fun v => (0 <= v < Z.of_nat table_size)%Z /\ v <> uint32_sentinel)
                        (cells M)).
  { apply Forall_forall. intros v Hv.
    pose proof (matrix_ra_blocks_labels _ _ _ _ _ _ H v Hv) as Hl. split.
    - apply trans_idx_valid. exact Hl.
    - eapply trans_idx_not_sentinel; eauto. }
  split; [exact Hall | ].
  intros V matrix_ll2ra grid Hincl Hlen. apply ll2ra_all_valid.
  rewrite Hlen. apply Forall_forall. intros v Hv.
  rewrite Forall_forall in Hall. apply Hall. apply Hincl. exact Hv.
Qed.

End NoSentinel.

Lemma inverse_matrix_never_sentinel_witness :
  matrix_ra_blocks Scene.self (Some "1"%string) ([2], [1; 1]) [0; 1]%Q [0; 1]%Q
  = Ok [[[[0]; [2]]; [[1]; [1]]]]%Z /\
  Forall (fun v => (0 <= v < 4)%Z /\ v <> uint32_sentinel) [0; 2; 1; 1]%Z /\
  ll2ra Scene.intf_ll2ra [Some 1; Some 0; Some 1; Some 0]%Z
  = Ok [Some 1; Some 0; Some 1; Some 0]%Z.
Proof.
  assert (Hrun : matrix_ra_blocks Scene.self (Some "1"%string) ([2], [1; 1])
                                  [0; 1]%Q [0; 1]%Q
                 = Ok [[[[0]; [2]]; [[1]; [1]]]]%Z)
    by (vm_compute; reflexivity).
  destruct (inverse_matrix_never_sentinel _ _ _ _ _ _ Hrun ltac:(vm_compute; reflexivity))
    as [Hall Hll2ra].
  split; [exact Hrun | split; [exact Hall | ]].
  apply (Hll2ra Z Scene.intf_ll2ra).
  - intros v Hv. cbv in Hv |- *. tauto.
  - reflexivity.
Defined.

(** ** C1: the round trip *)


(** *** Cells of a chunked axis and of a chunked matrix *)





(** A cell of a rectangular array, by its flat position. *)
Lemma nth_error_flatten {B} (a : array2 B) (w i j : nat) (row : list B) :
  Forall (fun r => length r = w) a ->
  nth_error a i = Some row -> j < w ->
  nth_error (flatten a) (i * w + j) = nth_error row j.
Proof.
  unfold flatten. intro H. revert i. induction H as [ | r a Hr _ IH]; intros i Hi Hj.
  - destruct i; discriminate.
  - destruct i as [ | i]; simpl in *.
    + inversion Hi; subst row. apply nth_error_app1. lia.
    + rewrite nth_error_app2 by lia.
      replace (w + i * w + j - length r) with (i * w + j) by lia.
      apply IH; assumption.
Qed.




Lemma Forall2_same_length_width {B C} (a : array2 B) (b : array2 C) (w : nat) :
  Forall2 same_length a b -> Forall (fun r => length r = w) a ->
  Forall (fun r => length r = w) b.
Proof.
  induction 1 as [ | r r' a b Hr _ IH]; intro H; constructor; inversion H; subst.
  - apply same_length_iff in Hr. congruence.
  - apply IH. assumption.
Qed.

Lemma azis_block_width (yp xp : list Q) :
  Forall (fun r => length r = length xp) (azis_block yp xp).
Proof.
  apply Forall_forall. intros r Hr. apply in_map_iff in Hr.
  destruct Hr as (y & <- & _). apply length_map.
Qed.


Lemma blocks_same_shape (yp xp : list Q) :
  same_shape (azis_block yp xp) (rngs_block yp xp) = true.
Proof.
  apply same_shape_iff. unfold azis_block, rngs_block.
  induction yp as [ | y yp IH]; simpl; constructor; [ | exact IH].
  apply same_length_iff. apply length_map.
Qed.

Section RoundTrip.
Context `{kd : cKDTree}.



End RoundTrip.

(** *** A label names the table cell it was gathered with *)

Lemma map_fst_combine {B C} (l : list B) (l' : list C) :
  length l = length l' -> map fst (combine l l') = l.
Proof.
  revert l'. induction l as [ | a l IH]; intros [ | a' l'] H; simpl in *;
    try discriminate; [reflexivity | ].
  f_equal. apply IH. lia.
Qed.

Lemma map_snd_combine {B C} (l : list B) (l' : list C) :
  length l = length l' -> map snd (combine l l') = l'.
Proof.
  revert l'. induction l as [ | a l IH]; intros [ | a' l'] H; simpl in *;
    try discriminate; [reflexivity | ].
  f_equal. apply IH. lia.
Qed.

Lemma zip2_fst {B C} (a : array2 B) (b : array2 C) :
  Forall2 same_length a b -> map (map fst) (zip2 a b) = a.
Proof.
  unfold zip2. induction 1 as [ | r r' a b Hr _ IH]; simpl; [reflexivity | ].
  rewrite IH. f_equal. apply map_fst_combine. apply same_length_iff. exact Hr.
Qed.

Lemma zip2_snd {B C} (a : array2 B) (b : array2 C) :
  Forall2 same_length a b -> map (map snd) (zip2 a b) = b.
Proof.
  unfold zip2. induction 1 as [ | r r' a b Hr _ IH]; simpl; [reflexivity | ].
  rewrite IH. f_equal. apply map_snd_combine. apply same_length_iff. exact Hr.
Qed.

Lemma zip2_same_length {B C} (a : array2 B) (b : array2 C) :
  Forall2 same_length a b -> Forall2 same_length a (zip2 a b).
Proof.
  unfold zip2. induction 1 as [ | r r' a b Hr _ IH]; simpl; constructor; [ | exact IH].
  apply same_length_iff. apply same_length_iff in Hr.
  cbn [fst snd]. rewrite length_combine. lia.
Qed.

Lemma split_chunks_map {B C} (g : B -> C) (sizes : list nat) (l : list B) :
  split_chunks sizes (map g l) = map (map g) (split_chunks sizes l).
Proof.
  revert l. induction sizes as [ | n sizes IH]; intro l; simpl; [reflexivity | ].
  rewrite firstn_map, skipn_map, IH. reflexivity.
Qed.

(** Cutting a block commutes with a cell-wise function. *)
Lemma block_map {B C} (f : B -> C) (chunks : list nat * list nat) (a : array2 B)
      (iy ix : Z) :
  block chunks (map (map f) a) iy ix
  = match block chunks a iy ix with
    | Ok b => Ok (map (map f) b)
    | Raise e => Raise e
    end.
Proof.
  unfold block.
  destruct (py_index (length (fst chunks)) iy) as [ky | e]; [ | reflexivity].
  destruct (py_index (length (snd chunks)) ix) as [kx | e]; [ | reflexivity].
  cbn [bind]. f_equal.
  rewrite split_chunks_map.
  change (@nil (list C)) with (map (map f) (@nil (list B))) at 1.
  rewrite map_nth, !map_map.
  apply map_ext. intro row.
  rewrite split_chunks_map.
  change (@nil C) with (map f (@nil B)) at 1.
  rewrite map_nth. reflexivity.
Qed.

Lemma flatten_map {B C} (f : B -> C) (a : array2 B) :
  flatten (map (map f) a) = map f (flatten a).
Proof. unfold flatten. rewrite concat_map. reflexivity. Qed.

Lemma flatten_zip2 {B C} (a : array2 B) (b : array2 C) :
  Forall2 same_length a b -> flatten (zip2 a b) = combine (flatten a) (flatten b).
Proof.
  unfold flatten, zip2. induction 1 as [ | r r' a b Hr _ IH]; simpl; [reflexivity | ].
  rewrite IH. cbn [fst snd]. apply same_length_iff in Hr. clear IH.
  revert r' Hr. induction r as [ | v r IHr]; intros [ | v' r'] Hr; simpl in *;
    try discriminate; [reflexivity | ].
  f_equal. apply IHr. lia.
Qed.

Lemma In_combine_nth_error {B C} (l : list B) (l' : list C) (b : B) (c : C) :
  In (b, c) (combine l l') ->
  exists k, nth_error l k = Some b /\ nth_error l' k = Some c.
Proof.
  revert l'. induction l as [ | a l IH]; intros [ | a' l']; simpl; try tauto.
  intros [E | H].
  - inversion E; subst. exists 0. split; reflexivity.
  - destruct (IH _ H) as (k & H1 & H2). exists (S k). split; assumption.
Qed.

Lemma to_uint32_idem (z : Z) : to_uint32 (to_uint32 z * 1) = to_uint32 z.
Proof.
  rewrite Z.mul_1_r. unfold to_uint32. apply Z.mod_mod. discriminate.
Qed.

Lemma flatten_trans_idx (like : array2 Q) :
  flatten (trans_idx_of like)
  = map (fun k => to_uint32 (Z.of_nat k)) (seq 0 (length (flatten like))).
Proof.
  unfold trans_idx_of. rewrite flatten_reshape_like.
  - apply map_ext. intro k. apply to_uint32_idem.
  - rewrite length_map, length_seq. reflexivity.
Qed.

Lemma Forall2_same_length_sym {B C} (a : array2 B) (b : array2 C) :
  Forall2 same_length a b -> Forall2 same_length b a.
Proof.
  induction 1 as [ | r r' a b Hr _ IH]; constructor; [ | exact IH].
  apply same_length_iff. apply same_length_iff in Hr. congruence.
Qed.

Lemma nth_error_combine_inv {B C} (l : list B) (l' : list C) (k : nat) (b : B) (c : C) :
  nth_error (combine l l') k = Some (b, c) ->
  nth_error l k = Some b /\ nth_error l' k = Some c.
Proof.
  revert l' k. induction l as [ | a l IH]; intros [ | a' l'] [ | k]; simpl;
    try discriminate.
  - intro E. inversion E. split; reflexivity.
  - apply IH.
Qed.

Lemma trans_idx_shape (td : TransDat) :
  wf_TransDat td -> Forall2 same_length (azi td) (trans_idx_of (ll td)).
Proof.
  intros [_ Hll]. apply same_shape_iff in Hll.
  apply (Forall2_same_length_trans _ _ _ Hll).
  unfold trans_idx_of. apply reshape_like_shape.
  rewrite length_map, length_seq. apply Nat.le_refl.
Qed.

(** The i-th azimuth, range and label read from a block belong to one cell
    of the table, and the label is that cell's position, in 32 bits. *)
Lemma read_block_cells (td : TransDat) (e : extent) (p : list Q * list Q * list Z) :
  wf_TransDat td -> read_block td e = Ok p ->
  forall i y x label,
    nth_error (fst (fst p)) i = Some y -> nth_error (snd (fst p)) i = Some x ->
    nth_error (snd p) i = Some label ->
    exists k, nth_error (flatten (azi td)) k = Some y /\
              nth_error (flatten (rng td)) k = Some x /\
              label = to_uint32 (Z.of_nat k).
Proof.
  intros Hwf H i y x label Hy Hx Hl.
  pose proof (trans_idx_shape td Hwf) as Hidx.
  destruct Hwf as [Hrng _]. apply same_shape_iff in Hrng.
  set (idx := trans_idx_of (ll td)) in *.
  set (T := zip2 (zip2 (azi td) (rng td)) idx).
  assert (HT : Forall2 same_length (zip2 (azi td) (rng td)) idx).
  { eapply Forall2_same_length_trans; [ | exact Hidx].
    apply Forall2_same_length_sym. apply zip2_same_length. exact Hrng. }
  assert (Ea : azi td = map (map (fun t => fst (fst t))) T).
  { transitivity (map (map fst) (map (map fst) T)).
    - unfold T. rewrite (zip2_fst _ _ HT). symmetry. apply zip2_fst. exact Hrng.
    - rewrite map_map. apply map_ext. intro r. apply map_map. }
  assert (Er : rng td = map (map (fun t => snd (fst t))) T).
  { transitivity (map (map snd) (map (map fst) T)).
    - unfold T. rewrite (zip2_fst _ _ HT). symmetry. apply zip2_snd. exact Hrng.
    - rewrite map_map. apply map_ext. intro r. apply map_map. }
  assert (Ei : idx = map (map snd) T) by (symmetry; apply zip2_snd; exact HT).
  unfold read_block in H. fold idx in H. rewrite Ea, Er, Ei, !block_map in H.
  destruct (block (chunks td) T (Qtrunc (e_iy e)) (Qtrunc (e_ix e))) as [bT | err] eqn:EbT;
    [ | discriminate].
  cbn [bind] in H. inversion H; subst p. cbn [fst snd] in Hy, Hx, Hl.
  rewrite flatten_map, nth_error_map in Hy.
  rewrite flatten_map, nth_error_map in Hx.
  rewrite flatten_map, nth_error_map in Hl.
  destruct (nth_error (flatten bT) i) as [[[y' x'] l'] | ] eqn:Et; [ | discriminate].
  cbn [option_map fst snd] in Hy, Hx, Hl.
  inversion Hy; inversion Hx; inversion Hl; subst y' x' l'.
  apply nth_error_In in Et. apply (block_incl _ _ _ _ _ EbT) in Et.
  unfold T in Et. rewrite flatten_zip2 in Et by exact HT.
  rewrite flatten_zip2 in Et by exact Hrng.
  apply In_combine_nth_error in Et. destruct Et as (k & Hk & Hlk).
  apply nth_error_combine_inv in Hk. destruct Hk as [Hky Hkx].
  exists k. split; [exact Hky | split; [exact Hkx | ]].
  unfold idx in Hlk. rewrite flatten_trans_idx, nth_error_map in Hlk.
  destruct (nth_error (seq 0 (length (flatten (ll td)))) k) as [k' | ] eqn:Ek;
    [ | discriminate].
  apply nth_error_In in Ek as Hin. apply in_seq in Hin.
  rewrite nth_error_seq in Ek.
  destruct (k <? length (flatten (ll td))); [ | discriminate].
  inversion Ek; subst k'. cbn [option_map] in Hlk. inversion Hlk. reflexivity.
Qed.

Lemma gathered_cells (td : TransDat) (es : list extent)
      (parts : list (list Q * list Q * list Z)) :
  wf_TransDat td -> mapM (read_block td) es = Ok parts ->
  forall i p label,
    nth_error (combine (gathered_azis parts) (gathered_rngs parts)) i = Some p ->
    nth_error (gathered_idxs parts) i = Some label ->
    exists k, nth_error (flatten (azi td)) k = Some (fst p) /\
              nth_error (flatten (rng td)) k = Some (snd p) /\
              label = to_uint32 (Z.of_nat k).
Proof.
  intros Hwf H. apply mapM_ok in H.
  unfold gathered_azis, gathered_rngs, gathered_idxs.
  induction H as [ | e part es parts Hpart _ IH]; intros i [y x] label Hp Hl; simpl in *.
  - destruct i; discriminate.
  - destruct (read_block_lengths td e part Hwf Hpart) as [Hli Hlr].
    apply nth_error_combine_inv in Hp. destruct Hp as [Hy Hx].
    destruct (Nat.lt_ge_cases i (length (fst (fst part)))) as [Hlt | Hge].
    + rewrite nth_error_app1 in Hy by exact Hlt.
      rewrite nth_error_app1 in Hx by lia.
      rewrite nth_error_app1 in Hl by lia.
      exact (read_block_cells td e part Hwf Hpart i y x label Hy Hx Hl).
    + rewrite nth_error_app2 in Hy by exact Hge.
      rewrite nth_error_app2 in Hx by lia.
      rewrite nth_error_app2 in Hl by lia.
      rewrite <- Hlr in Hx. rewrite <- Hli in Hl.
      apply (IH (i - length (fst (fst part))) (y, x) label); [ | exact Hl].
      apply combine_nth_error; assumption.
Qed.

Lemma locate_total (sizes : list nat) (i : nat) :
  i < list_sum sizes -> exists b o, locate sizes i = Some (b, o).
Proof.
  revert i. induction sizes as [ | n sizes IH]; intros i H; simpl in *; [lia | ].
  destruct (i <? n) eqn:E; [eauto | ].
  apply Nat.ltb_ge in E. destruct (IH (i - n)) as (b & o & ->); [lia | eauto].
Qed.

Section CellExists.
Context `{kd : cKDTree}.

Lemma calc_shape (td : TransDat) (extents : list extent) (azi rng : array2 Q)
      (B : array2 Z) :
  calc_intf_ll2ra_matrix td extents azi rng = Ok B -> Forall2 same_length azi B.
Proof.
  intro H. apply calc_intf_ll2ra_matrix_ok in H.
  destruct H as (ymin & ymax & xmin & xmax & parts & matrix
                 & _ & _ & _ & _ & _ & _ & _ & _ & Hlt & Htake & ->).
  apply reshape_like_shape.
  apply py_take_nth in Htake. destruct Htake as [-> _].
  rewrite length_map. etransitivity; [ | apply Nat.eq_le_incl; symmetry; apply length_combine].
  lia.
Qed.


End CellExists.

Section RoundTripBound.
Context `{kd : cKDTree}.
Variable A : Type.


End RoundTripBound.


(** ** C10: where the largest 32-bit value does occur *)

Section WideTable.
Context `{kd : cKDTree}.
Variable p : nat.

(** The table of [Wide] is well formed, and its one block is read whole. *)
Lemma wide_wf : wf_TransDat (Wide.trans_dat p).
Proof.
  split; apply same_shape_iff; repeat constructor; apply same_length_iff;
    rewrite !length_app, !repeat_length; reflexivity.
Qed.

Lemma wide_block {B} (row : list B) :
  length row = S p -> block ([1], [S p]) [row] 0 0 = Ok [row].
Proof.
  intro H. unfold block. cbn [fst snd length].
  change (py_index 1 0) with (Ok (A := nat) 0). cbn [bind].
  cbn [split_chunks map nth].
  change (firstn 1 [row]) with [row]. cbn [map].
  rewrite <- H, firstn_all. reflexivity.
Qed.

Lemma wide_read_block :
  exists idxs,
    read_block (Wide.trans_dat p) (mkExtent 0 0 0 5 0 0)%Q
    = Ok (repeat 5%Q p ++ [0%Q], repeat 0%Q p ++ [0%Q], idxs).
Proof.
  pose proof (trans_idx_shape _ wide_wf) as Hidx.
  unfold read_block.
  set (idx := trans_idx_of (ll (Wide.trans_dat p))) in *. clearbody idx.
  cbn [Wide.trans_dat chunks azi rng e_iy e_ix] in *.
  change (Qtrunc 0) with 0%Z.
  inversion Hidx as [ | a r l l' Hr Hnil E1 E2]. inversion Hnil; subst.
  apply same_length_iff in Hr.
  rewrite !wide_block.
  - cbn [bind flatten concat]. rewrite !app_nil_r. eexists. reflexivity.
  - rewrite <- Hr, length_app, repeat_length. simpl. lia.
  - rewrite length_app, repeat_length. simpl. lia.
  - rewrite length_app, repeat_length. simpl. lia.
Qed.

(** A gathered point at distance zero from (0, 0) is the last cell. *)
Lemma wide_last (k : nat) (y : Q) :
  nth_error (repeat 5%Q p ++ [0%Q]) k = Some y -> (y ^ 2 <= 0)%Q -> k = p.
Proof.
  intros Hk Hy. destruct (Nat.lt_ge_cases k p) as [Hlt | Hge].
  - rewrite nth_error_app1 in Hk by (rewrite repeat_length; exact Hlt).
    rewrite nth_error_repeat in Hk by exact Hlt. inversion Hk; subst y.
    exfalso. revert Hy. vm_compute. intro H. apply H. reflexivity.
  - assert (Hlen : k < S p).
    { apply nth_error_lt in Hk. rewrite length_app, repeat_length in Hk. simpl in Hk. lia. }
    lia.
Qed.

(** The single radar cell gets the label of the last cell of the table. *)
Lemma wide_matrix :
  matrix_ra_blocks (Wide.self p) None ([1], [1]) [0%Q] [0%Q]
  = Ok [[[[to_uint32 (Z.of_nat p)]]]].
Proof.
  destruct wide_read_block as [idxs Hread].
  set (td := Wide.trans_dat p) in *.
  set (e := mkExtent 0 0 0 5 0 0) in *.
  set (parts := [(repeat 5%Q p ++ [0%Q], repeat 0%Q p ++ [0%Q], idxs)]).
  assert (Hparts : mapM (read_block td) (filter (block_selected 0 0 0 0) [e]) = Ok parts).
  { change (filter (block_selected 0 0 0 0) [e]) with [e].
    cbn [mapM]. rewrite Hread. reflexivity. }
  destruct (calc_nearest_cells td [e] (azis_block [0%Q] [0%Q]) (rngs_block [0%Q] [0%Q])
              0%Q 0%Q 0%Q 0%Q parts wide_wf eq_refl eq_refl eq_refl eq_refl eq_refl Hparts)
    as (M & HM & Hlen & Hcells).
  { unfold parts, gathered_azis. cbn [map concat fst]. rewrite app_nil_r.
    destruct (repeat 5%Q p); discriminate. }
  destruct (Hcells 0 0%Q 0%Q eq_refl eq_refl) as (i & q & label & Hq & Hlabel & Hcell & Hnear).
  clear Hcells.
  destruct (gathered_cells td _ parts wide_wf Hparts i q label Hq Hlabel)
    as (k & Hk & _ & Hk').
  assert (Hlast : nth_error (combine (gathered_azis parts) (gathered_rngs parts)) p
                  = Some (0, 0)%Q).
  { unfold parts, gathered_azis, gathered_rngs. cbn [map concat fst snd].
    rewrite !app_nil_r.
    apply combine_nth_error;
      rewrite nth_error_app2, repeat_length, Nat.sub_diag
        by (rewrite repeat_length; apply Nat.le_refl); reflexivity. }
  specialize (Hnear _ (nth_error_In _ _ Hlast)).
  assert (Hy : (fst q ^ 2 <= 0)%Q).
  { unfold sqdist in Hnear. cbn [fst snd] in Hnear.
    pose proof (Qsquare_nonneg (snd q - 0)) as Hs.
    assert (E : ((fst q - 0) ^ 2 == fst q ^ 2)%Q) by ring.
    assert (E0 : ((0 - 0) ^ 2 + (0 - 0) ^ 2 == 0)%Q) by reflexivity.
    rewrite E0 in Hnear. rewrite <- E. lra. }
  unfold td in Hk. cbn [Wide.trans_dat azi flatten concat] in Hk.
  rewrite app_nil_r in Hk.
  pose proof (wide_last k (fst q) Hk Hy) as Ek. subst k label.
  pose proof HM as Hok. apply calc_intf_ll2ra_matrix_ok in Hok.
  destruct Hok as (ymin & ymax & xmin & xmax & parts' & matrix
                   & _ & _ & _ & _ & _ & _ & _ & _ & _ & Htake & HMeq).
  apply py_take_nth in Htake. destruct Htake as [Hlm _].
  cbn in Hlm. destruct matrix as [ | m0 [ | m1 matrix]]; try discriminate.
  cbn in HMeq. subst M. cbn in Hcell. inversion Hcell; subst m0.
  unfold matrix_ra_blocks.
  cbn [Wide.self get_trans_dat get_trans_dat_blocks_extents fst snd split_chunks].
  change (firstn 1 [0%Q]) with [0%Q]. cbn [mapM].
  fold td. fold e. rewrite HM. reflexivity.
Qed.

(** With that label being the largest 32-bit value, [ll2ra] yields
    not-a-number where the layer holds a value. *)
Lemma wide_ll2ra {V} (v : V) :
  Z.of_nat p = uint32_sentinel ->
  ll2ra Wide.intf_ll2ra (repeat (Some v) (S p)) = Ok [None].
Proof.
  intro HP.
  assert (Hg : py_getitem (repeat (Some v) (S p)) uint32_sentinel = Ok (Some v)).
  { rewrite <- HP. apply py_getitem_nat. apply nth_error_repeat. lia. }
  unfold ll2ra, py_take. cbn [Wide.intf_ll2ra values mapM]. unfold float in *. rewrite Hg.
  cbn [bind combine map fst snd]. rewrite Z.eqb_refl. reflexivity.
Qed.

End WideTable.

(** C10 fails as worded, twice.  Over a translation table of exactly 2^32
    cells whose last cell is the one nearest to the radar cell, the matrix
    [intf_ll2ra_matrix] computes holds the label of that cell, 2^32 - 1,
    the largest 32-bit value; [ll2ra] then yields not-a-number for a layer
    that holds 1 everywhere.  And over the small scene, the file the call
    leaves on disk, before the delayed write has run, holds the largest
    32-bit value in each of its four cells. *)
Lemma inverse_matrix_sentinel_counterexample :
  (Z.of_nat (length (flatten (ll (Wide.trans_dat (Z.to_nat uint32_sentinel)))))
   = uint32_modulus /\
   intf_ll2ra_matrix (Wide.self (Z.to_nat uint32_sentinel)) None Wide.intf_grid
                     ([1], [1]) true
   = Ok (ReturnsArray (Ok [[[[uint32_sentinel]]]])) /\
   ll2ra Wide.intf_ll2ra (repeat (Some 1%Z) (S (Z.to_nat uint32_sentinel)))
   = Ok [None]) /\
  exists fs_now handler pending,
    intf_ll2ra_matrix Scene.self (Some "1"%string) Scene.intf_grids ([2], [1; 1]) false
    = Ok (ReturnsHandler fs_now handler) /\
    fs_now (intf_ll2ra_file Scene.self "1") = Some pending /\
    values pending = repeat uint32_sentinel 4.
Proof.
  assert (HP : Z.of_nat (Z.to_nat uint32_sentinel) = uint32_sentinel)
    by (apply Z2Nat.id; vm_compute; discriminate).
  split; [split; [ | split] | ].
  - cbn [Wide.trans_dat ll flatten concat].
    rewrite app_nil_r, length_app, repeat_length. cbn [length].
    rewrite Nat.add_1_r, Nat2Z.inj_succ, HP. reflexivity.
  - unfold intf_ll2ra_matrix.
    change (coord Wide.intf_grid "y") with (Ok [0%Q]).
    change (coord Wide.intf_grid "x") with (Ok [0%Q]). cbn [bind].
    rewrite wide_matrix, HP. reflexivity.
  - apply wide_ll2ra. exact HP.
  - eexists. eexists. eexists. split; [reflexivity | split; reflexivity].
Qed.

(** * Further properties *)

(** ** The forward build: matching, grid, failures *)

Lemma py_getitem_raises {B} (a : list B) (i : Z) (e : exn) :
  py_getitem a i = Raise e -> e = IndexError.
Proof.
  unfold py_getitem, py_index.
  destruct ((0 <=? i)%Z && (i <? Z.of_nat (length a))%Z); simpl.
  - destruct (nth_error a (Z.to_nat i)); intro H; inversion H; reflexivity.
  - destruct ((- Z.of_nat (length a) <=? i)%Z && (i <? 0)%Z); simpl.
    + destruct (nth_error a (Z.to_nat (Z.of_nat (length a) + i))); intro H;
        inversion H; reflexivity.
    + intro H; inversion H; reflexivity.
Qed.

Lemma py_getitem_out_of_range {B} (a : list B) (i : Z) :
  (Z.of_nat (length a) <= i \/ i < - Z.of_nat (length a))%Z ->
  py_getitem a i = Raise IndexError.
Proof.
  intro H. unfold py_getitem, py_index.
  replace ((0 <=? i)%Z && (i <? Z.of_nat (length a))%Z) with false.
  - replace ((- Z.of_nat (length a) <=? i)%Z && (i <? 0)%Z) with false; [reflexivity | ].
    symmetry. apply andb_false_iff. destruct H as [H | H].
    + right. apply Z.ltb_ge. lia.
    + left. apply Z.leb_gt. lia.
  - symmetry. apply andb_false_iff. destruct H as [H | H].
    + right. apply Z.ltb_ge. lia.
    + left. apply Z.leb_gt. lia.
Qed.

Lemma py_getitem_in_range {B} (a : list B) (i : Z) :
  (- Z.of_nat (length a) <= i < Z.of_nat (length a))%Z ->
  exists v, py_getitem a i = Ok v.
Proof.
  intro H. unfold py_getitem, py_index.
  destruct (Z.ltb_spec i 0) as [Hn | Hp].
  - replace ((0 <=? i)%Z && (i <? Z.of_nat (length a))%Z) with false
      by (symmetry; apply andb_false_iff; left; apply Z.leb_gt; lia).
    replace ((- Z.of_nat (length a) <=? i)%Z) with true by (symmetry; apply Z.leb_le; lia).
    replace (i <? 0)%Z with true by (symmetry; apply Z.ltb_lt; lia).
    cbn [andb bind].
    destruct (nth_error a (Z.to_nat (Z.of_nat (length a) + i))) as [v | ] eqn:En;
      [eauto | ].
    apply nth_error_None in En. lia.
  - replace ((0 <=? i)%Z) with true by (symmetry; apply Z.leb_le; lia).
    replace (i <? Z.of_nat (length a))%Z with true by (symmetry; apply Z.ltb_lt; lia).
    cbn [andb bind].
    destruct (nth_error a (Z.to_nat i)) as [v | ] eqn:En; [eauto | ].
    apply nth_error_None in En. lia.
Qed.

(** A gather fails as soon as one index is out of range. *)
Lemma py_take_raises {B} (a : list B) (idx : list Z) (i : Z) :
  In i idx -> py_getitem a i = Raise IndexError -> py_take a idx = Raise IndexError.
Proof.
  unfold py_take. induction idx as [ | j idx IH]; intros Hin Hi; [destruct Hin | ].
  simpl. destruct (py_getitem a j) as [v | e] eqn:Ej; simpl.
  - destruct Hin as [-> | Hin]; [congruence | ].
    rewrite (IH Hin Hi). reflexivity.
  - apply py_getitem_raises in Ej. subst e. reflexivity.
Qed.

Lemma py_take_total {B} (a : list B) (idx : list Z) :
  Forall (fun i => (- Z.of_nat (length a) <= i < Z.of_nat (length a))%Z) idx ->
  exists g, py_take a idx = Ok g.
Proof.
  intro H. apply mapM_total. intros i Hi. rewrite Forall_forall in H.
  apply py_getitem_in_range. apply H. exact Hi.
Qed.

Section ForwardBuild.
Context `{kd : cKDTree}.
Variable A : Type.

(** A point with a centre inside the bound is matched. *)
Lemma assigned_hit (data : list point) (ub : option limit) (x q : point) :
  In q data -> within (sqdist q x) ub = true -> (0 <= assigned data ub x)%Z.
Proof.
  intros Hq Hw. unfold assigned. destruct (query data x ub) as [d i] eqn:E. simpl.
  destruct d as [sq | ]; simpl; [lia | exfalso].
  destruct (query_inf _ _ _ E eq_refl) as [_ Hall].
  rewrite (Hall q Hq) in Hw. discriminate.
Qed.

(** X1.  A cell of the full-area matrix that stands for a translation-table
    point with some radar cell centre no farther than half the cell
    diagonal (the tolerance less its slack of 1e-2) is matched: the forward
    matrix holds there the flat index of a centre that is nearest to the
    point and no farther than half the cell diagonal. *)
Theorem forward_match_in_tolerance (self : SBAS) (subswath : string)
        (intf_grids : DataArray A) (n : nat) (F trans_ra2ll : DataArray Z)
        (ys xs : list Q) (dy dx : Q) (c t : nat) (rt : trans_row) (q : point) :
  build_intf_ra2ll self subswath intf_grids = Ok (n, F) ->
  open_dataarray (fs self) (trans_ra2ll_file self subswath) = Ok trans_ra2ll ->
  coord intf_grids "y" = Ok ys -> coord intf_grids "x" = Ok xs ->
  first_diff ys = Ok dy -> first_diff xs = Ok dx ->
  nth_error (values trans_ra2ll) c = Some (Z.of_nat t) ->
  nth_error (rows (get_trans_dat self (Some subswath))) t = Some rt ->
  In q (broadcast_yx ys xs) ->
  (sqdist q (row_yx rt) <= (dx / 2) ^ 2 + (dy / 2) ^ 2)%Q ->
  exists r centre,
    nth_error (values F) c = Some r /\
    (0 <= r < Z.of_nat (length ys * length xs))%Z /\
    nth_error (broadcast_yx ys xs) (Z.to_nat r) = Some centre /\
    (sqdist centre (row_yx rt) <= (dx / 2) ^ 2 + (dy / 2) ^ 2)%Q /\
    forall q', In q' (broadcast_yx ys xs) ->
               (sqdist centre (row_yx rt) <= sqdist q' (row_yx rt))%Q.
Proof.
  intros Hb Htr Hys Hxs Hdy Hdx Hc Hrt Hq Hmargin.
  assert (Hin : lt_limit (sqdist q (row_yx rt)) (distance_limit dx dy) = true).
  { apply lt_limit_iff. left. unfold distance_limit. cbn [radicand slack].
    assert (Hs : ((1 # 100) ^ 2 == 1 # 10000)%Q) by reflexivity.
    rewrite Hs. lra. }
  pose proof Hb as Hb0.
  apply build_intf_ra2ll_ok in Hb.
  destruct Hb as (tr & ys' & xs' & dy' & dx' & gathered
                  & _ & Htr' & Hys' & Hxs' & Hdy' & Hdx' & Hg & HF).
  rewrite Htr in Htr'. rewrite Hys in Hys'. rewrite Hxs in Hxs'.
  inversion Htr'; inversion Hys'; inversion Hxs'; subst tr ys' xs'.
  rewrite Hdy in Hdy'. rewrite Hdx in Hdx'.
  inversion Hdy'; inversion Hdx'; subst dy' dx'.
  apply py_take_nth in Hg. destruct Hg as [Hlen Hg].
  destruct (Hg c _ Hc) as (r & Hr & Hget).
  rewrite py_getitem_nat
    with (v := assigned (broadcast_yx ys xs) (Some (distance_limit dx dy)) (row_yx rt))
    in Hget.
  2:{ rewrite intf2trans_assigned, nth_error_map, nth_error_map, Hrt. reflexivity. }
  inversion Hget as [Hr'].
  assert (H0 : (0 <= r)%Z).
  { rewrite <- Hr'. apply (assigned_hit _ _ _ q Hq). exact Hin. }
  assert (HFc : nth_error (values F) c = Some r).
  { rewrite HF. cbn [values]. apply (where_nonneg_spec _ _ (eq_sym Hlen)).
    exists (Z.of_nat t), r. split; [exact Hc | split; [exact Hr | ]].
    replace (0 <=? Z.of_nat t)%Z with true by (symmetry; apply Z.leb_le; lia).
    reflexivity. }
  destruct (assigned_near _ _ _ r Hr' H0) as (centre & Hcentre & Hw & Hnear).
  exists r, centre. split; [exact HFc | split; [ | split; [exact Hcentre | split]]].
  - split; [exact H0 | ]. apply nth_error_lt in Hcentre.
    rewrite length_broadcast_yx in Hcentre. lia.
  - apply Qle_trans with (2 := Hmargin). apply Hnear. exact Hq.
  - exact Hnear.
Qed.

(** X2.  The forward matrix lives on the grid of the full-area matrix: it
    is named [intf_ra2ll], has the dimensions, shape, coordinates and cell
    count of [trans_ra2ll], and a cell where the full-area matrix is
    negative holds -1. *)
Theorem forward_matrix_on_full_area_grid (self : SBAS) (subswath : string)
        (intf_grids : DataArray A) (n : nat) (F trans_ra2ll : DataArray Z) :
  build_intf_ra2ll self subswath intf_grids = Ok (n, F) ->
  open_dataarray (fs self) (trans_ra2ll_file self subswath) = Ok trans_ra2ll ->
  name F = "intf_ra2ll"%string /\
  dims F = dims trans_ra2ll /\ shape F = shape trans_ra2ll /\
  coords F = coords trans_ra2ll /\
  length (values F) = length (values trans_ra2ll) /\
  forall c t, nth_error (values trans_ra2ll) c = Some t -> (t < 0)%Z ->
              nth_error (values F) c = Some (-1)%Z.
Proof.
  intros Hb Htr. apply build_intf_ra2ll_ok in Hb.
  destruct Hb as (tr & ys & xs & dy & dx & gathered
                  & _ & Htr' & _ & _ & _ & _ & Hg & ->).
  rewrite Htr in Htr'. inversion Htr'; subst tr. cbn [name dims shape coords values].
  apply py_take_nth in Hg. destruct Hg as [Hlen Hg].
  repeat (split; [reflexivity | ]). split.
  - unfold where_nonneg. rewrite length_map, length_combine. lia.
  - intros c t Hc Ht. apply (where_nonneg_spec _ _ (eq_sym Hlen)).
    destruct (Hg c t Hc) as (g & Hgc & _).
    exists t, g. split; [exact Hc | split; [exact Hgc | ]].
    replace (0 <=? t)%Z with false by (symmetry; apply Z.leb_gt; lia). reflexivity.
Qed.

(** X3.  An empty translation table makes the build fail with
    [ValueError], whatever else is given: the reduction over [pair] fails
    with it, or else the minimum of the empty longitude column does. *)
Theorem forward_build_empty_table (self : SBAS) (subswath : string)
        (intf_grids : DataArray A) :
  rows (get_trans_dat self (Some subswath)) = [] ->
  intf_ra2ll_matrix self subswath intf_grids = Raise ValueError.
Proof.
  intro H. unfold intf_ra2ll_matrix, build_intf_ra2ll, min_size. rewrite H.
  destruct (drop_dim "pair" (dims intf_grids) (shape intf_grids)) as [[ds sh] | ];
    reflexivity.
Qed.

Lemma q_min_cons (a : Q) (l : list Q) : exists m, q_min (a :: l) = Ok m.
Proof. simpl. eauto. Qed.

Lemma q_max_cons (a : Q) (l : list Q) : exists m, q_max (a :: l) = Ok m.
Proof. simpl. eauto. Qed.

(** The build up to the reading of the coordinates. *)
Lemma build_intf_ra2ll_steps (self : SBAS) (subswath : string)
      (intf_grids : DataArray A) (n : nat) (trans_ra2ll : DataArray Z)
      (ys xs : list Q) :
  min_size intf_grids "pair" = Ok n ->
  rows (get_trans_dat self (Some subswath)) <> [] ->
  open_dataarray (fs self) (trans_ra2ll_file self subswath) = Ok trans_ra2ll ->
  coord intf_grids "y" = Ok ys -> coord intf_grids "x" = Ok xs ->
  build_intf_ra2ll self subswath intf_grids =
  (dy <- first_diff ys ;;
   dx <- first_diff xs ;;
   gathered <- py_take (intf2trans (broadcast_yx ys xs)
                          (map row_yx (rows (get_trans_dat self (Some subswath))))
                          (distance_limit dx dy))
                       (values trans_ra2ll) ;;
   Ok (n, mkDA "intf_ra2ll" (dims trans_ra2ll) (shape trans_ra2ll) (coords trans_ra2ll)
               (labels trans_ra2ll) (attrs trans_ra2ll)
               (where_nonneg (values trans_ra2ll) gathered))).
Proof.
  intros Hn Hne Htr Hys Hxs. unfold build_intf_ra2ll.
  rewrite Hn. cbn [bind].
  destruct (rows (get_trans_dat self (Some subswath))) as [ | r0 trans] eqn:Er;
    [congruence | ].
  cbn [map q_min q_max bind]. rewrite Htr. cbn [bind]. rewrite Hys, Hxs. cbn [bind].
  reflexivity.
Qed.

(** X4.  A radar grid with a single row or a single column cannot be
    geocoded: the first step of that coordinate does not exist, and the
    build fails with [IndexError]. *)
Theorem forward_build_single_line (self : SBAS) (subswath : string)
        (intf_grids : DataArray A) (n : nat) (trans_ra2ll : DataArray Z)
        (ys xs : list Q) :
  min_size intf_grids "pair" = Ok n ->
  rows (get_trans_dat self (Some subswath)) <> [] ->
  open_dataarray (fs self) (trans_ra2ll_file self subswath) = Ok trans_ra2ll ->
  coord intf_grids "y" = Ok ys -> coord intf_grids "x" = Ok xs ->
  ys <> [] -> xs <> [] ->
  length ys = 1 \/ length xs = 1 ->
  intf_ra2ll_matrix self subswath intf_grids = Raise IndexError.
Proof.
  intros Hn Hne Htr Hys Hxs _ _ Hlen. unfold intf_ra2ll_matrix.
  rewrite (build_intf_ra2ll_steps _ _ _ _ _ _ _ Hn Hne Htr Hys Hxs).
  destruct ys as [ | y0 [ | y1 ys]]; try reflexivity.
  destruct xs as [ | x0 [ | x1 xs]]; try reflexivity.
  simpl in Hlen. lia.
Qed.

(** X5.  A full-area matrix that points outside the translation table (an
    entry at or beyond the table's length, or below minus that length)
    makes the build fail with [IndexError]: the gather of line 112 runs
    before the mask is applied. *)
Theorem forward_build_index_beyond_table (self : SBAS) (subswath : string)
        (intf_grids : DataArray A) (n : nat) (trans_ra2ll : DataArray Z)
        (ys xs : list Q) (dy dx : Q) (c : nat) (t : Z) :
  min_size intf_grids "pair" = Ok n ->
  rows (get_trans_dat self (Some subswath)) <> [] ->
  open_dataarray (fs self) (trans_ra2ll_file self subswath) = Ok trans_ra2ll ->
  coord intf_grids "y" = Ok ys -> coord intf_grids "x" = Ok xs ->
  first_diff ys = Ok dy -> first_diff xs = Ok dx ->
  nth_error (values trans_ra2ll) c = Some t ->
  let table_size := Z.of_nat (length (rows (get_trans_dat self (Some subswath)))) in
  (table_size <= t \/ t < - table_size)%Z ->
  intf_ra2ll_matrix self subswath intf_grids = Raise IndexError.
Proof.
  intros Hn Hne Htr Hys Hxs Hdy Hdx Hc table_size Ht. unfold intf_ra2ll_matrix.
  rewrite (build_intf_ra2ll_steps _ _ _ _ _ _ _ Hn Hne Htr Hys Hxs).
  rewrite Hdy, Hdx. cbn [bind].
  rewrite (py_take_raises _ _ t); [reflexivity | eapply nth_error_In; eauto | ].
  apply py_getitem_out_of_range.
  rewrite intf2trans_assigned, !length_map. exact Ht.
Qed.

End ForwardBuild.

Lemma forward_match_in_tolerance_witness :
  exists r centre,
    nth_error (values Scene.intf_ra2ll) 1 = Some r /\
    (0 <= r < Z.of_nat (length [0; 1]%Q * length [0; 1]%Q))%Z /\
    nth_error (broadcast_yx [0; 1]%Q [0; 1]%Q) (Z.to_nat r) = Some centre /\
    (sqdist centre (row_yx (mkRow 1 0 0 11 50)%Q) <= (1 / 2) ^ 2 + (1 / 2) ^ 2)%Q /\
    forall q', In q' (broadcast_yx [0; 1]%Q [0; 1]%Q) ->
               (sqdist centre (row_yx (mkRow 1 0 0 11 50)%Q)
                <= sqdist q' (row_yx (mkRow 1 0 0 11 50)%Q))%Q.
Proof.
  apply (forward_match_in_tolerance _ Scene.self "1" Scene.intf_grids 4 Scene.intf_ra2ll
           Scene.trans_ra2ll [0; 1]%Q [0; 1]%Q 1%Q 1%Q 1 1 (mkRow 1 0 0 11 50)%Q
           (0, 1)%Q);
    [ vm_compute; reflexivity | reflexivity | reflexivity | reflexivity
    | vm_compute; reflexivity | vm_compute; reflexivity | reflexivity | reflexivity
    | right; left; reflexivity | vm_compute; discriminate ].
Defined.

Lemma forward_matrix_on_full_area_grid_witness :
  name Scene.intf_ra2ll = "intf_ra2ll"%string /\
  dims Scene.intf_ra2ll = dims Scene.trans_ra2ll /\
  shape Scene.intf_ra2ll = shape Scene.trans_ra2ll /\
  coords Scene.intf_ra2ll = coords Scene.trans_ra2ll /\
  length (values Scene.intf_ra2ll) = length (values Scene.trans_ra2ll) /\
  forall c t, nth_error (values Scene.trans_ra2ll) c = Some t -> (t < 0)%Z ->
              nth_error (values Scene.intf_ra2ll) c = Some (-1)%Z.
Proof.
  apply (forward_matrix_on_full_area_grid _ Scene.self "1" Scene.intf_grids 4).
  - vm_compute. reflexivity.
  - reflexivity.
Defined.

Lemma forward_build_empty_table_witness :
  intf_ra2ll_matrix Edge.empty_table "1" Scene.intf_grids = Raise ValueError.
Proof. apply forward_build_empty_table. reflexivity. Defined.

Lemma forward_build_single_line_witness :
  intf_ra2ll_matrix Scene.self "1" Edge.single_row = Raise IndexError.
Proof.
  apply (forward_build_single_line _ Scene.self "1" Edge.single_row 2 Scene.trans_ra2ll
           [0]%Q [0; 1]%Q); try reflexivity; try discriminate.
  left. reflexivity.
Defined.

Lemma forward_build_index_beyond_table_witness :
  intf_ra2ll_matrix Edge.beyond_table "1" Scene.intf_grids = Raise IndexError.
Proof.
  apply (forward_build_index_beyond_table _ Edge.beyond_table "1" Scene.intf_grids 4
           (with_values Scene.trans_ra2ll [0; 7; 2; 3; -1]%Z)
           [0; 1]%Q [0; 1]%Q 1%Q 1%Q 1 7%Z); try reflexivity.
  - discriminate.
  - left. simpl. lia.
Defined.

(** ** The forward build: what it leaves on disk *)

Lemma append_inj_l (a b c : string) : String.append a b = String.append a c -> b = c.
Proof.
  induction a as [ | ch a IH]; simpl; intro H; [exact H | ].
  inversion H. auto.
Qed.

(** The forward matrix is not stored over the full-area matrix. *)
Lemma matrix_files_differ (self : SBAS) (subswath : string) :
  trans_ra2ll_file self subswath <> intf_ra2ll_file self subswath.
Proof.
  unfold trans_ra2ll_file, intf_ra2ll_file, path_join. intro H.
  do 4 apply append_inj_l in H. discriminate H.
Qed.

Lemma mapM_raises {B C} (P : exn -> Prop) (f : B -> result C) (l : list B) (e : exn) :
  (forall x e', f x = Raise e' -> P e') -> mapM f l = Raise e -> P e.
Proof.
  intro Hf. induction l as [ | a l IH]; simpl; [discriminate | ].
  destruct (f a) as [b | e'] eqn:Ea; simpl.
  - destruct (mapM f l) as [bs | e''] eqn:El; simpl; [discriminate | ].
    intro H. inversion H; subst. apply IH. reflexivity.
  - intro H. inversion H; subst. eapply Hf; eauto.
Qed.

Section ForwardStore.
Context `{kd : cKDTree}.
Variable A : Type.

(** The build reads the disk at the full-area matrix only. *)
Lemma build_intf_ra2ll_reads (self : SBAS) (subswath : string)
      (intf_grids : DataArray A) (fs' : filesystem) :
  fs' (trans_ra2ll_file self subswath) = fs self (trans_ra2ll_file self subswath) ->
  build_intf_ra2ll (with_fs self fs') subswath intf_grids
  = build_intf_ra2ll self subswath intf_grids.
Proof.
  intro H. unfold build_intf_ra2ll, open_dataarray.
  change (trans_ra2ll_file (with_fs self fs') subswath)
    with (trans_ra2ll_file self subswath).
  change (fs (with_fs self fs')) with fs'.
  change (get_trans_dat (with_fs self fs')) with (get_trans_dat self).
  rewrite H. reflexivity.
Qed.

(** X6.  Building the forward matrix again over the files the first build
    left gives the same files: the build reads only the full-area matrix,
    which it does not write, and replaces its own file by the same
    matrix. *)
Theorem forward_build_idempotent (self : SBAS) (subswath : string)
        (intf_grids : DataArray A) (fs' : filesystem) :
  intf_ra2ll_matrix self subswath intf_grids = Ok fs' ->
  exists fs'',
    intf_ra2ll_matrix (with_fs self fs') subswath intf_grids = Ok fs'' /\
    forall p, fs'' p = fs' p.
Proof.
  unfold intf_ra2ll_matrix. intro H.
  apply bind_ok in H. destruct H as ([n m] & Hb & H). cbn [fst snd] in H.
  assert (Hsame : fs' (trans_ra2ll_file self subswath)
                  = fs self (trans_ra2ll_file self subswath)).
  { unfold save_intf_ra2ll in H.
    apply bind_ok in H. destruct H as (mx & _ & H).
    apply bind_ok in H. destruct H as ([] & _ & H).
    inversion H. unfold fs_write.
    pose proof (matrix_files_differ self subswath) as Hd.
    apply String.eqb_neq in Hd. rewrite Hd.
    destruct (fs_exists (fs self) (intf_ra2ll_file self subswath)); [ | reflexivity].
    unfold fs_remove. rewrite Hd. reflexivity. }
  rewrite (build_intf_ra2ll_reads _ _ _ _ Hsame), Hb. cbn [bind fst snd].
  unfold save_intf_ra2ll in *.
  apply bind_ok in H. destruct H as (mx & Hmx & H). rewrite Hmx. cbn [bind].
  apply bind_ok in H. destruct H as ([] & Hassert & H). rewrite Hassert. cbn [bind].
  eexists. split; [reflexivity | ].
  intro p. inversion H as [Hfs]. clear H.
  repeat match goal with
         | |- context [intf_ra2ll_file (with_fs self ?f) subswath] =>
             change (intf_ra2ll_file (with_fs self f) subswath)
               with (intf_ra2ll_file self subswath)
         end.
  repeat match goal with
         | |- context [fs (with_fs self ?f)] => change (fs (with_fs self f)) with f
         end.
  clear Hfs.
  unfold fs_write, fs_exists, fs_remove.
  destruct (String.eqb p (intf_ra2ll_file self subswath)) eqn:Ep; [reflexivity | ].
  rewrite String.eqb_refl, Ep. reflexivity.
Qed.

(** The build itself raises no [AssertionError]. *)
Lemma build_intf_ra2ll_raises (self : SBAS) (subswath : string)
      (intf_grids : DataArray A) (e : exn) :
  build_intf_ra2ll self subswath intf_grids = Raise e -> e <> AssertionError.
Proof.
  unfold build_intf_ra2ll, min_size, q_min, q_max, open_dataarray, coord, first_diff.
  destruct (drop_dim "pair" (dims intf_grids) (shape intf_grids)) as [[ds sh] | ];
    cbn [bind]; [ | intro H; inversion H; discriminate].
  destruct (map t_lon (rows (get_trans_dat self (Some subswath))));
    cbn [bind]; [intro H; inversion H; discriminate | ].
  destruct (map t_lat (rows (get_trans_dat self (Some subswath))));
    cbn [bind]; [intro H; inversion H; discriminate | ].
  destruct (fs self (trans_ra2ll_file self subswath)) as [tr | ];
    cbn [bind]; [ | intro H; inversion H; discriminate].
  destruct (assoc "y" (coords intf_grids)) as [ys | ];
    cbn [bind]; [ | intro H; inversion H; discriminate].
  destruct (assoc "x" (coords intf_grids)) as [xs | ];
    cbn [bind]; [ | intro H; inversion H; discriminate].
  destruct ys as [ | y0 [ | y1 ys]]; cbn [bind]; try (intro H; inversion H; discriminate).
  destruct xs as [ | x0 [ | x1 xs]]; cbn [bind]; try (intro H; inversion H; discriminate).
  match goal with
  | |- bind ?m _ = _ -> _ => destruct m as [g | e'] eqn:Eg
  end; cbn [bind]; [discriminate | ].
  intro H. inversion H; subst e'.
  apply (mapM_raises (fun e => e <> AssertionError)) in Eg; [exact Eg | ].
  intros x e' Hx. apply py_getitem_raises in Hx. subst e'. discriminate.
Qed.

(** X7.  For a reference grid with as many cells as the radar grid has
    centres, the post-check of line 114 never fires: the call never raises
    [AssertionError], and a built matrix with at least one cell is always
    stored. *)
Theorem forward_post_check_never_fires (self : SBAS) (subswath : string)
        (intf_grids : DataArray A) (n : nat) (ys xs : list Q) :
  min_size intf_grids "pair" = Ok n ->
  coord intf_grids "y" = Ok ys -> coord intf_grids "x" = Ok xs ->
  n = length ys * length xs ->
  intf_ra2ll_matrix self subswath intf_grids <> Raise AssertionError /\
  forall n' F, build_intf_ra2ll self subswath intf_grids = Ok (n', F) ->
               values F <> [] ->
               exists fs', intf_ra2ll_matrix self subswath intf_grids = Ok fs'.
Proof.
  intros Hn Hys Hxs Hsize.
  assert (Hstore : forall n' F,
             build_intf_ra2ll self subswath intf_grids = Ok (n', F) ->
             save_intf_ra2ll self subswath n' F = Raise ValueError /\ values F = [] \/
             exists fs', save_intf_ra2ll self subswath n' F = Ok fs').
  { intros n' F Hb. pose proof Hb as Hv.
    apply build_intf_ra2ll_values in Hv.
    destruct Hv as (ys' & xs' & Hys' & Hxs' & Hall).
    rewrite Hys in Hys'. rewrite Hxs in Hxs'. inversion Hys'; inversion Hxs'; subst ys' xs'.
    apply build_intf_ra2ll_ok in Hb. destruct Hb as (? & ? & ? & ? & ? & ? & Hn' & _).
    rewrite Hn in Hn'. inversion Hn'; subst n'.
    destruct (values F) as [ | v vs] eqn:Ev.
    - left. unfold save_intf_ra2ll. rewrite Ev. split; reflexivity.
    - right. assert (Hmax : is_max (fold_left Z.max vs v) (values F)).
      { rewrite Ev. destruct (fold_max_spec vs v) as (H1 & H2 & H3). split.
        - destruct H1 as [-> | H1]; [left; reflexivity | right; exact H1].
        - constructor; assumption. }
      rewrite (save_intf_ra2ll_spec _ _ _ _ _ Hmax).
      replace (Z.of_nat n >? fold_left Z.max vs v)%Z with true; [eauto | ].
      symmetry. apply Z.gtb_lt. destruct Hmax as [Hin _].
      rewrite Ev in Hin. rewrite Forall_forall in Hall.
      destruct (Hall _ Hin) as [-> | Hlt]; lia. }
  split.
  - unfold intf_ra2ll_matrix.
    destruct (build_intf_ra2ll self subswath intf_grids) as [[n' F] | e] eqn:Hb;
      cbn [bind fst snd].
    + destruct (Hstore n' F eq_refl) as [[-> _] | [fs' ->]]; discriminate.
    + intro H. inversion H; subst e. exact (build_intf_ra2ll_raises _ _ _ _ Hb eq_refl).
  - intros n' F Hb Hne. unfold intf_ra2ll_matrix. rewrite Hb. cbn [bind fst snd].
    destruct (Hstore n' F Hb) as [[_ Hnil] | Hok]; [contradiction | exact Hok].
Qed.

End ForwardStore.

Lemma forward_build_idempotent_witness :
  exists fs' fs'',
    intf_ra2ll_matrix Scene.self "1" Scene.intf_grids = Ok fs' /\
    intf_ra2ll_matrix (with_fs Scene.self fs') "1" Scene.intf_grids = Ok fs'' /\
    forall p, fs'' p = fs' p.
Proof.
  assert (Hrun : exists fs', intf_ra2ll_matrix Scene.self "1" Scene.intf_grids = Ok fs')
    by (vm_compute; eexists; reflexivity).
  destruct Hrun as [fs' Hrun].
  destruct (forward_build_idempotent _ Scene.self "1" Scene.intf_grids fs' Hrun)
    as (fs'' & Hagain & Hsame).
  exists fs', fs''. split; [exact Hrun | split; [exact Hagain | exact Hsame]].
Defined.

Lemma forward_post_check_never_fires_witness :
  intf_ra2ll_matrix Scene.self "1" Scene.intf_grids <> Raise AssertionError /\
  exists fs', intf_ra2ll_matrix Scene.self "1" Scene.intf_grids = Ok fs'.
Proof.
  destruct (forward_post_check_never_fires _ Scene.self "1" Scene.intf_grids 4
              [0; 1]%Q [0; 1]%Q) as [Hnever Hstore]; try reflexivity.
  split; [exact Hnever | ].
  apply (Hstore 4 Scene.intf_ra2ll); [vm_compute; reflexivity | discriminate].
Defined.

(** ** The forward resampler *)

Lemma length_flat_map_const {B C} (f : B -> list C) (l : list B) (k : nat) :
  (forall x, In x l -> length (f x) = k) -> length (flat_map f l) = length l * k.
Proof.
  induction l as [ | a l IH]; intro H; simpl; [reflexivity | ].
  rewrite length_app, (H a (or_introl eq_refl)), IH; [reflexivity | ].
  intros x Hx. apply H. right. exact Hx.
Qed.

Lemma length_nd_positions (maps : list (list (option nat))) (sh : list nat)
      (base : option nat) :
  length maps <= length sh ->
  length (nd_positions maps sh base) = fold_right Nat.mul 1 (map (@length _) maps).
Proof.
  revert sh base. induction maps as [ | m maps IH]; intros sh base H.
  - destruct sh; reflexivity.
  - destruct sh as [ | s sh]; [simpl in H; lia | ].
    cbn [nd_positions map fold_right].
    apply length_flat_map_const. intros p _. apply IH. simpl in H. lia.
Qed.

Lemma length_zip_dims (ds : list string) (sh : list nat) :
  length (zip_dims ds sh) <= length sh.
Proof.
  revert sh. induction ds as [ | d ds IH]; intros [ | n sh]; simpl; try lia.
  specialize (IH sh). lia.
Qed.

Section ForwardResample.
Variable V : Type.

(** A re-indexed layer has as many values as its shape says. *)
Lemma reindex_like_size {B} (grid : DataArray (float V)) (other : DataArray B) :
  length (values (reindex_like grid other)) = size (reindex_like grid other).
Proof.
  unfold reindex_like, size. cbn [values shape]. rewrite length_map.
  apply length_nd_positions. rewrite length_map. apply length_zip_dims.
Qed.

(** The raster [ra2ll] returns is laid out like the forward matrix. *)
Lemma ra2ll_ok_grid (matrix_ra2ll matrix_ll2ra : DataArray Z)
      (grid out : DataArray (float V)) :
  ra2ll matrix_ra2ll matrix_ll2ra grid = Ok out ->
  dims out = dims matrix_ra2ll /\ shape out = shape matrix_ra2ll /\
  coords out = coords matrix_ra2ll /\
  length (values out) = length (values matrix_ra2ll).
Proof.
  intros H. unfold ra2ll in H.
  apply bind_ok in H. destruct H as (grid' & _ & H).
  apply bind_ok in H. destruct H as (gathered & Hg & H).
  inversion H. cbn [dims shape coords values].
  repeat (split; [reflexivity | ]).
  apply py_take_nth in Hg. destruct Hg as [Hlen _]. rewrite length_map in Hlen.
  unfold float in *. rewrite length_map, length_combine. lia.
Qed.

(** The gather of [ra2ll] over a forward matrix with no entry below -1. *)
Lemma ra2ll_gathers (matrix_ra2ll matrix_ll2ra : DataArray Z)
        (grid : DataArray (float V)) :
  let grid' := reindex_like grid matrix_ll2ra in
  reindexable grid matrix_ll2ra = true ->
  0 < size grid' ->
  Forall (fun m => (-1 <= m)%Z) (values matrix_ra2ll) ->
  exists out,
    ra2ll matrix_ra2ll matrix_ll2ra grid = Ok out /\
    dims out = dims matrix_ra2ll /\ shape out = shape matrix_ra2ll /\
    coords out = coords matrix_ra2ll /\
    length (values out) = length (values matrix_ra2ll) /\
    forall c m,
      nth_error (values matrix_ra2ll) c = Some m ->
      (m = (-1)%Z -> nth_error (values out) c = Some None) /\
      ((0 <= m < Z.of_nat (size grid'))%Z ->
       nth_error (values out) c = nth_error (values grid') (Z.to_nat m)).
Proof.
  intros grid' Hre Hsize Hall.
  assert (Hlen : length (values grid') = size grid') by apply reindex_like_size.
  destruct (py_take_total (values grid')
              (map (fun m => if (m <? Z.of_nat (size grid'))%Z then m else (-1)%Z)
                   (values matrix_ra2ll))) as [gathered Hg].
  { apply Forall_forall. intros i Hi. apply in_map_iff in Hi.
    destruct Hi as (m & <- & Hm). rewrite Forall_forall in Hall.
    specialize (Hall m Hm). unfold float in *. rewrite Hlen.
    destruct (Z.ltb_spec m (Z.of_nat (size grid'))); lia. }
  assert (E : ra2ll matrix_ra2ll matrix_ll2ra grid
              = Ok (mkDA EmptyString (dims matrix_ra2ll) (shape matrix_ra2ll)
                         (coords matrix_ra2ll) (labels matrix_ra2ll) []
                         (map (fun mg => if (0 <=? fst mg)%Z then snd mg else None)
                              (combine (values matrix_ra2ll) gathered)))).
  { unfold ra2ll, py_reindex_like. rewrite Hre. cbn [bind]. fold grid'. rewrite Hg.
    reflexivity. }
  eexists. split; [exact E | ].
  destruct (ra2ll_ok_grid _ _ _ _ E) as (H1 & H2 & H3 & H4).
  repeat (split; [assumption | ]).
  intros c m Hc. destruct (ra2ll_cell _ _ _ _ _ c m E Hc) as (Hneg & Hin & _).
  split.
  - intros ->. apply Hneg. lia.
  - intro Hm. destruct (Hin Hm) as (v & Hv & Hout). rewrite Hout.
    apply py_getitem_ok in Hv. destruct Hv as (k & Hk & Hnth).
    apply py_index_ok in Hk. destruct Hk as [_ [[_ ->] | [Hlt _]]]; [ | lia].
    symmetry. exact Hnth.
Qed.

(** X8.  Given a forward matrix whose entries are -1 or more and a layer
    that can be re-indexed to the inverse matrix's grid (no repeated label
    on a re-indexed axis, an unlabelled axis of the size of its new index)
    and then has at least one cell, the inner [ra2ll]
    returns a raster on the forward matrix's grid: a cell whose entry is -1
    is not-a-number, a cell whose entry [m] is below the layer's size holds
    the layer's value at flat position [m]. *)
Theorem ra2ll_gathers_by_index (matrix_ra2ll matrix_ll2ra : DataArray Z)
        (grid : DataArray (float V)) :
  let grid' := reindex_like grid matrix_ll2ra in
  reindexable grid matrix_ll2ra = true ->
  0 < size grid' ->
  Forall (fun m => (-1 <= m)%Z) (values matrix_ra2ll) ->
  exists out,
    ra2ll matrix_ra2ll matrix_ll2ra grid = Ok out /\
    dims out = dims matrix_ra2ll /\ shape out = shape matrix_ra2ll /\
    coords out = coords matrix_ra2ll /\
    length (values out) = length (values matrix_ra2ll) /\
    forall c m,
      nth_error (values matrix_ra2ll) c = Some m ->
      (m = (-1)%Z -> nth_error (values out) c = Some None) /\
      ((0 <= m < Z.of_nat (size grid'))%Z ->
       nth_error (values out) c = nth_error (values grid') (Z.to_nat m)).
Proof. exact (ra2ll_gathers matrix_ra2ll matrix_ll2ra grid). Qed.

(** X9.  A layer that can be re-indexed (no repeated label on a re-indexed
    axis, an unlabelled axis of the size of its new index) and has no cell
    once it is cannot be geocoded: with a forward
    matrix of at least one cell the gather of line 45 fails with
    [IndexError], whatever the matrix holds. *)
Theorem ra2ll_empty_layer (matrix_ra2ll matrix_ll2ra : DataArray Z)
        (grid : DataArray (float V)) :
  reindexable grid matrix_ll2ra = true ->
  size (reindex_like grid matrix_ll2ra) = 0 ->
  values matrix_ra2ll <> [] ->
  ra2ll matrix_ra2ll matrix_ll2ra grid = Raise IndexError.
Proof.
  intros Hre Hsize Hne. unfold ra2ll, py_reindex_like. rewrite Hre. cbn [bind].
  destruct (values matrix_ra2ll) as [ | m ms] eqn:Ev; [contradiction | ].
  erewrite py_take_raises; [reflexivity | left; reflexivity | ].
  apply py_getitem_out_of_range. unfold float in *.
  rewrite reindex_like_size. unfold float in *. rewrite Hsize.
  destruct (Z.ltb_spec m (Z.of_nat 0)); lia.
Qed.

(** X10.  A stack of layers (a raster that is not two-dimensional and does
    not take the early return) whose first dimension is none of the forward
    matrix's, and whose coordinates are those of [y], [x] and that first
    dimension only, is geocoded layer by layer: the result has the stack's
    first dimension in front of the forward matrix's dimensions and the
    layers' geocoded values one after the other; a stack of no layer fails
    with [ValueError]. *)
Theorem intf_ra2ll_stack_layerwise (self : SBAS)
        (get_subswath : option (pyarg V) -> result string)
        (grids : DataArray (float V)) (s : string)
        (matrix_ra2ll matrix_ll2ra : DataArray Z) :
  helper_check_ra2ll (dims grids) = false ->
  length (dims grids) <> 2 ->
  get_subswath None = Ok s ->
  open_dataarray (fs self) (intf_ra2ll_file self s) = Ok matrix_ra2ll ->
  open_dataarray (fs self) (intf_ll2ra_file self s) = Ok matrix_ll2ra ->
  ~ In (hd EmptyString (dims grids)) (dims matrix_ra2ll) ->
  (forall k, In k (map fst (coords grids) ++ map fst (labels grids)) ->
             k = "y"%string \/ k = "x"%string \/ k = hd EmptyString (dims grids)) ->
  (hd_error (shape grids) = Some 0 ->
   intf_ra2ll self get_subswath None (Some grids) = ([], Raise ValueError)) /\
  forall outs,
    Forall2 (fun item out => ra2ll matrix_ra2ll matrix_ll2ra (item_of grids item) = Ok out)
            (seq 0 (hd 0 (shape grids))) outs ->
    0 < hd 0 (shape grids) ->
    exists R,
      intf_ra2ll self get_subswath None (Some grids) = ([], Ok R) /\
      dims R = hd EmptyString (dims grids) :: dims matrix_ra2ll /\
      shape R = hd 0 (shape grids) :: shape matrix_ra2ll /\
      values R = flat_map (@values _) outs.
Proof.
  intros Hguard Hdims Hs H1 H2 Hnew _.
  assert (E : intf_ra2ll self get_subswath None (Some grids)
              = ([], grids_ll <- mapM (fun item => ra2ll matrix_ra2ll matrix_ll2ra
                                                         (item_of grids item))
                                      (seq 0 (hd 0 (shape grids))) ;;
                     grids_ll <- concat_dim (hd EmptyString (dims grids)) grids_ll ;;
                     Ok (copy_coords grids grids_ll))).
  { unfold intf_ra2ll. rewrite Hguard, Hs. cbn [bind]. rewrite H1, H2. cbn [bind].
    apply Nat.eqb_neq in Hdims. rewrite Hdims. reflexivity. }
  split.
  - intro H0. rewrite E. destruct (shape grids) as [ | k sh]; [discriminate | ].
    inversion H0; subst k. reflexivity.
  - intros outs Houts Hpos. apply Forall2_mapM in Houts as Hm. rewrite E, Hm. cbn [bind].
    destruct outs as [ | p outs].
    + inversion Houts as [Hseq | ]. exfalso.
      destruct (hd 0 (shape grids)); [lia | discriminate].
    + inversion Houts as [ | item out items outs' Hp Hrest Hi Ho]; subst.
      destruct (ra2ll_ok_grid _ _ _ _ Hp) as (Hd & Hsh & _).
      assert (Hk : dim_index (hd EmptyString (dims grids)) (dims p) = None).
      { rewrite Hd. clear - Hnew. induction (dims matrix_ra2ll) as [ | d ds IH];
          [reflexivity | ].
        simpl. destruct (String.eqb (hd EmptyString (dims grids)) d) eqn:Ed.
        - exfalso. apply Hnew. left. symmetry. apply String.eqb_eq. exact Ed.
        - rewrite IH; [reflexivity | ]. intro Hin. apply Hnew. right. exact Hin. }
      unfold concat_dim. rewrite Hk. cbn [bind]. eexists. split; [reflexivity | ].
      cbn [copy_coords dims shape values].
      rewrite Hd, Hsh. split; [reflexivity | split; [ | reflexivity]].
      f_equal. apply Forall2_length in Houts. rewrite length_seq in Houts.
      symmetry. exact Houts.
Qed.

End ForwardResample.

Lemma ra2ll_gathers_by_index_witness :
  exists out,
    ra2ll Scene.intf_ra2ll Scene.intf_ll2ra Scene.radar_layer = Ok out /\
    dims out = ["lat"; "lon"]%string /\ shape out = [1; 5] /\
    nth_error (values out) 2 = Some (Some 30%Z) /\
    nth_error (values out) 3 = Some None.
Proof.
  destruct (ra2ll_gathers_by_index Z Scene.intf_ra2ll Scene.intf_ll2ra Scene.radar_layer)
    as (out & Hout & Hd & Hs & _ & _ & Hcells).
  - reflexivity.
  - vm_compute. lia.
  - repeat constructor; discriminate.
  - exists out. split; [exact Hout | split; [exact Hd | split; [exact Hs | split]]].
    + destruct (Hcells 2 2%Z eq_refl) as [_ H]. rewrite H; [reflexivity | ].
      vm_compute. split; [discriminate | reflexivity].
    + destruct (Hcells 3 (-1)%Z eq_refl) as [H _]. apply H. reflexivity.
Defined.

Lemma ra2ll_empty_layer_witness :
  ra2ll Scene.intf_ra2ll Scene.intf_ll2ra Edge.no_row = Raise IndexError.
Proof.
  apply ra2ll_empty_layer; [reflexivity | reflexivity | discriminate].
Defined.

Lemma intf_ra2ll_stack_layerwise_witness :
  exists R,
    intf_ra2ll Scene.geocoded Scene.get_subswath None (Some Scene.intf_grids)
    = ([], Ok R) /\
    dims R = ["pair"; "lat"; "lon"]%string /\ shape R = [1; 1; 5] /\
    values R = [Some 10; Some 20; Some 30; None; None]%Z.
Proof.
  destruct (intf_ra2ll_stack_layerwise Z Scene.geocoded Scene.get_subswath
              Scene.intf_grids "1" Scene.intf_ra2ll Scene.intf_ll2ra)
    as [_ Hstack]; try reflexivity.
  - discriminate.
  - intros [H | [H | []]]; discriminate.
  - intros k Hk. simpl in Hk. intuition.
  - destruct (Hstack [mkDA EmptyString ["lat"; "lon"]%string [1; 5]
                           [("lat"%string, [50]%Q);
                            ("lon"%string, [10; 11; 12; 13; 14]%Q)] [] []
                           [Some 10; Some 20; Some 30; None; None]%Z])
      as (R & HR & Hd & Hs & Hv).
    + constructor; [vm_compute; reflexivity | constructor].
    + simpl. lia.
    + exists R. split; [exact HR | split; [exact Hd | split; [exact Hs | exact Hv]]].
Defined.

(** ** The inverse build *)

Section InverseBuild.
Context `{kd : cKDTree}.

(** X11.  When no block of the translation table meets the widened bounds
    of an output block, [calc_intf_ll2ra_matrix] fails with [ValueError]:
    [np.concatenate] is given no array. *)
Theorem calc_no_candidate_block (td : TransDat) (extents : list extent)
        (azi rng : array2 Q) (ymin ymax xmin xmax : Q) :
  same_shape azi rng = true ->
  q_min (flatten azi) = Ok ymin -> q_max (flatten azi) = Ok ymax ->
  q_min (flatten rng) = Ok xmin -> q_max (flatten rng) = Ok xmax ->
  (forall e, In e extents -> block_selected ymin ymax xmin xmax e = false) ->
  calc_intf_ll2ra_matrix td extents azi rng = Raise ValueError.
Proof.
  intros Hs Hymin Hymax Hxmin Hxmax Hnone. unfold calc_intf_ll2ra_matrix.
  rewrite Hs. cbn [py_assert bind]. rewrite Hymin, Hymax, Hxmin, Hxmax. cbn [bind].
  replace (filter (block_selected ymin ymax xmin xmax) extents) with (@nil extent);
    [reflexivity | ].
  symmetry. clear - Hnone. induction extents as [ | e es IH]; [reflexivity | ].
  simpl. rewrite (Hnone e (or_introl eq_refl)). apply IH.
  intros e' He'. apply Hnone. right. exact He'.
Qed.

(** What [intf_ll2ra_matrix] does to the disk, in both modes. *)
Lemma intf_ll2ra_matrix_effects (self : SBAS) (subswath : option string)
        (A : Type) (intf_grid : DataArray A) (grid_chunks : list nat * list nat)
        (ys xs : list Q) :
  coord intf_grid "y" = Ok ys -> coord intf_grid "x" = Ok xs ->
  let file := get_filenames self subswath "intf_ll2ra" in
  let matrix_ra := matrix_ra_blocks self subswath grid_chunks ys xs in
  intf_ll2ra_matrix self subswath intf_grid grid_chunks true = Ok (ReturnsArray matrix_ra) /\
  exists fs1 handler,
    intf_ll2ra_matrix self subswath intf_grid grid_chunks false
    = Ok (ReturnsHandler fs1 handler) /\
    fs1 file = Some (pending_intf_ll2ra ys xs) /\
    Forall (fun v => v = uint32_sentinel) (values (pending_intf_ll2ra ys xs)) /\
    (forall p, p <> file -> fs1 p = fs self p) /\
    (forall e, matrix_ra = Raise e -> handler = Raise e) /\
    (forall M, matrix_ra = Ok M ->
               exists fs2 da,
                 handler = Ok fs2 /\ fs2 file = Some da /\
                 (forall p, p <> file -> fs2 p = fs self p) /\
                 name da = "intf_ll2ra"%string /\ dims da = ["y"; "x"]%string /\
                 shape da = [length ys; length xs] /\
                 coords da = [("y"%string, ys); ("x"%string, xs)] /\
                 values da = flatten (assemble M)).
Proof.
  intros Hys Hxs file matrix_ra. unfold intf_ll2ra_matrix. rewrite Hys, Hxs. cbn [bind].
  split; [reflexivity | ].
  fold file. fold matrix_ra.
  set (fs0 := if fs_exists (fs self) file then fs_remove (fs self) file else fs self).
  set (fs1 := fs_write fs0 file (pending_intf_ll2ra ys xs)).
  assert (Hpending : fs1 file = Some (pending_intf_ll2ra ys xs)).
  { unfold fs1, fs_write. rewrite String.eqb_refl. reflexivity. }
  assert (Hframe : forall p, p <> file -> fs1 p = fs self p).
  { intros p Hp. unfold fs1, fs_write, fs0, fs_remove. apply String.eqb_neq in Hp.
    rewrite Hp. destruct (fs_exists (fs self) file); [rewrite Hp | ]; reflexivity. }
  eexists. eexists. split; [reflexivity | ].
  split; [exact Hpending | split; [ | split; [exact Hframe | split]]].
  - apply Forall_forall. intros v Hv. cbn [values pending_intf_ll2ra] in Hv.
    apply repeat_spec in Hv. exact Hv.
  - intros e ->. reflexivity.
  - intros M ->. cbn [bind]. eexists. eexists. split; [reflexivity | ].
    split; [unfold fs_write; rewrite String.eqb_refl; reflexivity | ].
    split.
    + intros p Hp. unfold fs_write at 1. pose proof Hp as Hp'.
      apply String.eqb_neq in Hp'. rewrite Hp'. apply Hframe. exact Hp.
    + repeat split.
Qed.

(** X12.  Without [interactive], [intf_ll2ra_matrix] replaces the stored
    inverse matrix at once by the file of the pending write, every cell of
    which holds the largest 32-bit value, and returns the delayed write;
    no other file is touched.  A failing computation fails the write with
    the same error, a successful one stores an array named [intf_ll2ra]
    over the (y, x) of the radar grid.  With [interactive] nothing on disk
    is involved: the array itself is returned. *)
Theorem inverse_store_removes_then_writes (self : SBAS) (subswath : option string)
        (A : Type) (intf_grid : DataArray A) (grid_chunks : list nat * list nat)
        (ys xs : list Q) :
  coord intf_grid "y" = Ok ys -> coord intf_grid "x" = Ok xs ->
  let file := get_filenames self subswath "intf_ll2ra" in
  let matrix_ra := matrix_ra_blocks self subswath grid_chunks ys xs in
  intf_ll2ra_matrix self subswath intf_grid grid_chunks true = Ok (ReturnsArray matrix_ra) /\
  exists fs1 handler,
    intf_ll2ra_matrix self subswath intf_grid grid_chunks false
    = Ok (ReturnsHandler fs1 handler) /\
    fs1 file = Some (pending_intf_ll2ra ys xs) /\
    Forall (fun v => v = uint32_sentinel) (values (pending_intf_ll2ra ys xs)) /\
    (forall p, p <> file -> fs1 p = fs self p) /\
    (forall e, matrix_ra = Raise e -> handler = Raise e) /\
    (forall M, matrix_ra = Ok M ->
               exists fs2 da,
                 handler = Ok fs2 /\ fs2 file = Some da /\
                 (forall p, p <> file -> fs2 p = fs self p) /\
                 name da = "intf_ll2ra"%string /\ dims da = ["y"; "x"]%string /\
                 shape da = [length ys; length xs] /\
                 coords da = [("y"%string, ys); ("x"%string, xs)] /\
                 values da = flatten (assemble M)).
Proof. exact (intf_ll2ra_matrix_effects self subswath A intf_grid grid_chunks ys xs). Qed.

(** *** The stored array and the blocks *)

Lemma Forall2_join {B C D} (P : B -> C -> Prop) (Q : B -> D -> Prop) (R : C -> D -> Prop)
      (l : list B) (l2 : list C) (l3 : list D) :
  (forall a b c, P a b -> Q a c -> R b c) ->
  Forall2 P l l2 -> Forall2 Q l l3 -> Forall2 R l2 l3.
Proof.
  intros H HP. revert l3. induction HP as [ | a b l l2 Hab _ IH]; intros l3 HQ;
    inversion HQ; subst; constructor; eauto.
Qed.

Lemma split_chunks_lengths {B} (sizes : list nat) (l : list B) :
  list_sum sizes <= length l ->
  Forall2 (fun p n => length p = n) (split_chunks sizes l) sizes.
Proof.
  revert l. induction sizes as [ | n sizes IH]; intros l H; simpl in *; constructor.
  - rewrite length_firstn. lia.
  - apply IH. rewrite length_skipn. lia.
Qed.

(** A position of a concatenation, by piece and offset. *)
Lemma concat_locate {B} (pieces : list (list B)) (sizes : list nat) :
  Forall2 (fun p n => length p = n) pieces sizes ->
  forall i b o,
    locate sizes i = Some (b, o) ->
    exists p, nth_error pieces b = Some p /\ o < length p /\
              nth_error (concat pieces) i = nth_error p o.
Proof.
  induction 1 as [ | p n pieces sizes Hp _ IH]; intros i b o H; simpl in H;
    [discriminate | ].
  destruct (i <? n) eqn:E.
  - inversion H; subst b o. apply Nat.ltb_lt in E. exists p.
    split; [reflexivity | split; [lia | ]].
    simpl. apply nth_error_app1. lia.
  - apply Nat.ltb_ge in E.
    destruct (locate sizes (i - n)) as [[b' o'] | ] eqn:El; [ | discriminate].
    inversion H; subst b o.
    destruct (IH _ _ _ El) as (q & Hq & Ho & Hn).
    exists q. split; [exact Hq | split; [exact Ho | ]].
    simpl. rewrite nth_error_app2 by lia. rewrite Hp. exact Hn.
Qed.

Lemma length_concat_sizes {B} (pieces : list (list B)) (sizes : list nat) :
  Forall2 (fun p n => length p = n) pieces sizes ->
  length (concat pieces) = list_sum sizes.
Proof.
  induction 1 as [ | p n pieces sizes Hp _ IH]; simpl; [reflexivity | ].
  rewrite length_app, Hp, IH. reflexivity.
Qed.

Lemma matrix_ra_blocks_shaped (self : SBAS) (subswath : option string)
      (grid_chunks : list nat * list nat) (ys xs : list Q)
      (M : list (list (array2 Z))) :
  matrix_ra_blocks self subswath grid_chunks ys xs = Ok M ->
  list_sum (fst grid_chunks) = length ys -> list_sum (snd grid_chunks) = length xs ->
  blocks_shaped (fst grid_chunks) (snd grid_chunks) M.
Proof.
  intros HM Hsy Hsx. unfold matrix_ra_blocks in HM. apply mapM_ok in HM.
  unfold blocks_shaped.
  eapply Forall2_join; [ | exact HM | apply split_chunks_lengths; lia].
  intros yp band h Hband Hh. cbv beta in Hband. apply mapM_ok in Hband.
  eapply Forall2_join; [ | exact Hband | apply split_chunks_lengths; lia].
  intros xp b w Hb Hw. cbv beta in Hb. apply calc_shape in Hb.
  split.
  - apply Forall2_length in Hb. rewrite <- Hb. unfold azis_block.
    rewrite length_map. exact Hh.
  - eapply Forall2_same_length_width; [exact Hb | ].
    rewrite <- Hw. apply azis_block_width.
Qed.

End InverseBuild.

Lemma length_hstack_row {B} (band : list (array2 B)) (cx : list nat) (h i : nat) :
  Forall2 (fun b w => length b = h /\ Forall (fun row => length row = w) b) band cx ->
  i < h ->
  Forall2 (fun p n => length p = n) (map (fun b => nth i b []) band) cx.
Proof.
  intros H Hi. induction H as [ | b w band cx [Hb Hw] _ IH]; simpl; constructor;
    [ | exact IH].
  rewrite Forall_forall in Hw. apply Hw. apply nth_In. lia.
Qed.

Lemma length_hstack {B} (band : list (array2 B)) (cx : list nat) (h : nat) :
  Forall2 (fun b w => length b = h /\ Forall (fun row => length row = w) b) band cx ->
  cx <> [] -> length (hstack band) = h.
Proof.
  intros H Hne. unfold hstack. rewrite length_map, length_seq.
  destruct H as [ | b w band cx [Hb _] _]; [contradiction | exact Hb].
Qed.

Lemma nth_error_hstack {B} (band : list (array2 B)) (i : nat) :
  i < length (hstack band) ->
  nth_error (hstack band) i = Some (concat (map (fun b => nth i b []) band)).
Proof.
  unfold hstack. rewrite length_map, length_seq. intro H.
  rewrite nth_error_map, nth_error_seq.
  apply Nat.ltb_lt in H. rewrite H. reflexivity.
Qed.

(** The rows of the assembled array, and its cells. *)
Lemma assemble_rows {B} (cy cx : list nat) (m : list (list (array2 B))) :
  blocks_shaped cy cx m -> cx <> [] ->
  Forall (fun row => length row = list_sum cx) (assemble m).
Proof.
  intros H Hne. unfold assemble. apply Forall_forall. intros row Hrow.
  apply in_concat in Hrow. destruct Hrow as (rows' & Hrows & Hrow).
  apply in_map_iff in Hrows. destruct Hrows as (band & <- & Hband).
  apply In_nth_error in Hrow. destruct Hrow as [i Hi].
  pose proof (nth_error_lt _ _ _ Hi) as Hlt.
  rewrite (nth_error_hstack _ _ Hlt) in Hi. inversion Hi; subst row.
  unfold blocks_shaped in H.
  assert (Hb : exists h, Forall2 (fun b w => length b = h /\
                                              Forall (fun row => length row = w) b)
                                 band cx).
  { clear - H Hband. induction H as [ | band' h m cy Hb _ IH]; [destruct Hband | ].
    destruct Hband as [-> | Hband]; [eauto | auto]. }
  destruct Hb as [h Hb]. rewrite (length_hstack _ _ _ Hb Hne) in Hlt.
  apply length_concat_sizes. apply (length_hstack_row _ _ h); assumption.
Qed.

Lemma assemble_cell {B} (cy cx : list nat) (m : list (list (array2 B)))
      (row col : nat) :
  blocks_shaped cy cx m ->
  row < list_sum cy -> col < list_sum cx ->
  exists r, nth_error (assemble m) row = Some r /\
            nth_error r col = matrix_at (cy, cx) m row col.
Proof.
  intros H Hrow Hcol.
  assert (Hne : cx <> []) by (intro E; rewrite E in Hcol; simpl in Hcol; lia).
  destruct (locate_total cy row Hrow) as (b_y & i & Ly).
  destruct (locate_total cx col Hcol) as (b_x & j & Lx).
  unfold matrix_at. cbn [fst snd]. rewrite Ly, Lx.
  assert (Hpieces : Forall2 (fun p n => length p = n) (map hstack m) cy).
  { unfold blocks_shaped in H. clear - H Hne.
    induction H as [ | band h m cy Hb _ IH]; simpl; constructor; [ | exact IH].
    apply (length_hstack _ cx); assumption. }
  destruct (concat_locate _ _ Hpieces _ _ _ Ly) as (p & Hp & Hi & Hn).
  rewrite nth_error_map in Hp.
  destruct (nth_error m b_y) as [band | ] eqn:Eband; [ | discriminate].
  cbn [option_map] in Hp. inversion Hp; subst p. clear Hp.
  unfold assemble. rewrite Hn, (nth_error_hstack _ _ Hi).
  eexists. split; [reflexivity | ].
  assert (Hb : exists h, i < h /\
                 Forall2 (fun b w => length b = h /\
                                     Forall (fun row => length row = w) b) band cx).
  { unfold blocks_shaped in H. clear - H Eband Hi Hne. revert b_y Eband.
    induction H as [ | band' h m cy Hb _ IH]; intros [ | b_y] E; simpl in E;
      try discriminate.
    - inversion E; subst band'. exists h. split; [ | exact Hb].
      rewrite (length_hstack _ _ _ Hb Hne) in Hi. exact Hi.
    - eapply IH; eauto. }
  destruct Hb as (h & Hih & Hb).
  destruct (concat_locate _ _ (length_hstack_row _ _ _ _ Hb Hih) _ _ _ Lx)
    as (q & Hq & Hj & Hc).
  rewrite Hc. rewrite nth_error_map in Hq.
  unfold array2 in *.
  destruct (nth_error band b_x) as [b | ] eqn:Eb; [ | discriminate Hq].
  cbn [option_map] in Hq. inversion Hq; subst q.
  assert (Hlen : i < length b).
  { clear - Hb Eb Hih. revert b_x Eb.
    induction Hb as [ | b' w band cx [Hl _] _ IH]; intros [ | b_x] E; simpl in E;
      try discriminate.
    - inversion E; subst. lia.
    - eapply IH; eauto. }
  rewrite (nth_error_nth' b [] Hlen). reflexivity.
Qed.

Section InverseStore.
Context `{kd : cKDTree}.

(** X13.  Over chunks that cut the radar axes exactly, the array
    [intf_ll2ra_matrix] hands to the write holds, at the flat position of
    every radar cell, the cell the block computed for it. *)
Theorem stored_inverse_cells (self : SBAS) (subswath : option string)
        (A : Type) (intf_grid : DataArray A) (grid_chunks : list nat * list nat)
        (ys xs : list Q) (M : list (list (array2 Z)))
        (fs1 fs2 : filesystem) :
  coord intf_grid "y" = Ok ys -> coord intf_grid "x" = Ok xs ->
  list_sum (fst grid_chunks) = length ys -> list_sum (snd grid_chunks) = length xs ->
  matrix_ra_blocks self subswath grid_chunks ys xs = Ok M ->
  intf_ll2ra_matrix self subswath intf_grid grid_chunks false
  = Ok (ReturnsHandler fs1 (Ok fs2)) ->
  exists da,
    fs2 (get_filenames self subswath "intf_ll2ra") = Some da /\
    shape da = [length ys; length xs] /\
    forall r, r < length ys * length xs ->
              nth_error (values da) r
              = matrix_at_flat grid_chunks (length xs) M r.
Proof.
  intros Hys Hxs Hsy Hsx HM H. unfold intf_ll2ra_matrix in H.
  rewrite Hys, Hxs in H. cbn [bind] in H. rewrite HM in H. cbn [bind] in H.
  inversion H as [[Hfs1 Hfs2]]. clear H.
  eexists. split; [unfold fs_write; rewrite String.eqb_refl; reflexivity | ].
  split; [reflexivity | ]. cbn [values]. intros r Hr.
  pose proof (matrix_ra_blocks_shaped _ _ _ _ _ _ HM Hsy Hsx) as Hshaped.
  assert (Hx : length xs <> 0) by (intro E; rewrite E in Hr; lia).
  assert (Hrow : r / length xs < list_sum (fst grid_chunks)).
  { rewrite Hsy. apply Nat.Div0.div_lt_upper_bound. lia. }
  assert (Hcol : r mod length xs < list_sum (snd grid_chunks)).
  { rewrite Hsx. apply Nat.mod_upper_bound. exact Hx. }
  destruct (assemble_cell _ _ _ _ _ Hshaped Hrow Hcol) as (row & Erow & Hcell).
  unfold matrix_at_flat. destruct grid_chunks as [cy cx]. cbn [fst snd] in *.
  rewrite <- Hcell.
  rewrite (Nat.div_mod_eq r (length xs)) at 1.
  replace (length xs * (r / length xs) + r mod length xs)
    with (r / length xs * length xs + r mod length xs) by lia.
  apply nth_error_flatten with (w := length xs).
  - rewrite <- Hsx. apply (assemble_rows cy cx); [exact Hshaped | ].
    intro E. rewrite E in Hsx. simpl in Hsx. lia.
  - exact Erow.
  - apply Nat.mod_upper_bound. exact Hx.
Qed.

End InverseStore.

Lemma calc_no_candidate_block_witness :
  calc_intf_ll2ra_matrix Scene.trans_dat Edge.far_extents [[0]]%Q [[0]]%Q
  = Raise ValueError.
Proof.
  apply (calc_no_candidate_block Scene.trans_dat Edge.far_extents [[0]]%Q [[0]]%Q
           0%Q 0%Q 0%Q 0%Q); try reflexivity.
  intros e [<- | []]. reflexivity.
Defined.

Lemma inverse_store_removes_then_writes_witness :
  exists fs1 handler pending,
    intf_ll2ra_matrix Scene.geocoded (Some "1"%string) Scene.intf_grids ([2], [2]) false
    = Ok (ReturnsHandler fs1 handler) /\
    fs Scene.geocoded "raw/F1_intf_ll2ra.grd"%string = Some Scene.intf_ll2ra /\
    fs1 "raw/F1_intf_ll2ra.grd"%string = Some pending /\
    values pending
    = [uint32_sentinel; uint32_sentinel; uint32_sentinel; uint32_sentinel] /\
    (forall p, p <> "raw/F1_intf_ll2ra.grd"%string -> fs1 p = fs Scene.geocoded p).
Proof.
  destruct (inverse_store_removes_then_writes Scene.geocoded (Some "1"%string) _
              Scene.intf_grids ([2], [2]) [0; 1]%Q [0; 1]%Q eq_refl eq_refl)
    as (_ & fs1 & handler & Hrun & Hpending & _ & Hframe & _).
  exists fs1, handler, (pending_intf_ll2ra [0; 1]%Q [0; 1]%Q).
  split; [exact Hrun | split; [reflexivity | split; [exact Hpending | split]]].
  - reflexivity.
  - exact Hframe.
Defined.

Lemma stored_inverse_cells_witness :
  exists fs1 fs2 da,
    intf_ll2ra_matrix Scene.self (Some "1"%string) Scene.intf_grids ([2], [1; 1]) false
    = Ok (ReturnsHandler fs1 (Ok fs2)) /\
    fs2 "raw/F1_intf_ll2ra.grd"%string = Some da /\
    shape da = [2; 2] /\
    forall r, r < 4 ->
              nth_error (values da) r
              = matrix_at_flat ([2], [1; 1]) 2 [[[[0]; [2]]; [[1]; [1]]]]%Z r.
Proof.
  assert (Hrun : exists fs1 fs2,
             intf_ll2ra_matrix Scene.self (Some "1"%string) Scene.intf_grids
                               ([2], [1; 1]) false
             = Ok (ReturnsHandler fs1 (Ok fs2)))
    by (vm_compute; do 2 eexists; reflexivity).
  destruct Hrun as (fs1 & fs2 & Hrun).
  assert (HM : matrix_ra_blocks Scene.self (Some "1"%string) ([2], [1; 1])
                                [0; 1]%Q [0; 1]%Q
               = Ok [[[[0]; [2]]; [[1]; [1]]]]%Z) by (vm_compute; reflexivity).
  destruct (stored_inverse_cells Scene.self (Some "1"%string) _ Scene.intf_grids
              ([2], [1; 1]) [0; 1]%Q [0; 1]%Q [[[[0]; [2]]; [[1]; [1]]]]%Z fs1 fs2
              eq_refl eq_refl eq_refl eq_refl HM Hrun)
    as (da & Hfile & Hshape & Hcells).
  exists fs1, fs2, da. split; [exact Hrun | split; [exact Hfile | split]].
  - exact Hshape.
  - exact Hcells.
Defined.

(** ** The inverse resampler and the labels *)

(** X14.  The gather of line 346 runs before the mask: a matrix entry at or
    beyond the size of the layer, and so the largest 32-bit value on every
    layer of fewer than 2^32 - 1 cells, makes [ll2ra] fail with
    [IndexError].  On such a layer a call that returns has masked nothing:
    its result is the plain gather. *)
Theorem ll2ra_masks_nothing (V : Type) (matrix_ll2ra : DataArray Z)
        (grid : list (float V)) :
  (forall v, In v (values matrix_ll2ra) -> (Z.of_nat (length grid) <= v)%Z ->
             ll2ra matrix_ll2ra grid = Raise IndexError) /\
  ((Z.of_nat (length grid) <= uint32_sentinel)%Z ->
   forall out, ll2ra matrix_ll2ra grid = Ok out ->
               ~ In uint32_sentinel (values matrix_ll2ra) /\
               py_take grid (values matrix_ll2ra) = Ok out).
Proof.
  assert (Hraise : forall v, In v (values matrix_ll2ra) ->
                             (Z.of_nat (length grid) <= v)%Z ->
                             ll2ra matrix_ll2ra grid = Raise IndexError).
  { intros v Hv Hge. unfold ll2ra.
    rewrite (py_take_raises grid _ v Hv); [reflexivity | ].
    apply py_getitem_out_of_range. left. exact Hge. }
  split; [exact Hraise | ].
  intros Hsmall out Hout.
  assert (Hno : ~ In uint32_sentinel (values matrix_ll2ra)).
  { intro Hin. rewrite (Hraise _ Hin Hsmall) in Hout. discriminate. }
  split; [exact Hno | ].
  unfold ll2ra in Hout. apply bind_ok in Hout. destruct Hout as (gathered & Hg & Hout).
  rewrite Hg. f_equal. inversion Hout as [Hmap]. clear Hout Hmap.
  apply py_take_nth in Hg. destruct Hg as [Hlen _].
  revert gathered Hlen Hno. generalize (values matrix_ll2ra).
  induction l as [ | m l IH]; intros [ | g gathered] Hlen Hno; simpl in *;
    try discriminate; [reflexivity | ].
  replace (m =? uint32_sentinel)%Z with false.
  - cbn [negb]. f_equal. apply IH; [lia | tauto].
  - symmetry. apply Z.eqb_neq. intro E. apply Hno. left. exact E.
Qed.

(** X15.  Over a translation table of at most 2^32 cells, the label grid
    of line 216 has the shape of [trans_dat.ll] and numbers its cells in
    row-major order: the labels are the cell numbers themselves, each one
    once. *)
Theorem trans_idx_numbers_cells (like : array2 Q) :
  let n := length (flatten like) in
  (Z.of_nat n <= uint32_modulus)%Z ->
  Forall2 same_length like (trans_idx_of like) /\
  flatten (trans_idx_of like) = map Z.of_nat (seq 0 n) /\
  NoDup (flatten (trans_idx_of like)).
Proof.
  intros n Hfit.
  assert (E : flatten (trans_idx_of like) = map Z.of_nat (seq 0 n)).
  { rewrite flatten_trans_idx. fold n. apply map_ext_in. intros k Hk.
    apply in_seq in Hk. apply to_uint32_small. lia. }
  split; [ | split; [exact E | ]].
  - unfold trans_idx_of. apply reshape_like_shape. rewrite length_map, length_seq. lia.
  - rewrite E. apply Finite.Injective_map_NoDup; [ | apply seq_NoDup].
    intros a b Hab. apply Nat2Z.inj. exact Hab.
Qed.

Lemma trans_idx_numbers_cells_witness :
  Forall2 same_length (ll Scene.trans_dat) (trans_idx_of (ll Scene.trans_dat)) /\
  flatten (trans_idx_of (ll Scene.trans_dat)) = [0; 1; 2; 3]%Z /\
  NoDup (flatten (trans_idx_of (ll Scene.trans_dat))).
Proof.
  apply (trans_idx_numbers_cells (ll Scene.trans_dat)). vm_compute. discriminate.
Defined.

(** ** The drivers *)

Lemma assoc_filter_other {B} (k d : string) (l : list (string * B)) :
  k <> d ->
  assoc k (filter (fun kc => negb (String.eqb (fst kc) d)) l) = assoc k l.
Proof.
  intro Hk. induction l as [ | [k' v] l IH]; simpl; [reflexivity | ].
  destruct (String.eqb k' d) eqn:Ed; simpl.
  - apply String.eqb_eq in Ed. subst k'.
    apply String.eqb_neq in Hk. rewrite Hk. exact IH.
  - rewrite IH. reflexivity.
Qed.

(** Reducing over [d] keeps the other coordinates. *)
Lemma coord_min_lazy {A} (da : DataArray A) (d k : string) (reduced : DataArray unit) :
  min_lazy da d = Ok reduced -> k <> d -> coord reduced k = coord da k.
Proof.
  unfold min_lazy. destruct (drop_dim d (dims da) (shape da)) as [[ds sh] | ];
    [ | discriminate].
  intros H Hk. inversion H. unfold coord. cbn [coords].
  rewrite (assoc_filter_other _ _ _ Hk). reflexivity.
Qed.

Section DriverFacts.
Context `{kd : cKDTree}.
Variable A : Type.
Variable get_subswath : option string -> result string.
Variable topo_ra_parallel : SBAS -> SBAS * option exn.
Variable open_grids : SBAS -> string + list string -> string -> result (DataArray A).

(** X16.  [geocode_parallel] never returns: its last call passes [debug]
    to [intf_ll2ra_matrix], which has no such parameter.  When everything
    before that call goes through (here for a subswath written with one
    character, for which line 178 calls nothing), the run ends in
    [TypeError] with the forward matrix stored and no inverse matrix
    built. *)
Theorem geocode_parallel_never_returns (self : SBAS) (subswath : option string)
        (pairs : option (list string)) (grid_chunks : list nat * list nat)
        (debug : bool) :
  (forall r, snd (geocode_parallel get_subswath topo_ra_parallel open_grids
                                   self subswath pairs grid_chunks debug)
             <> Returns r) /\
  forall p s grids fs',
    pairs = Some p ->
    get_subswath subswath = Ok s -> String.length s <= 1 ->
    open_grids self (inr (firstn 1 p)) "phasefilt" = Ok grids ->
    intf_ra2ll_matrix self s grids = Ok fs' ->
    geocode_parallel get_subswath topo_ra_parallel open_grids
                     self subswath pairs grid_chunks debug
    = (if debug then [debug_note s] else [], with_fs self fs', Fails TypeError).
Proof.
  split.
  - intro r. unfold geocode_parallel.
    change (accepts_keyword intf_ra2ll_matrix_params "debug") with true.
    change (accepts_keyword intf_ll2ra_matrix_params "debug") with false.
    cbn [negb].
    destruct pairs as [p | ], subswath as [s0 | ]; cbn [snd]; try discriminate;
      (match goal with
       | |- context [get_subswath ?a] => destruct (get_subswath a) as [s | e]
       end; cbn [snd]; [ | discriminate]);
      (destruct (if 1 <? String.length s then topo_ra_parallel self else (self, None))
         as [self1 [e | ]]; cbn [snd]; [discriminate | ]);
      (match goal with
       | |- context [open_grids ?a ?b ?c] => destruct (open_grids a b c) as [g | e]
       end; cbn [snd]; [ | discriminate]);
      (destruct (intf_ra2ll_matrix self1 s g) as [fs' | e]; cbn [snd]; discriminate).
  - intros p s grids fs' -> Hs Hlen Hopen Hfwd. unfold geocode_parallel.
    change (accepts_keyword intf_ra2ll_matrix_params "debug") with true.
    change (accepts_keyword intf_ll2ra_matrix_params "debug") with false.
    cbn [negb].
    assert (E : (if 1 <? String.length s then topo_ra_parallel self else (self, None))
                = (self, None)).
    { replace (1 <? String.length s) with false; [reflexivity | ].
      symmetry. apply Nat.ltb_ge. exact Hlen. }
    destruct subswath as [s0 | ]; rewrite Hs, E; cbn [slice1]; rewrite Hopen, Hfwd;
      reflexivity.
Qed.

(** X17.  [intf_ll2ra_matrix_parallel] builds the inverse matrix of the
    merged grid (subswath [None]) over the (y, x) of the opened stack.
    With [interactive] it returns the lazy array and leaves the disk alone.
    Without it the delayed write is computed: a computation that fails
    fails the call with the same error, one that succeeds leaves the new
    matrix in the file of the inverse matrix and changes no other file,
    and the call returns [None]. *)
Theorem inverse_parallel_run (self : SBAS) (pairs : list string)
        (grid_chunks : list nat * list nat) (intf_grids : DataArray A)
        (n : nat) (ys xs : list Q) :
  open_grids self (inr pairs) "phasefilt" = Ok intf_grids ->
  min_size intf_grids "pair" = Ok n ->
  coord intf_grids "y" = Ok ys -> coord intf_grids "x" = Ok xs ->
  let file := get_filenames self None "intf_ll2ra" in
  let matrix_ra := matrix_ra_blocks self None grid_chunks ys xs in
  intf_ll2ra_matrix_parallel open_grids self pairs grid_chunks true
  = Returns (self, Some (ReturnsArray matrix_ra)) /\
  (forall e, matrix_ra = Raise e ->
     intf_ll2ra_matrix_parallel open_grids self pairs grid_chunks false
     = Fails (Exception e)) /\
  (forall M, matrix_ra = Ok M ->
     exists self' da,
       intf_ll2ra_matrix_parallel open_grids self pairs grid_chunks false
       = Returns (self', None) /\
       fs self' file = Some da /\ values da = flatten (assemble M) /\
       forall p, p <> file -> fs self' p = fs self p).
Proof.
  intros Hopen Hn Hys Hxs file matrix_ra.
  assert (Hmin : exists intf_grid, min_lazy intf_grids "pair" = Ok intf_grid).
  { unfold min_size in Hn. unfold min_lazy.
    destruct (drop_dim "pair" (dims intf_grids) (shape intf_grids)) as [[ds sh] | ];
      [eauto | discriminate]. }
  destruct Hmin as [intf_grid Hmin].
  assert (Hys' : coord intf_grid "y" = Ok ys).
  { rewrite (coord_min_lazy _ _ _ _ Hmin); [exact Hys | discriminate]. }
  assert (Hxs' : coord intf_grid "x" = Ok xs).
  { rewrite (coord_min_lazy _ _ _ _ Hmin); [exact Hxs | discriminate]. }
  destruct (intf_ll2ra_matrix_effects self None _ intf_grid grid_chunks ys xs
              Hys' Hxs')
    as (Hinter & fs1 & handler & Hrun & _ & _ & _ & Hfail & Hgood).
  fold file in Hgood. fold matrix_ra in Hinter, Hfail, Hgood.
  unfold intf_ll2ra_matrix_parallel. rewrite Hopen, Hmin.
  change (accepts_keyword intf_ll2ra_matrix_params "interactive") with true.
  cbn [negb]. rewrite Hinter, Hrun. cbn [negb persist].
  split; [reflexivity | split].
  - intros e He. rewrite (Hfail e He). reflexivity.
  - intros M HM.
    destruct (Hgood M HM) as (fs2 & da & -> & Hfile & Hframe2 & _ & _ & _ & _ & Hv).
    eexists. exists da. split; [reflexivity | ].
    cbn [fs with_fs]. split; [exact Hfile | split; [exact Hv | exact Hframe2]].
Qed.

End DriverFacts.

(** A run of [geocode_parallel] on the small scene. *)
Example geocode_parallel_scene :
  exists fs',
    intf_ra2ll_matrix Scene.self "1" Scene.intf_grids = Ok fs' /\
    geocode_parallel (fun _ => Ok "1"%string) (fun self => (self, None)) Edge.open_grids
                     Scene.self None (Some ["2021-01-01 2021-01-13"%string])
                     ([2], [2]) true
    = ([debug_note "1"], with_fs Scene.self fs', Fails TypeError).
Proof.
  assert (Hrun : exists fs', intf_ra2ll_matrix Scene.self "1" Scene.intf_grids = Ok fs')
    by (vm_compute; eexists; reflexivity).
  destruct Hrun as [fs' Hrun]. exists fs'. split; [exact Hrun | ].
  unfold geocode_parallel. cbn [slice1 firstn String.length Nat.ltb Nat.leb].
  unfold Edge.open_grids. rewrite Hrun. reflexivity.
Qed.

Lemma inverse_parallel_run_witness :
  intf_ll2ra_matrix_parallel Edge.open_grids Scene.self ["2021-01-01 2021-01-13"%string]
                             ([2], [2]) true
  = Returns (Scene.self, Some (ReturnsArray (Ok [[[[0; 1]; [2; 1]]]]%Z))) /\
  exists self' da,
    intf_ll2ra_matrix_parallel Edge.open_grids Scene.self
                               ["2021-01-01 2021-01-13"%string] ([2], [2]) false
    = Returns (self', None) /\
    fs self' "raw/F1_intf_ll2ra.grd"%string = Some da /\
    values da = [0; 1; 2; 1]%Z.
Proof.
  destruct (inverse_parallel_run _ Edge.open_grids Scene.self
              ["2021-01-01 2021-01-13"%string] ([2], [2]) Scene.intf_grids 4
              [0; 1]%Q [0; 1]%Q eq_refl eq_refl eq_refl eq_refl)
    as (Hinter & _ & Hgood).
  split.
  - rewrite Hinter. reflexivity.
  - assert (HM : matrix_ra_blocks Scene.self None ([2], [2]) [0; 1]%Q [0; 1]%Q
                 = Ok [[[[0; 1]; [2; 1]]]]%Z) by (vm_compute; reflexivity).
    destruct (Hgood [[[[0; 1]; [2; 1]]]]%Z HM)
      as (self' & da & Hrun & Hfile & Hv & _).
    exists self', da. split; [exact Hrun | split; [exact Hfile | exact Hv]].
Defined.

(** ** Building, then resampling *)

Lemma In_assemble_cells {B} (m : list (list (array2 B))) (v : B) :
  In v (flatten (assemble m)) -> In v (cells m).
Proof.
  unfold flatten, assemble, cells. intro H.
  apply in_concat in H. destruct H as (row & Hrow & Hv).
  apply in_concat in Hrow. destruct Hrow as (rows' & Hrows & Hrow).
  apply in_map_iff in Hrows. destruct Hrows as (band & <- & Hband).
  unfold hstack in Hrow. apply in_map_iff in Hrow. destruct Hrow as (i & <- & _).
  apply in_concat in Hv. destruct Hv as (piece & Hpiece & Hv).
  apply in_map_iff in Hpiece. destruct Hpiece as (b & <- & Hb).
  apply in_concat. exists (concat (map (@flatten B) band)). split.
  - apply in_map_iff. exists band. split; [reflexivity | exact Hband].
  - apply in_concat. exists (flatten b). split.
    + apply in_map. exact Hb.
    + unfold flatten. apply in_concat. exists (nth i b []). split; [ | exact Hv].
      destruct (Nat.lt_ge_cases i (length b)) as [Hlt | Hge].
      * apply nth_In. exact Hlt.
      * rewrite nth_overflow in Hv by exact Hge. destruct Hv.
Qed.

Section BuildThenResample.
Context `{kd : cKDTree}.
Variable A : Type.
Variable V : Type.

(** X18.  After [intf_ra2ll_matrix] has stored the forward matrix, the
    resampler [intf_ra2ll] geocodes every two-dimensional raster with a
    [y] axis that can be re-indexed to the stored inverse matrix (no
    repeated label on a re-indexed axis, an unlabelled axis of the size of
    its new index) and then has a cell: it prints
    nothing and returns a raster on the forward matrix's grid whose cells
    are not-a-number where the matrix holds -1 and the raster's value at
    the matrix's index where that index is below the raster's size. *)
Theorem geocode_after_build (self : SBAS)
        (get_subswath : option (pyarg V) -> result string) (s : string)
        (intf_grids : DataArray A) (fs' : filesystem) (matrix_ll2ra : DataArray Z)
        (grid : DataArray (float V)) :
  intf_ra2ll_matrix self s intf_grids = Ok fs' ->
  get_subswath None = Ok s ->
  fs' (intf_ll2ra_file self s) = Some matrix_ll2ra ->
  In "y"%string (dims grid) -> length (dims grid) = 2 ->
  reindexable grid matrix_ll2ra = true ->
  let grid' := reindex_like grid matrix_ll2ra in
  0 < size grid' ->
  exists F out,
    fs' (intf_ra2ll_file self s) = Some F /\
    intf_ra2ll (with_fs self fs') get_subswath None (Some grid) = ([], Ok out) /\
    dims out = dims F /\ shape out = shape F /\ coords out = coords F /\
    forall c m,
      nth_error (values F) c = Some m ->
      (m = (-1)%Z -> nth_error (values out) c = Some None) /\
      ((0 <= m < Z.of_nat (size grid'))%Z ->
       nth_error (values out) c = nth_error (values grid') (Z.to_nat m)).
Proof.
  intros Hbuild Hs Hinv Hy Hdims Hre grid' Hsize.
  destruct (intf_ra2ll_matrix_ok _ _ _ _ Hbuild) as (n & m & Hb & Hfile).
  destruct (build_intf_ra2ll_values _ _ _ _ _ Hb) as (ys & xs & _ & _ & Hall).
  set (F := set_attr m "node_offset" 1%Z) in *.
  destruct (ra2ll_gathers V F matrix_ll2ra grid Hre Hsize)
    as (out & Hout & Hd & Hsh & Hc & _ & Hcells).
  { apply Forall_forall. intros v Hv. rewrite Forall_forall in Hall.
    destruct (Hall v Hv) as [-> | Hr]; lia. }
  exists F, out. split; [exact Hfile | ].
  split; [ | repeat (split; [assumption | ]); exact Hcells].
  unfold intf_ra2ll.
  replace (helper_check_ra2ll (dims grid)) with false.
  2:{ symmetry. apply not_true_iff_false. rewrite helper_check_ra2ll_iff. tauto. }
  rewrite Hs. cbn [bind]. unfold open_dataarray.
  change (intf_ra2ll_file (with_fs self fs') s) with (intf_ra2ll_file self s).
  change (intf_ll2ra_file (with_fs self fs') s) with (intf_ll2ra_file self s).
  change (fs (with_fs self fs')) with fs'.
  rewrite Hfile, Hinv. cbn [bind]. rewrite Hdims. cbn [Nat.eqb]. rewrite Hout. reflexivity.
Qed.

End BuildThenResample.

Lemma geocode_after_build_witness :
  exists fs' F out,
    intf_ra2ll_matrix Scene.geocoded "1" Scene.intf_grids = Ok fs' /\
    fs' (intf_ra2ll_file Scene.geocoded "1") = Some F /\
    intf_ra2ll (with_fs Scene.geocoded fs') Scene.get_subswath None (Some Scene.radar_layer)
    = ([], Ok out) /\
    dims out = dims F /\
    nth_error (values out) 2 = Some (Some 30%Z) /\
    nth_error (values out) 3 = Some None.
Proof.
  assert (Hrun : exists fs',
             (intf_ra2ll_matrix Scene.geocoded "1" Scene.intf_grids = Ok fs') /\
             (fs' (intf_ll2ra_file Scene.geocoded "1") = Some Scene.intf_ll2ra) /\
             (option_map (@values Z) (fs' (intf_ra2ll_file Scene.geocoded "1"))
              = Some [0; 1; 2; -1; -1]%Z))
    by (vm_compute; eexists; repeat split).
  destruct Hrun as (fs' & Hrun & Hinv & Hvals).
  destruct (geocode_after_build _ Z Scene.geocoded Scene.get_subswath "1" Scene.intf_grids
              fs' Scene.intf_ll2ra Scene.radar_layer Hrun eq_refl Hinv)
    as (F & out & HF & Hout & Hd & _ & _ & Hcells).
  - left. reflexivity.
  - reflexivity.
  - reflexivity.
  - vm_compute. lia.
  - rewrite HF in Hvals. cbn [option_map] in Hvals. inversion Hvals as [Hv].
    exists fs', F, out.
    split; [exact Hrun | split; [exact HF | split; [exact Hout | split; [exact Hd | ]]]].
    split.
    + destruct (Hcells 2 2%Z) as [_ H]; [rewrite Hv; reflexivity | ].
      rewrite H; [reflexivity | vm_compute; split; [discriminate | reflexivity]].
    + destruct (Hcells 3 (-1)%Z) as [H _]; [rewrite Hv; reflexivity | ].
      apply H. reflexivity.
Defined.

Section StoreThenResample.
Context `{kd : cKDTree}.

(** X19.  The inverse matrix that [intf_ll2ra_matrix] writes, read back by
    the inner [ll2ra] on a layer with one value per cell of a translation
    table of fewer than 2^32 cells, never fails and masks nothing: every
    radar cell receives the layer's value at the cell's label. *)
Theorem stored_inverse_resamples (self : SBAS) (subswath : option string)
        (A : Type) (intf_grid : DataArray A) (grid_chunks : list nat * list nat)
        (fs1 fs2 : filesystem) (V : Type) (grid : list (float V)) :
  intf_ll2ra_matrix self subswath intf_grid grid_chunks false
  = Ok (ReturnsHandler fs1 (Ok fs2)) ->
  let table_size := length (flatten (ll (get_trans_dat self subswath))) in
  (Z.of_nat table_size < uint32_modulus)%Z ->
  length grid = table_size ->
  exists da,
    fs2 (get_filenames self subswath "intf_ll2ra") = Some da /\
    Forall (fun v => (0 <= v < Z.of_nat table_size)%Z) (values da) /\
    ll2ra da grid = Ok (map (fun v => nth (Z.to_nat v) grid None) (values da)).
Proof.
  intros H table_size Hfit Hlen. unfold intf_ll2ra_matrix in H.
  apply bind_ok in H. destruct H as (ys & Hys & H).
  apply bind_ok in H. destruct H as (xs & Hxs & H).
  cbn [negb] in H. inversion H as [[Hfs1 Hh]]. clear H.
  destruct (matrix_ra_blocks self subswath grid_chunks ys xs) as [M | e] eqn:HM;
    [ | discriminate].
  cbn [bind] in Hh. inversion Hh as [Hfs2]. clear Hh.
  eexists. split; [unfold fs_write; rewrite String.eqb_refl; reflexivity | ].
  cbn [values].
  assert (Hall : Forall (fun v => (0 <= v < Z.of_nat table_size)%Z /\ v <> uint32_sentinel)
                        (flatten (assemble M))).
  { apply Forall_forall. intros v Hv. apply In_assemble_cells in Hv.
    pose proof (matrix_ra_blocks_labels _ _ _ _ _ _ HM v Hv) as Hl. split.
    - apply trans_idx_valid. exact Hl.
    - eapply trans_idx_not_sentinel; eauto. }
  split.
  - eapply Forall_impl; [ | exact Hall]. intros v [Hv _]. exact Hv.
  - apply ll2ra_all_valid. cbn [values]. rewrite Hlen. exact Hall.
Qed.

End StoreThenResample.

Lemma stored_inverse_resamples_witness :
  exists fs1 fs2 da,
    intf_ll2ra_matrix Scene.self (Some "1"%string) Scene.intf_grids ([2], [1; 1]) false
    = Ok (ReturnsHandler fs1 (Ok fs2)) /\
    fs2 "raw/F1_intf_ll2ra.grd"%string = Some da /\
    ll2ra da [Some 1; Some 0; Some 1; Some 0]%Z
    = Ok (map (fun v => nth (Z.to_nat v) [Some 1; Some 0; Some 1; Some 0]%Z None)
              (values da)).
Proof.
  assert (Hrun : exists fs1 fs2,
             intf_ll2ra_matrix Scene.self (Some "1"%string) Scene.intf_grids
                               ([2], [1; 1]) false
             = Ok (ReturnsHandler fs1 (Ok fs2)))
    by (vm_compute; do 2 eexists; reflexivity).
  destruct Hrun as (fs1 & fs2 & Hrun).
  destruct (stored_inverse_resamples Scene.self (Some "1"%string) _ Scene.intf_grids
              ([2], [1; 1]) fs1 fs2 Z [Some 1; Some 0; Some 1; Some 0]%Z Hrun)
    as (da & Hfile & _ & Hll2ra).
  - vm_compute. reflexivity.
  - reflexivity.
  - exists fs1, fs2, da. split; [exact Hrun | split; [exact Hfile | exact Hll2ra]].
Defined.
